(** * The daemon-to-Prime connection core: a shallow embedding

    The development follows the Go sources of the agent:
    - [daemon/internal/primeclient/client.go]: the framed transport
      ([sendMessage], [readMessage]), the registration, the dispatcher
      ([handleMessage]), the heartbeat and the reconnect loop
      ([Connect], [connectOnce]);
    - [daemon/internal/handlers/registry.go] and [builtin.go]: the
      handler registry and the built-in handlers that read and write
      files;
    - the [executor] package: reading a file by offset and limit,
      listing a directory;
    - the [emitters] package: the resource monitor ([check]), the file
      watcher ([scan]) and the manager that routes their events;
    - [daemon/internal/config/config.go]: the configuration read from
      the environment.

    Go values of type [map[string]interface{}] are finite maps from
    strings to a small universe of dynamic values; byte slices are lists
    of bytes; [float64] is the kernel's binary64; fixed-width integers
    are [Z] with the wrap-around written out; a panic is an explicit
    outcome.  The packages [encoding/json], [bufio], [io], [net], [os],
    [path/filepath] and [time] are not part of the repository: they are
    modelled from their documented behaviour, [encoding/json] and the
    calls of the operating system being parameters. *)

From Stdlib Require Import ZArith Lia Floats DecimalString.
From Stdlib.Strings Require Import Byte.
From stdpp Require Import gmap strings list fin_maps.

Set Warnings "-register-all".
Local Open Scope Z_scope.

(** ** Bytes and fixed-width integers *)

Definition byte_of_Z (z : Z) : byte :=
  match Byte.of_N (Z.to_N (z mod 256)) with
  | Some b => b
  | None => x00
  end.

Definition Z_of_byte (b : byte) : Z := Z.of_N (Byte.to_N b).

(** Conversions [uint32(x)], [uint64(x)] and the two's complement
    [int64] wrap of an arithmetic result. *)
Definition uint32 (z : Z) : Z := z mod 2 ^ 32.
Definition uint64 (z : Z) : Z := z mod 2 ^ 64.
Definition minInt64 : Z := - 2 ^ 63.
Definition maxInt64 : Z := 2 ^ 63 - 1.
Definition int64 (z : Z) : Z := (z + 2 ^ 63) mod 2 ^ 64 - 2 ^ 63.

(** [binary.BigEndian.PutUint32] and [binary.BigEndian.Uint32]. *)
Definition PutUint32 (v : Z) : list byte :=
  [ byte_of_Z (Z.shiftr v 24); byte_of_Z (Z.shiftr v 16);
    byte_of_Z (Z.shiftr v 8); byte_of_Z v ].

Definition Uint32 (b : list byte) : Z :=
  match b with
  | [b0; b1; b2; b3] =>
      Z.lor (Z.lor (Z.lor (Z_of_byte b3) (Z.shiftl (Z_of_byte b2) 8))
                   (Z.shiftl (Z_of_byte b1) 16))
            (Z.shiftl (Z_of_byte b0) 24)
  | _ => 0
  end.

(** ** Go's dynamic values

    [interface{}] values as they occur in the messages of the protocol.
    [VInt] stands for a value of any Go integer type, [VNil] for the nil
    interface. *)

Inductive Value :=
  | VNil
  | VBool (b : bool)
  | VString (s : string)
  | VInt (n : Z)
  | VFloat64 (f : float)
  | VSlice (l : list Value)
  | VMap (m : gmap string Value).

(** A non-nil [map[string]interface{}]. *)
Abbreviation Msg := (gmap string Value).

(** The type assertions [v, _ := m[k].(T)]: the zero value of [T] when
    the key is absent or holds another type. *)
Definition asString (v : option Value) : string :=
  match v with Some (VString s) => s | _ => "" end.

Definition asBool (v : option Value) : bool :=
  match v with Some (VBool b) => b | _ => false end.

Definition asFloat64 (v : option Value) : float :=
  match v with Some (VFloat64 f) => f | _ => 0%float end.

(** ** float64 conversions *)

(** [float64(n)] for an integer [n]: round to nearest, ties to even. *)
Definition float64_of_Z (n : Z) : float :=
  SF2Prim (SpecFloat.binary_normalize 53 1024 n 0 false).

(** [int(f)] on a 64-bit platform: truncation toward zero.  Go leaves
    the result open when the value does not fit; amd64 yields the
    smallest [int64], which is what is written here. *)
Definition int_of_float64 (f : float) : Z :=
  match Prim2SF f with
  | SpecFloat.S754_zero _ => 0
  | SpecFloat.S754_finite s m e =>
      let mag := if 0 <=? e then Z.shiftl (Z.pos m) e
                 else Z.shiftr (Z.pos m) (- e) in
      let v := if s then - mag else mag in
      if (minInt64 <=? v) && (v <=? maxInt64) then v else minInt64
  | _ => minInt64
  end.

(** ** Errors, results and panics *)

Inductive error :=
  | EOF                                   (* io.EOF *)
  | ErrUnexpectedEOF                      (* io.ErrUnexpectedEOF *)
  | ErrNoProgress                         (* io.ErrNoProgress *)
  | ErrTimeout                            (* a net.Error with Timeout() *)
  | ErrBrokenPipe                         (* a failed write *)
  | ErrJSON                               (* an encoding/json error *)
  | Canceled                              (* context.Canceled *)
  | Errorf (msg : string)                 (* fmt.Errorf without %w *)
  | Wrapf (msg : string) (cause : error). (* fmt.Errorf(msg + %w, cause) *)

Inductive Res (A : Type) :=
  | Ok (a : A)
  | Err (e : error).
Arguments Ok {A} a.
Arguments Err {A} e.

(** A Go call either returns or panics; nothing in the repository
    recovers, so a panic ends the process. *)
Inductive Outcome (A : Type) :=
  | Returns (a : A)
  | Panics (reason : string).
Arguments Returns {A} a.
Arguments Panics {A} reason.

(** ** The TCP connection, [bufio.Reader] and [io.ReadFull]

    What the peer does on a connection is a script: the segments in the
    order the socket delivers them to [Read], and the read deadlines
    that expire in between.  When the script is exhausted the peer has
    closed the connection. *)

Inductive NetEvent :=
  | Data (bs : list byte)
  | Deadline.

Record Conn := mkConn {
  incoming : list NetEvent;   (* still to be delivered *)
  outgoing : list byte;       (* everything written so far *)
  writable : bool             (* false once the peer is gone *)
}.

(** [conn.Read(p)] with [len(p) = n > 0]: at most one segment, at most
    [n] bytes of it; the rest of the segment stays in the socket. *)
Fixpoint conn_Read (n : nat) (src : list NetEvent)
  : Res (list byte) * list NetEvent :=
  match src with
  | [] => (Err EOF, [])
  | Deadline :: rest => (Err ErrTimeout, rest)
  | Data [] :: rest => conn_Read n rest
  | Data bs :: rest =>
      (Ok (take n bs),
       match drop n bs with [] => rest | r => Data r :: rest end)
  end.

(** [conn.Write(b)]. *)
Definition conn_Write (b : list byte) (cn : Conn) : Res unit * Conn :=
  if writable cn
  then (Ok tt, mkConn (incoming cn) (outgoing cn ++ b) true)
  else (Err ErrBrokenPipe, cn).

(** [bufio.Reader]: the source it reads from and the bytes it holds. *)
Record Reader := mkReader {
  rd : list NetEvent;
  buf : list byte
}.

Definition defaultBufSize : nat := 4096.

(** [bufio.NewReader(conn)]. *)
Definition NewReader (src : list NetEvent) : Reader := mkReader src [].

(** [Read(p)] of a [bufio.Reader] with [len(p) = n]: from the buffer when it
    holds something; else one [Read] of the source, straight into [p]
    when [p] is at least as large as the buffer, into the buffer (up to
    its size) otherwise. *)
Definition Reader_Read (n : nat) (b : Reader) : Res (list byte) * Reader :=
  match n with
  | O => (Ok [], b)
  | _ =>
    match buf b with
    | [] =>
        if (defaultBufSize <=? n)%nat then
          let '(r, src) := conn_Read n (rd b) in (r, mkReader src [])
        else
          match conn_Read defaultBufSize (rd b) with
          | (Err e, src) => (Err e, mkReader src [])
          | (Ok got, src) => (Ok (take n got), mkReader src (drop n got))
          end
    | held => (Ok (take n held), mkReader (rd b) (drop n held))
    end
  end.

(** [io.ReadAtLeast]'s loop, [need] bytes still missing.  Every [Read]
    of the readers above yields a byte or an error, so [need] rounds are
    always enough; a reader that kept returning nothing would end in
    [io.ErrNoProgress]. *)
Fixpoint ReadAtLeast (rounds need : nat) (acc : list byte) (b : Reader)
  : Res (list byte) * Reader :=
  match need with
  | O => (Ok acc, b)
  | _ =>
    match rounds with
    | O => (Err ErrNoProgress, b)
    | S rounds' =>
        match Reader_Read need b with
        | (Err e, b') =>
            (Err (match acc, e with
                  | _ :: _, EOF => ErrUnexpectedEOF
                  | _, _ => e
                  end), b')
        | (Ok got, b') =>
            ReadAtLeast rounds' (need - length got) (acc ++ got) b'
        end
    end
  end.

(** [io.ReadFull(reader, make([]byte, n))]. *)
Definition ReadFull (n : nat) (b : Reader) : Res (list byte) * Reader :=
  ReadAtLeast n n [] b.

(** ** Time and the runtime's statistics *)

(** [time.Duration] counts nanoseconds in an [int64]; an instant is the
    number of nanoseconds since the zero [time.Time]. *)
Definition Second : Z := 1000000000.
Definition Minute : Z := 60 * Second.

(** [t.Sub(u)]: the difference, or the largest (smallest) duration when
    it does not fit. *)
Definition Time_Sub (t u : Z) : Z :=
  if maxInt64 <? t - u then maxInt64
  else if t - u <? minInt64 then minInt64
  else t - u.

(** The fields of [runtime.MemStats] and [syscall.Statfs_t] that the
    agent reads. *)
Record MemStats := mkMemStats { Alloc : Z; Sys : Z }.
Record Statfs_t := mkStatfs { Blocks : Z; Bfree : Z; Bsize : Z }.

(** ** Strings: [strings.Split(s, sep)] and [strings.Join(l, sep)] for
    the one-byte separator of a line feed *)

Definition LF : Ascii.ascii := Ascii.ascii_of_nat 10.
Definition newline : string := String LF EmptyString.

Fixpoint Split (s : string) : list string :=
  match s with
  | EmptyString => [EmptyString]
  | String ch s' =>
      if Ascii.eqb ch LF then EmptyString :: Split s'
      else match Split s' with
           | h :: t => String ch h :: t
           | [] => [String ch EmptyString]
           end
  end.

Definition Join (l : list string) (sep : string) : string :=
  String.concat sep l.

(** The slice expression [l[lo:hi]] on a slice whose capacity is its
    length (as [strings.Split] returns it): a run-time panic unless
    [0 <= lo <= hi <= len(l)]. *)
Definition slice {A : Type} (l : list A) (lo hi : Z) : Outcome (list A) :=
  if (lo <? 0) || (hi <? lo) || (Z.of_nat (length l) <? hi)
  then Panics "runtime error: slice bounds out of range"
  else Returns (take (Z.to_nat (hi - lo)) (drop (Z.to_nat lo) l)).

(** [err.Error()]. *)
Fixpoint Error (e : error) : string :=
  match e with
  | EOF => "EOF"
  | ErrUnexpectedEOF => "unexpected EOF"
  | ErrNoProgress => "multiple Read calls return no data or error"
  | ErrTimeout => "i/o timeout"
  | ErrBrokenPipe => "broken pipe"
  | ErrJSON => "json error"
  | Canceled => "context canceled"
  | Errorf msg => msg
  | Wrapf msg cause => msg ++ Error cause
  end.

(** ** Package [handlers]: the registry (registry.go) and the built-in
    handlers (builtin.go) *)

Module handlers.

(** [type Handler func(params map[string]interface{}) map[string]interface{}];
    the result [None] is the nil map. *)
Abbreviation Handler := (Msg -> Outcome (option Msg)).

Record Registry := mkRegistry { handlers : gmap string Handler }.

Definition NewRegistry : Registry := mkRegistry ∅.

Definition Register (cmdType : string) (handler : Handler) (r : Registry)
  : Registry :=
  mkRegistry (<[cmdType := handler]> (handlers r)).

Definition Handle (r : Registry) (cmdType : string) (params : Msg)
  : Outcome (option Msg) :=
  match handlers r !! cmdType with
  | None =>
      Returns (Some (<["success" := VBool false]>
                    (<["error" := VString ("unknown command type: " ++ cmdType)]>
                     ∅)))
  | Some handler => handler params
  end.

Definition HasHandler (r : Registry) (cmdType : string) : bool :=
  match handlers r !! cmdType with Some _ => true | None => false end.

(** [ListHandlers] ranges over the map; Go fixes no order. *)
Definition ListHandlers (r : Registry) : list string :=
  (map_to_list (handlers r)).*1.

(** What the handlers see of the machine. *)
Record World := mkWorld {
  files : gmap string string;   (* the readable files *)
  clock : string                (* time.Now().UTC().Format(time.RFC3339) *)
}.

(** [ioutil.ReadFile]. *)
Definition ReadFile (w : World) (path : string) : Res string :=
  match files w !! path with
  | Some content => Ok content
  | None => Err (Errorf ("open " ++ path ++ ": no such file or directory"))
  end.

Definition failure (msg : string) : Msg :=
  <["success" := VBool false]> (<["error" := VString msg]> ∅).

Definition handlePing (w : World) (params : Msg) : Outcome (option Msg) :=
  Returns (Some (<["success" := VBool true]>
                (<["output" := VString "pong"]>
                 (<["time" := VString (clock w)]> ∅)))).

Definition handleReadFile (w : World) (params : Msg) : Outcome (option Msg) :=
  let path := asString (params !! "path") in
  let offset := asFloat64 (params !! "offset") in
  let limit := asFloat64 (params !! "limit") in
  if String.eqb path "" then Returns (Some (failure "no path provided"))
  else
    match ReadFile w path with
    | Err err => Returns (Some (failure (Error err)))
    | Ok content =>
        let lines := Split content in
        let start := int_of_float64 offset in
        let len_lines := Z.of_nat (length lines) in
        let end_ :=
          if PrimFloat.ltb 0 limit then
            let e := int64 (start + int_of_float64 limit) in
            if len_lines <? e then len_lines else e
          else len_lines in
        let done (content : string) : Outcome (option Msg) :=
          Returns (Some (<["success" := VBool true]>
                        (<["content" := VString content]>
                         (<["size" := VInt (Z.of_nat (String.length content))]>
                          (<["total_lines" :=
                               VInt (Z.of_nat (length (Split content)))]> ∅))))) in
        if (0 <? start) || PrimFloat.ltb 0 limit then
          match (if start <? len_lines then slice lines start end_
                 else Returns []) with
          | Panics reason => Panics reason
          | Returns lines' => done (Join lines' newline)
          end
        else done content
    end.

(** The built-in handlers that run processes or drive the browser are
    parameters: only their names matter to the registry. *)
Record External := mkExternal {
  handleShell : Handler;
  handleWriteFile : Handler;
  handleDeleteFile : Handler;
  handleListFiles : Handler;
  handleSystemInfo : Handler;
  handleListProcesses : Handler;
  handleKillProcess : Handler;
  handleDocker : Handler;
  handleGit : Handler;
  handleManageService : Handler;
  handleComputer : Handler;
  handleBrowserLaunch : Handler;
  handleBrowserGoto : Handler;
  handleBrowserClick : Handler;
  handleBrowserType : Handler;
  handleBrowserGetText : Handler;
  handleBrowserGetContent : Handler;
  handleBrowserScreenshot : Handler;
  handleBrowserEvaluate : Handler;
  handleBrowserWait : Handler;
  handleBrowserScroll : Handler;
  handleBrowserGetElements : Handler;
  handleBrowserClose : Handler
}.

Definition handleExec (x : External) (params : Msg) : Outcome (option Msg) :=
  handleShell x params.

Definition RegisterBuiltins (w : World) (x : External) (r : Registry)
  : Registry :=
  let r := Register "ping" (handlePing w) r in
  let r := Register "shell" (handleShell x) r in
  let r := Register "read_file" (handleReadFile w) r in
  let r := Register "write_file" (handleWriteFile x) r in
  let r := Register "delete_file" (handleDeleteFile x) r in
  let r := Register "list_files" (handleListFiles x) r in
  let r := Register "system_info" (handleSystemInfo x) r in
  let r := Register "list_processes" (handleListProcesses x) r in
  let r := Register "kill_process" (handleKillProcess x) r in
  let r := Register "docker" (handleDocker x) r in
  let r := Register "git" (handleGit x) r in
  let r := Register "manage_service" (handleManageService x) r in
  let r := Register "exec" (handleExec x) r in
  let r := Register "computer" (handleComputer x) r in
  let r := Register "browser_launch" (handleBrowserLaunch x) r in
  let r := Register "browser_goto" (handleBrowserGoto x) r in
  let r := Register "browser_click" (handleBrowserClick x) r in
  let r := Register "browser_type" (handleBrowserType x) r in
  let r := Register "browser_get_text" (handleBrowserGetText x) r in
  let r := Register "browser_get_content" (handleBrowserGetContent x) r in
  let r := Register "browser_screenshot" (handleBrowserScreenshot x) r in
  let r := Register "browser_evaluate" (handleBrowserEvaluate x) r in
  let r := Register "browser_wait" (handleBrowserWait x) r in
  let r := Register "browser_scroll" (handleBrowserScroll x) r in
  let r := Register "browser_get_elements" (handleBrowserGetElements x) r in
  Register "browser_close" (handleBrowserClose x) r.

End handlers.

(** ** Package [primeclient] (client.go) *)

Module primeclient.

Record Config := mkConfig {
  PrimeAddress : string;
  RegistrationKey : string;
  Name : string;
  Hostname : string;
  Capabilities : list string;
  IsSoulDaemon : bool;
  UltronRoot : string
}.

(** The [Client] struct; [conn = None] is the nil connection.  The
    mutex guards [conn] and has no state of its own in a sequential
    run. *)
Record Client := mkClient {
  primeAddress : string;
  registrationKey : string;
  name : string;
  hostname : string;
  capabilities : list string;
  isSoulDaemon : bool;
  ultronRoot : string;
  conn : option Conn;
  daemonID : string;
  reconnectDelay : Z;
  maxReconnect : Z
}.

Definition set_conn (cn : option Conn) (c : Client) : Client :=
  mkClient (primeAddress c) (registrationKey c) (name c) (hostname c)
    (capabilities c) (isSoulDaemon c) (ultronRoot c)
    cn (daemonID c) (reconnectDelay c) (maxReconnect c).

Definition set_daemonID (id : string) (c : Client) : Client :=
  mkClient (primeAddress c) (registrationKey c) (name c) (hostname c)
    (capabilities c) (isSoulDaemon c) (ultronRoot c)
    (conn c) id (reconnectDelay c) (maxReconnect c).

Definition set_reconnectDelay (d : Z) (c : Client) : Client :=
  mkClient (primeAddress c) (registrationKey c) (name c) (hostname c)
    (capabilities c) (isSoulDaemon c) (ultronRoot c)
    (conn c) (daemonID c) d (maxReconnect c).

Definition TypeRegistration : string := "registration".
Definition TypeRegistrationAck : string := "registration_ack".
Definition TypeHeartbeat : string := "heartbeat".
Definition TypeResult : string := "result".
Definition TypeEvent : string := "event".
Definition TypePing : string := "ping".

(** [NewClient]; [os_hostname] is what [os.Hostname()] returns. *)
Definition NewClient (os_hostname : string) (cfg : Config) : Client :=
  let hostname := if String.eqb (Hostname cfg) "" then os_hostname
                  else Hostname cfg in
  mkClient (PrimeAddress cfg) (RegistrationKey cfg) (Name cfg) hostname
    (Capabilities cfg) (IsSoulDaemon cfg) (UltronRoot cfg)
    None "" (1 * Second) (60 * Second).

(** [Close] closes the connection and leaves the field as it is. *)
Definition Close (c : Client) : Res unit * Client :=
  match conn c with
  | Some cn =>
      (Ok tt, set_conn (Some (mkConn (incoming cn) (outgoing cn) false)) c)
  | None => (Ok tt, c)
  end.

Definition DaemonID (c : Client) : string := daemonID c.

Definition IsConnected (c : Client) : bool :=
  match conn c with Some _ => true | None => false end.

(** One dial of [Connect]: the connection [DialContext] returns, if
    any, with what the controller will do on it; the number of turns
    of [messageLoop] during which the context stays live (it is done
    when the read of the last of them returns); how long the read of
    each turn blocks when it does not run into its deadline; and what
    [runtime.ReadMemStats] reports at each tick of the heartbeat. *)
Record Attempt := mkAttempt {
  dial : option Conn;
  ctx : nat;
  pace : nat -> Z;
  memory : nat -> MemStats
}.

(** The instants at which the channel of [time.NewTicker(d)], created at
    [t0], delivers: [t0 + d], [t0 + 2d], ... *)
Definition Ticker (d t0 : Z) (k : nat) : Z := t0 + (Z.of_nat k + 1) * d.

Section Codec.

(** [json.Marshal] on a message and [json.Unmarshal] into a
    [map[string]interface{}]. *)
Variable Marshal : Msg -> Res (list byte).
Variable Unmarshal : list byte -> Res Msg.

(** The registry behind [handlers.Handle], i.e. [DefaultRegistry]. *)
Variable DefaultRegistry : handlers.Registry.

Definition sendMessage (msg : Msg) (c : Client) : Res unit * Client :=
  match conn c with
  | None => (Err (Errorf "not connected"), c)
  | Some cn =>
      match Marshal msg with
      | Err err => (Err (Wrapf "marshal: " err), c)
      | Ok data =>
          let length_ := PutUint32 (uint32 (Z.of_nat (length data))) in
          match conn_Write length_ cn with
          | (Err err, cn1) =>
              (Err (Wrapf "write length: " err), set_conn (Some cn1) c)
          | (Ok _, cn1) =>
              match conn_Write data cn1 with
              | (Err err, cn2) =>
                  (Err (Wrapf "write data: " err), set_conn (Some cn2) c)
              | (Ok _, cn2) => (Ok tt, set_conn (Some cn2) c)
              end
          end
      end
  end.

(** [readMessage] wraps the connection in a fresh [bufio.Reader] on every
    call; what that reader has buffered beyond the frame goes away with
    it, and the connection continues from where the reader's last [Read]
    of the socket stopped. *)
Definition readMessage (c : Client) : Res Msg * Client :=
  match conn c with
  | None => (Err (Errorf "not connected"), c)
  | Some cn =>
      let after (b : Reader) : Client :=
        set_conn (Some (mkConn (rd b) (outgoing cn) (writable cn))) c in
      let reader := NewReader (incoming cn) in
      match ReadFull 4 reader with
      | (Err err, reader1) => (Err err, after reader1)
      | (Ok lengthBuf, reader1) =>
          let length_ := Uint32 lengthBuf in
          match ReadFull (Z.to_nat length_) reader1 with
          | (Err err, reader2) => (Err err, after reader2)
          | (Ok data, reader2) =>
              match Unmarshal data with
              | Err err => (Err (Wrapf "unmarshal: " err), after reader2)
              | Ok msg => (Ok msg, after reader2)
              end
          end
      end
  end.

Definition sendRegistration (c : Client) : Res unit * Client :=
  let msg : Msg :=
    <["type" := VString TypeRegistration]>
    (<["registration_key" := VString (registrationKey c)]>
    (<["name" := VString (name c)]>
    (<["hostname" := VString (hostname c)]>
    (<["capabilities" := VSlice (VString <$> capabilities c)]>
    (<["is_soul_daemon" := VBool (isSoulDaemon c)]>
    (<["ultron_root" := VString (ultronRoot c)]> ∅)))))) in
  match sendMessage msg c with
  | (Err err, c1) => (Err err, c1)
  | (Ok _, c1) =>
      match readMessage c1 with
      | (Err err, c2) => (Err (Wrapf "reading ack: " err), c2)
      | (Ok ack, c2) =>
          match ack !! "type" with
          | Some (VString t) =>
              if String.eqb t TypeRegistrationAck then
                if asBool (ack !! "success") then
                  (Ok tt,
                   match ack !! "daemon_id" with
                   | Some (VString id) => set_daemonID id c2
                   | _ => c2
                   end)
                else (Err (Errorf "registration rejected"), c2)
              else (Err (Errorf "unexpected message type"), c2)
          | _ => (Err (Errorf "unexpected message type"), c2)
          end
      end
  end.

(** [sendHeartbeat]; [m] is what [runtime.ReadMemStats] reports.  A
    failed send is logged and nothing else. *)
Definition sendHeartbeat (m : MemStats) (c : Client) : Client :=
  let cpuPercent := 0%float in
  let diskPercent := 0%float in
  let memPercent :=
    PrimFloat.mul (PrimFloat.div (float64_of_Z (Alloc m)) (float64_of_Z (Sys m)))
                  100%float in
  let msg : Msg :=
    <["type" := VString TypeHeartbeat]>
    (<["daemon_id" := VString (daemonID c)]>
    (<["cpu_percent" := VFloat64 cpuPercent]>
    (<["memory_percent" := VFloat64 memPercent]>
    (<["disk_percent" := VFloat64 diskPercent]>
    (<["active_tasks" := VInt 0]> ∅))))) in
  (sendMessage msg c).2.

Definition heartbeatInterval : Z := 30 * Second.

(** [heartbeatLoop], started at [t0]: one [sendHeartbeat] for each tick
    of the ticker that fires before the context is done ([samples] holds
    the memory statistics read on those ticks).  The trace pairs every
    tick's instant with the client as the heartbeat leaves it. *)
Fixpoint heartbeatLoop_from (k : nat) (t0 : Z) (samples : list MemStats)
    (c : Client) : list (Z * Client) :=
  match samples with
  | [] => []
  | m :: rest =>
      let c' := sendHeartbeat m c in
      (Ticker heartbeatInterval t0 k, c') :: heartbeatLoop_from (S k) t0 rest c'
  end.

Definition heartbeatLoop (t0 : Z) (samples : list MemStats) (c : Client)
  : list (Z * Client) :=
  heartbeatLoop_from 0 t0 samples c.

(** [handleMessage].  Assigning to an entry of the nil map panics. *)
Definition handleMessage (msg : Msg) (c : Client) : Outcome Client :=
  let msgType := asString (msg !! "type") in
  let commandID := asString (msg !! "command_id") in
  match handlers.Handle DefaultRegistry msgType msg with
  | Panics reason => Panics reason
  | Returns None => Panics "assignment to entry in nil map"
  | Returns (Some result) =>
      let result := <["command_id" := VString commandID]> result in
      let result := <["daemon_id" := VString (daemonID c)]> result in
      let result := <["type" := VString TypeResult]> result in
      Returns (sendMessage result c).2
  end.

(** [messageLoop]; [ctx] turns of the loop pass before the context is
    done.  Each message is handled in a goroutine of its own; here they
    run one after the other, in the order of arrival. *)
Fixpoint messageLoop (ctx : nat) (c : Client) : Outcome (error * Client) :=
  match ctx with
  | O => Returns (Canceled, c)
  | S ctx' =>
      match conn c with
      | None => Panics "invalid memory address or nil pointer dereference"
      | Some _ =>
          match readMessage c with
          | (Err EOF, c1) => Returns (Errorf "connection closed", c1)
          | (Err ErrTimeout, c1) => messageLoop ctx' c1
          | (Err err, c1) => Returns (Wrapf "read error: " err, c1)
          | (Ok msg, c1) =>
              match handleMessage msg c1 with
              | Panics reason => Panics reason
              | Returns c2 => messageLoop ctx' c2
              end
          end
      end
  end.

(** The read deadline that [messageLoop] sets at every turn. *)
Definition readDeadline : Z := 60 * Second.

(** How long a read of [messageLoop] has blocked when it returns [r]:
    the sixty seconds of its deadline when it ran into it, and else [d],
    which lies between nothing and the deadline. *)
Definition blocked (d : Z) (r : Res Msg) : Z :=
  match r with
  | Err ErrTimeout => readDeadline
  | _ => Z.max 0 (Z.min d readDeadline)
  end.

(** The number of ticks that the ticker of [heartbeatLoop], created at
    the instant 0, has delivered by the instant [t]. *)
Definition due (t : Z) : nat := Z.to_nat (t / heartbeatInterval).

(** The client as the last of the heartbeats [beats] leaves it. *)
Definition after_beats (beats : list (Z * Client)) (c : Client) : Client :=
  match last beats with
  | Some (_, c') => c'
  | None => c
  end.

(** The session of [connectOnce]: [go c.heartbeatLoop(heartbeatCtx)]
    beside [c.messageLoop(ctx)], on the clock that the [go] statement
    starts at 0.  The read of the turn of [messageLoop] that begins at
    [now] returns at [until]; the ticks of [heartbeatLoop] that fall in
    between send their heartbeats while the read blocks, and what the
    read returns is dealt with after them.

    The result: the heartbeats in the order they were sent, as
    [heartbeatLoop] reports them; the instant at which [messageLoop]
    ends, upon which the deferred [cancelHeartbeat] stops the
    heartbeat; the client at that instant; and how [messageLoop] ends. *)
Fixpoint serve (pace : nat -> Z) (memory : nat -> MemStats)
    (ctx turn : nat) (now : Z) (c : Client)
  : list (Z * Client) * Z * Client * Outcome error :=
  match ctx with
  | O => ([], now, c, Returns Canceled)
  | S ctx' =>
      match conn c with
      | None =>
          ([], now, c,
           Panics "invalid memory address or nil pointer dereference")
      | Some _ =>
          let (r, c1) := readMessage c in
          let until := now + blocked (pace turn) r in
          let ticks := seq (due now) (due until - due now) in
          let beats := heartbeatLoop_from (due now) 0 (memory <$> ticks) c1 in
          let c1 := after_beats beats c1 in
          match r with
          | Err EOF => (beats, until, c1, Returns (Errorf "connection closed"))
          | Err ErrTimeout =>
              let '(more, teardown, c3, how) :=
                serve pace memory ctx' (S turn) until c1 in
              (beats ++ more, teardown, c3, how)
          | Err err => (beats, until, c1, Returns (Wrapf "read error: " err))
          | Ok msg =>
              match handleMessage msg c1 with
              | Panics reason => (beats, until, c1, Panics reason)
              | Returns c2 =>
                  let '(more, teardown, c3, how) :=
                    serve pace memory ctx' (S turn) until c2 in
                  (beats ++ more, teardown, c3, how)
              end
          end
      end
  end.

(** [connectOnce]: the error it returns, the client it leaves, and the
    connection as it was when the deferred function closed it (kept for
    inspection only). *)
Definition connectOnce (a : Attempt) (c : Client)
  : Outcome (error * Client * option Conn) :=
  match dial a with
  | None =>
      Returns (Wrapf "dial failed: " (Errorf "connection refused"), c, None)
  | Some cn =>
      let c := set_conn (Some cn) c in
      let c := set_reconnectDelay (1 * Second) c in
      match sendRegistration c with
      | (Err err, c1) =>
          Returns (Wrapf "registration failed: " err, set_conn None c1, conn c1)
      | (Ok _, c1) =>
          match serve (pace a) (memory a) (ctx a) 0 0 c1 with
          | (_, _, _, Panics reason) => Panics reason
          | (_, _, c2, Returns err) =>
              Returns (err, set_conn None c2, conn c2)
          end
      end
  end.

(** [Connect]: the waits between attempts, in order, and the client at
    the moment the context is done.  The context is done when the
    attempts are used up, or as soon as [messageLoop] has seen it done. *)
Fixpoint Connect (attempts : list Attempt) (c : Client)
  : Outcome (list Z * Client) :=
  match attempts with
  | [] => Returns ([], c)
  | a :: rest =>
      match connectOnce a c with
      | Panics reason => Panics reason
      | Returns (Canceled, c1, _) => Returns ([], c1)
      | Returns (_, c1, _) =>
          let wait := reconnectDelay c1 in
          let doubled := int64 (reconnectDelay c1 * 2) in
          let c2 :=
            if maxReconnect c1 <? doubled
            then set_reconnectDelay (maxReconnect c1) c1
            else set_reconnectDelay doubled c1 in
          match Connect rest c2 with
          | Panics reason => Panics reason
          | Returns (waits, c3) => Returns (wait :: waits, c3)
          end
      end
  end.

(** [SendEvent]; [now] is [time.Now().UTC().Format(time.RFC3339)]. *)
Definition SendEvent (now : string) (source eventType : string)
    (payload : Msg) (c : Client) : Res unit * Client :=
  let event : Msg :=
    <["type" := VString TypeEvent]>
    (<["daemon_id" := VString (daemonID c)]>
    (<["source" := VString source]>
    (<["event_type" := VString eventType]>
    (<["payload" := VMap payload]>
    (<["timestamp" := VString now]> ∅))))) in
  sendMessage event c.

Definition SendAlert (alertType message severity : string)
    (metadata : gmap string string) (c : Client) : Res unit * Client :=
  let msg : Msg :=
    <["type" := VString "alert"]>
    (<["daemon_id" := VString (daemonID c)]>
    (<["alert_type" := VString alertType]>
    (<["message" := VString message]>
    (<["severity" := VString severity]>
    (<["metadata" := VMap (VString <$> metadata)]> ∅))))) in
  sendMessage msg c.

End Codec.

End primeclient.

(** ** Package [emitters]: the resource monitor *)

Module emitters.

(** [Event]; the field [Type] of the source is [Type_] here. *)
Record Event := mkEvent {
  Source : string;
  Type_ : string;
  Payload : Msg;
  Timestamp : Z
}.

(** [ResourceMonitor] without its pointer to the manager: the events
    handed to [Manager.Emit] are returned instead. *)
Record ResourceMonitor := mkResourceMonitor {
  daemonName : string;
  checkInterval : Z;
  cpuThreshold : float;
  memThreshold : float;
  diskThreshold : float;
  lastCPUAlert : Z;
  lastMemAlert : Z;
  lastDiskAlert : Z;
  alertCooldown : Z;
  running : bool
}.

Definition NewResourceMonitor (daemonName : string) : ResourceMonitor :=
  mkResourceMonitor daemonName (30 * Second) 80%float 85%float 90%float
    0 0 0 (5 * Minute) false.

Definition SetThresholds (cpu mem disk : float) (r : ResourceMonitor)
  : ResourceMonitor :=
  mkResourceMonitor (daemonName r) (checkInterval r) cpu mem disk
    (lastCPUAlert r) (lastMemAlert r) (lastDiskAlert r) (alertCooldown r)
    (running r).

Definition set_lastMemAlert (t : Z) (r : ResourceMonitor) : ResourceMonitor :=
  mkResourceMonitor (daemonName r) (checkInterval r) (cpuThreshold r)
    (memThreshold r) (diskThreshold r)
    (lastCPUAlert r) t (lastDiskAlert r) (alertCooldown r) (running r).

Definition set_lastDiskAlert (t : Z) (r : ResourceMonitor) : ResourceMonitor :=
  mkResourceMonitor (daemonName r) (checkInterval r) (cpuThreshold r)
    (memThreshold r) (diskThreshold r)
    (lastCPUAlert r) (lastMemAlert r) t (alertCooldown r) (running r).

Definition set_running (b : bool) (r : ResourceMonitor) : ResourceMonitor :=
  mkResourceMonitor (daemonName r) (checkInterval r) (cpuThreshold r)
    (memThreshold r) (diskThreshold r)
    (lastCPUAlert r) (lastMemAlert r) (lastDiskAlert r) (alertCooldown r) b.

Definition Name (r : ResourceMonitor) : string := "resource_monitor".

(** What one call of [check] observes: [time.Now()], the utilisation of
    the processors at that moment (which [check] never reads), the
    result of [runtime.ReadMemStats] and that of [syscall.Statfs] on the
    root ([None] when it fails). *)
Record Probe := mkProbe {
  now : Z;
  cpuBusy : float;
  memStats : MemStats;
  statfs : option Statfs_t
}.

Definition percent (part whole : Z) : float :=
  PrimFloat.mul (PrimFloat.div (float64_of_Z part) (float64_of_Z whole))
                100%float.

Definition GiB (n : Z) : float :=
  PrimFloat.div (PrimFloat.div (PrimFloat.div (float64_of_Z n) 1024%float)
                               1024%float) 1024%float.

Definition check (p : Probe) (r : ResourceMonitor)
  : list Event * ResourceMonitor :=
  let now := now p in
  (* Check memory *)
  let memPercent := percent (Alloc (memStats p)) (Sys (memStats p)) in
  let '(mem_events, r) :=
    if PrimFloat.ltb (memThreshold r) memPercent
       && (alertCooldown r <? Time_Sub now (lastMemAlert r))
    then
      ([mkEvent ("daemon:" ++ daemonName r) "memory_high"
          (<["percent" := VFloat64 memPercent]>
           (<["threshold" := VFloat64 (memThreshold r)]>
            (<["alloc" := VInt (Alloc (memStats p))]>
             (<["sys" := VInt (Sys (memStats p))]> ∅))))
          now],
       set_lastMemAlert now r)
    else ([], r) in
  (* Check disk *)
  let '(disk_events, r) :=
    match statfs p with
    | None => ([], r)
    | Some stat =>
        let diskTotal := uint64 (Blocks stat * uint64 (Bsize stat)) in
        let diskFree := uint64 (Bfree stat * uint64 (Bsize stat)) in
        let diskUsed := uint64 (diskTotal - diskFree) in
        let diskPercent := percent diskUsed diskTotal in
        if PrimFloat.ltb (diskThreshold r) diskPercent
           && (alertCooldown r <? Time_Sub now (lastDiskAlert r))
        then
          ([mkEvent ("daemon:" ++ daemonName r) "disk_high"
              (<["percent" := VFloat64 diskPercent]>
               (<["threshold" := VFloat64 (diskThreshold r)]>
                (<["total_gb" := VFloat64 (GiB diskTotal)]>
                 (<["free_gb" := VFloat64 (GiB diskFree)]> ∅))))
              now],
           set_lastDiskAlert now r)
        else ([], r)
    end in
  (mem_events ++ disk_events, r).

(** The ticks of [Start] after [running] is set: one [check] per tick
    until the context is done, the events in the order of emission. *)
Fixpoint ticks (probes : list Probe) (r : ResourceMonitor)
  : list Event * ResourceMonitor :=
  match probes with
  | [] => ([], r)
  | p :: rest =>
      let '(evs, r1) := check p r in
      let '(evs', r2) := ticks rest r1 in
      (evs ++ evs', r2)
  end.

Definition Start (probes : list Probe) (r : ResourceMonitor)
  : list Event * ResourceMonitor :=
  ticks probes (set_running true r).

Definition Stop (r : ResourceMonitor) : ResourceMonitor :=
  set_running false r.

End emitters.

(** ** Strings: [strings.Split] for any one-byte separator, [strings.ToLower] *)

(** [strings.Split(s, sep)] where [sep] is the one byte [sep]. *)
Fixpoint Split_sep (sep : Ascii.ascii) (s : string) : list string :=
  match s with
  | EmptyString => [EmptyString]
  | String ch s' =>
      if Ascii.eqb ch sep then EmptyString :: Split_sep sep s'
      else match Split_sep sep s' with
           | h :: t => String ch h :: t
           | [] => [String ch EmptyString]
           end
  end.

Definition comma : Ascii.ascii := Ascii.ascii_of_nat 44.

(** [strings.ToLower] on the letters of ASCII.  The other bytes stay as
    they are; Go maps the upper-case letters beyond ASCII as well, none
    of them to a letter of [true] or [yes]. *)
Definition lower (ch : Ascii.ascii) : Ascii.ascii :=
  let n := Ascii.nat_of_ascii ch in
  if ((65 <=? n) && (n <=? 90))%nat then Ascii.ascii_of_nat (n + 32) else ch.

Fixpoint ToLower (s : string) : string :=
  match s with
  | EmptyString => EmptyString
  | String ch s' => String (lower ch) (ToLower s')
  end.

(** ** Package [config] (config.go) *)

Module config.

Record Config := mkConfig {
  Name : string;
  Hostname : string;
  Capabilities : list string;
  PrimeAddress : string;
  PrimeURL : string;
  RegistrationKey : string;
  TLSCertPath : string;
  TLSKeyPath : string;
  IsSoulDaemon : bool;
  AlfredRoot : string;
  DaemonID : string
}.

Definition set_Capabilities (caps : list string) (cfg : Config) : Config :=
  mkConfig (Name cfg) (Hostname cfg) caps (PrimeAddress cfg) (PrimeURL cfg)
    (RegistrationKey cfg) (TLSCertPath cfg) (TLSKeyPath cfg)
    (IsSoulDaemon cfg) (AlfredRoot cfg) (DaemonID cfg).

(** [os.Getenv] in the environment [env]: the empty string for a
    variable that is not set. *)
Definition Getenv (env : gmap string string) (key : string) : string :=
  default "" (env !! key).

Definition getEnvBool (env : gmap string string) (key : string)
    (defaultValue : bool) : bool :=
  let value := Getenv env key in
  if negb (String.eqb value "") then
    let lower := ToLower value in
    String.eqb lower "true" || String.eqb lower "1" || String.eqb lower "yes"
  else defaultValue.

Definition getEnv (env : gmap string string) (key defaultValue : string)
  : string :=
  let value := Getenv env key in
  if negb (String.eqb value "") then value else defaultValue.

Definition getEnvSlice (env : gmap string string) (key : string)
    (defaultValue : list string) : list string :=
  let value := Getenv env key in
  if negb (String.eqb value "") then Split_sep comma value else defaultValue.

Definition defaultCaps : list string :=
  ["shell"; "files"; "docker"; "services"; "git"; "network";
   "process"; "package"; "cron"; "session"].

(** [Load]; [os_hostname] is what [os.Hostname()] returns (the empty
    string with its error).  The path of the configuration file is not
    read. *)
Definition Load (os_hostname : string) (env : gmap string string)
    (configPath : string) : Res Config :=
  let hostname := os_hostname in
  let cfg :=
    mkConfig
      (getEnv env "DAEMON_NAME" hostname)
      hostname
      (getEnvSlice env "DAEMON_CAPABILITIES" defaultCaps)
      (getEnv env "PRIME_ADDRESS" "localhost:50051")
      (getEnv env "PRIME_URL" "http://localhost:8000")
      (getEnv env "DAEMON_REGISTRATION_KEY" "")
      (getEnv env "DAEMON_TLS_CERT" "")
      (getEnv env "DAEMON_TLS_KEY" "")
      (getEnvBool env "DAEMON_IS_SOUL" false)
      (getEnv env "ALFRED_ROOT" "")
      "" in
  let cfg :=
    if IsSoulDaemon cfg
    then set_Capabilities (Capabilities cfg ++ ["soul"; "self-modify"]) cfg
    else cfg in
  Ok cfg.

End config.

(** ** The file tree: [os.Lstat], [ioutil.ReadDir] and [filepath.Walk]

    What [os.FileInfo] tells of an entry, and the entries below a path
    at the moment of a call, every one of them readable and the entries
    of a directory in the order of their names, as [ReadDir] and [Walk]
    list them. *)

Module os.

Record FileInfo := mkFileInfo {
  Name : string;      (* info.Name() *)
  Size : Z;           (* info.Size() *)
  Mode : string;      (* info.Mode().String() *)
  ModTime : Z         (* info.ModTime() *)
}.

Inductive Node :=
  | File (info : FileInfo)
  | Directory (info : FileInfo) (entries : list Node).

Definition Info (n : Node) : FileInfo :=
  match n with File info => info | Directory info _ => info end.

Definition IsDir (n : Node) : bool :=
  match n with File _ => false | Directory _ _ => true end.

Definition Entries (n : Node) : list Node :=
  match n with File _ => [] | Directory _ entries => entries end.

(** The error of a failed call on a file, [*fs.PathError]. *)
Definition PathError (op path reason : string) : error :=
  Errorf (String.append op
            (String.append " " (String.append path (String.append ": " reason)))).

(** An open regular file, [*os.File], is the name it was opened by and
    the bytes [data] that the file holds.  [file.Stat] reports their
    number. *)
Definition Stat (data : list byte) : Res Z := Ok (Z.of_nat (length data)).

(** [file.Seek(offset, 0)] for a positive offset.  The descriptor can be
    put beyond the end of the file, but not beyond [maxbytes], the
    largest offset that the file system of the file supports: there the
    call fails with EINVAL.  No file is larger than [maxbytes], so that
    inside a file the call succeeds. *)
Definition Seek (maxbytes : Z) (name : string) (data : list byte) (offset : Z)
  : Res Z :=
  if (Z.of_nat (length data) <? offset) && (maxbytes <? offset)
  then Err (PathError "seek" name "invalid argument")
  else Ok offset.

(** [io.ReadFull(file, buf)] for a buffer of [n] bytes, the descriptor
    being at [position]: the bytes read, and [io.EOF] when there was
    none for a buffer that is not empty, [io.ErrUnexpectedEOF] when
    there were fewer than [n]. *)
Definition ReadFull (data : list byte) (position : Z) (n : nat)
  : list byte * option error :=
  let content := take n (drop (Z.to_nat position) data) in
  (content,
   if (length content <? n)%nat
   then Some (match content with [] => EOF | _ => ErrUnexpectedEOF end)
   else None).

End os.

Module filepath.

(** [filepath.Join(dir, name)] for a clean [dir] and the name of one of
    its entries. *)
Definition Join (dir name : string) : string :=
  if String.eqb dir "/" then "/" ++ name else dir ++ "/" ++ name.

(** What a [filepath.WalkFunc] returns besides nil. *)
Inductive WalkErr :=
  | SkipDir
  | SkipAll
  | WalkFail (e : error).

Section Walk.

Context {A : Type}.

(** The walk function acts on what it has collected so far; its second
    argument is [None] when it is called with an error. *)
Variable walkFn : string -> option os.Node -> A -> option WalkErr * A.

(** [walk] of path/filepath: the function is called on the entry, then,
    for a directory on which it returned nil, on the entries below, in
    order; [SkipDir] returned by the walk of a directory only skips
    that directory, any other error ends the walk of the parent. *)
Fixpoint walk (path : string) (n : os.Node) (acc : A) : option WalkErr * A :=
  match n with
  | os.File _ => walkFn path (Some n) acc
  | os.Directory _ entries =>
      match walkFn path (Some n) acc with
      | (Some err1, acc1) => (Some err1, acc1)
      | (None, acc1) =>
          (fix range (entries : list os.Node) (acc : A) : option WalkErr * A :=
             match entries with
             | [] => (None, acc)
             | child :: rest =>
                 match walk (Join path (os.Name (os.Info child))) child acc with
                 | (None, acc') => range rest acc'
                 | (Some SkipDir, acc') =>
                     if os.IsDir child then range rest acc'
                     else (Some SkipDir, acc')
                 | (Some err, acc') => (Some err, acc')
                 end
             end) entries acc1
      end
  end.

(** The loop of [walk] over the entries of the directory [path]. *)
Fixpoint walk_entries (path : string) (entries : list os.Node) (acc : A)
  : option WalkErr * A :=
  match entries with
  | [] => (None, acc)
  | child :: rest =>
      match walk (Join path (os.Name (os.Info child))) child acc with
      | (None, acc') => walk_entries path rest acc'
      | (Some SkipDir, acc') =>
          if os.IsDir child then walk_entries path rest acc'
          else (Some SkipDir, acc')
      | (Some err, acc') => (Some err, acc')
      end
  end.

(** [filepath.Walk(root, walkFn)]; [lstat] is [os.Lstat] on the root. *)
Definition Walk (lstat : string -> option os.Node) (root : string) (acc : A)
  : option error * A :=
  let '(err, acc') :=
    match lstat root with
    | None => walkFn root None acc
    | Some n => walk root n acc
    end in
  (match err with
   | Some (WalkFail e) => Some e
   | _ => None
   end, acc').

End Walk.

End filepath.

(** ** Package [executor]: reading and listing files *)

Module executor.

(** The struct [FileInfo] of the package. *)
Record FileInfo := mkFileInfo {
  Name : string;
  Path : string;
  Size : Z;
  IsDirectory : bool;
  IsDir : bool;
  ModifiedAt : Z;
  ModTime : Z;
  Mode : string
}.

(** The entry that [ListFilesWithPattern] appends for the node [n] at
    the path [p]. *)
Definition listed (p : string) (n : os.Node) : FileInfo :=
  mkFileInfo (os.Name (os.Info n)) p (os.Size (os.Info n))
    (os.IsDir n) (os.IsDir n)
    (os.ModTime (os.Info n)) (os.ModTime (os.Info n)) (os.Mode (os.Info n)).

(** The largest allocation the runtime accepts on a 64-bit Linux;
    [make([]byte, n)] panics for a negative or a larger [n]. *)
Definition maxAlloc : Z := 2 ^ 48.

Section OS.

(** [filepath.Abs]; [os.Open] followed by what the regular file at that
    path holds; [os.Lstat]; [filepath.Match] with its error ignored; the
    largest file offset of the file system. *)
Variable Abs : string -> Res string.
Variable Open : string -> Res (list byte).
Variable Lstat : string -> option os.Node.
Variable Match : string -> string -> bool.
Variable maxbytes : Z.

(** [ReadFileWithOffsets].  The two end-of-file errors of [io.ReadFull]
    are let through, and [content[:n]] is what was read. *)
Definition ReadFileWithOffsets (path : string) (offset limit : Z)
  : Outcome (Res (list byte * Z)) :=
  match Abs path with
  | Err err => Returns (Err (Wrapf "invalid path: " err))
  | Ok absPath =>
      match Open absPath with
      | Err err => Returns (Err (Wrapf "failed to open file: " err))
      | Ok file =>
          match os.Stat file with
          | Err err => Returns (Err (Wrapf "failed to stat file: " err))
          | Ok size =>
              match (if 0 <? offset
                     then os.Seek maxbytes absPath file offset
                     else Ok 0) with
              | Err err => Returns (Err (Wrapf "failed to seek: " err))
              | Ok position =>
                  let readSize := int64 (size - offset) in
                  let readSize :=
                    if (0 <? limit) && (limit <? readSize)
                    then limit else readSize in
                  if (readSize <? 0) || (maxAlloc <? readSize)
                  then Panics "runtime error: makeslice: len out of range"
                  else
                    match os.ReadFull file position (Z.to_nat readSize) with
                    | (content, None)
                    | (content, Some EOF)
                    | (content, Some ErrUnexpectedEOF) =>
                        Returns (Ok (content, size))
                    | (_, Some err) =>
                        Returns (Err (Wrapf "failed to read file: " err))
                    end
              end
          end
      end
  end.

Definition ReadFile (path : string) : Outcome (Res (list byte)) :=
  match ReadFileWithOffsets path 0 0 with
  | Returns (Ok (content, _)) => Returns (Ok content)
  | Returns (Err err) => Returns (Err err)
  | Panics reason => Panics reason
  end.

(** The walk function of [ListFilesWithPattern]. *)
Definition walkFn (absPath : string) (recursive : bool) (pattern : string)
    (p : string) (entry : option os.Node) (files : list FileInfo)
  : option filepath.WalkErr * list FileInfo :=
  match entry with
  | None => (None, files)
  | Some n =>
      let info := os.Info n in
      if String.prefix "." (os.Name info) && negb (String.eqb p absPath) then
        if os.IsDir n then (Some filepath.SkipDir, files) else (None, files)
      else if negb (String.eqb pattern "") && negb (Match pattern (os.Name info))
      then (None, files)
      else
        let files := files ++ [listed p n] in
        if negb recursive && os.IsDir n && negb (String.eqb p absPath)
        then (Some filepath.SkipDir, files)
        else (None, files)
  end.

Definition ListFilesWithPattern (path : string) (recursive : bool)
    (pattern : string) : Res (list FileInfo) :=
  match Abs path with
  | Err err => Err (Wrapf "invalid path: " err)
  | Ok absPath =>
      match filepath.Walk (walkFn absPath recursive pattern) Lstat absPath [] with
      | (Some err, _) => Err (Wrapf "failed to list files: " err)
      | (None, files) => Ok files
      end
  end.

Definition ListFiles (path : string) (recursive : bool) : Res (list FileInfo) :=
  ListFilesWithPattern path recursive "".

End OS.

(** Every directory of the tree has a name that the pattern does not
    match. *)
Fixpoint directories_unmatched (Match : string -> string -> bool)
    (pattern : string) (n : os.Node) : bool :=
  match n with
  | os.File _ => true
  | os.Directory info entries =>
      negb (Match pattern (os.Name info))
      && forallb (directories_unmatched Match pattern) entries
  end.

(** What the listing accepts: the root, or an entry whose name does not
    begin with a dot. *)
Definition shown (absPath : string) (f : FileInfo) : Prop :=
  Path f = absPath \/ String.prefix "." (Name f) = false.

End executor.

(** ** Package [emitters]: the file watcher *)

Module file_watcher.

Record FileWatch := mkFileWatch {
  Path : string;
  Recursive : bool;
  Pattern : string;
  EventMask : Z
}.

Definition EventCreate : Z := Z.shiftl 1 0.
Definition EventModify : Z := Z.shiftl 1 1.
Definition EventDelete : Z := Z.shiftl 1 2.
Definition EventAll : Z := Z.lor (Z.lor EventCreate EventModify) EventDelete.

(** [FileWatcher] without its pointer to the manager; [fileStates] maps
    a path to the time of its last modification. *)
Record FileWatcher := mkFileWatcher {
  daemonName : string;
  watches : gmap string FileWatch;
  fileStates : gmap string Z;
  interval : Z;
  running : bool
}.

Definition set_watches (w : gmap string FileWatch) (f : FileWatcher)
  : FileWatcher :=
  mkFileWatcher (daemonName f) w (fileStates f) (interval f) (running f).

Definition set_fileStates (s : gmap string Z) (f : FileWatcher)
  : FileWatcher :=
  mkFileWatcher (daemonName f) (watches f) s (interval f) (running f).

Definition set_running (b : bool) (f : FileWatcher) : FileWatcher :=
  mkFileWatcher (daemonName f) (watches f) (fileStates f) (interval f) b.

Definition NewFileWatcher (daemonName : string) : FileWatcher :=
  mkFileWatcher daemonName ∅ ∅ (5 * Second) false.

Definition Name (f : FileWatcher) : string := "file_watcher".

Section OS.

(** [filepath.Abs] and [filepath.Match] (its error ignored, as the
    callers do). *)
Variable Abs : string -> Res string.
Variable Match : string -> string -> bool.

Definition Watch (path : string) (recursive : bool) (pattern : string)
    (f : FileWatcher) : Res unit * FileWatcher :=
  match Abs path with
  | Err err => (Err err, f)
  | Ok absPath =>
      (Ok tt,
       set_watches
         (<[absPath := mkFileWatch absPath recursive pattern EventAll]>
            (watches f)) f)
  end.

Definition Unwatch (path : string) (f : FileWatcher) : FileWatcher :=
  let absPath := match Abs path with Ok absPath => absPath | Err _ => "" end in
  set_watches (delete absPath (watches f)) f.

(** The pattern of a watch lets the name through. *)
Definition matches (watch : FileWatch) (name : string) : bool :=
  String.eqb (Pattern watch) "" || Match (Pattern watch) name.

(** The walk function of [scanPath]. *)
Definition visit (watch : FileWatch) (path : string) (entry : option os.Node)
    (states : gmap string Z) : option filepath.WalkErr * gmap string Z :=
  match entry with
  | None => (None, states)
  | Some n =>
      if matches watch (os.Name (os.Info n))
      then (None, <[path := os.ModTime (os.Info n)]> states)
      else (None, states)
  end.

(** [scanPath]; [Stat] is [os.Stat] at the moment of the scan (the tree
    holds no symbolic links, so that it is [os.Lstat] as well). *)
Definition scanPath (Stat : string -> option os.Node) (watch : FileWatch)
    (states : gmap string Z) : gmap string Z :=
  if Recursive watch then
    (filepath.Walk (visit watch) Stat (Path watch) states).2
  else
    match Stat (Path watch) with
    | None => states
    | Some n =>
        if os.IsDir n then
          foldl (fun (states : gmap string Z) entry =>
                   if matches watch (os.Name (os.Info entry))
                   then <[filepath.Join (Path watch) (os.Name (os.Info entry))
                            := os.ModTime (os.Info entry)]> states
                   else states)
                states (os.Entries n)
        else if matches watch (os.Name (os.Info n))
        then <[Path watch := os.ModTime (os.Info n)]> states
        else states
    end.

(** [scan]: the calls [f.emitEvent(eventType, path, nil)] that it makes,
    as pairs of an event type and a path, and the watcher it leaves.
    Go ranges over the maps in no fixed order; here it is the order of
    [map_to_list]. *)
Definition scan (Stat : string -> option os.Node) (f : FileWatcher)
  : list (string * string) * FileWatcher :=
  let watches := (map_to_list (watches f)).*2 in
  let newStates :=
    foldl (fun states watch => scanPath Stat watch states) ∅ watches in
  let changed :=
    omap (fun '(path, modTime) =>
            match fileStates f !! path with
            | None => Some ("file_created", path)
            | Some oldTime =>
                if oldTime <? modTime then Some ("file_modified", path)
                else None
            end) (map_to_list newStates) in
  let deleted :=
    omap (fun '(path, _) =>
            match newStates !! path with
            | None => Some ("file_deleted", path)
            | Some _ => None
            end) (map_to_list (fileStates f)) in
  (changed ++ deleted, set_fileStates newStates f).

(** [emitEvent]: the event handed to the manager; [now] is [time.Now()]
    and [RFC3339] the formatting of an instant. *)
Definition emitEvent (RFC3339 : Z -> string) (now : Z) (f : FileWatcher)
    (eventType path : string) (info : option os.Node) : emitters.Event :=
  let payload : Msg := <["path" := VString path]> ∅ in
  let payload :=
    match info with
    | None => payload
    | Some n =>
        <["mod_time" := VString (RFC3339 (os.ModTime (os.Info n)))]>
        (<["is_dir" := VBool (os.IsDir n)]>
         (<["size" := VInt (os.Size (os.Info n))]> payload))
    end in
  emitters.mkEvent ("daemon:" ++ daemonName f) eventType payload now.

(** [Start]: the scan for the baseline and one scan per tick until the
    context is done, each on the file system as it is then; the calls of
    [emitEvent] in order. *)
Fixpoint scans (snapshots : list (string -> option os.Node)) (f : FileWatcher)
  : list (string * string) * FileWatcher :=
  match snapshots with
  | [] => ([], f)
  | Stat :: rest =>
      let '(calls, f1) := scan Stat f in
      let '(calls', f2) := scans rest f1 in
      (calls ++ calls', f2)
  end.

Definition Start (baseline : string -> option os.Node)
    (ticks : list (string -> option os.Node)) (f : FileWatcher)
  : list (string * string) * FileWatcher :=
  scans (baseline :: ticks) (set_running true f).

Definition Stop (f : FileWatcher) : Res unit * FileWatcher :=
  (Ok tt, set_running false f).

End OS.

End file_watcher.

(** ** Package [emitters]: the manager, and the callback of [main] *)

Module manager.

Section Callbacks.

(** The callbacks act on a state of type [S]. *)
Context {S : Type}.

Definition EventCallback : Type := emitters.Event -> S -> S.

(** The callbacks of the [Manager]; the emitters it starts, a goroutine
    each, are left out. *)
Record Manager := mkManager { callbacks : list EventCallback }.

Definition NewManager : Manager := mkManager [].

Definition OnEvent (callback : EventCallback) (m : Manager) : Manager :=
  mkManager (callbacks m ++ [callback]).

(** [Emit] starts a goroutine per callback; here they run one after the
    other, in the order of registration. *)
Definition Emit (m : Manager) (event : emitters.Event) (s : S) : S :=
  foldl (fun s cb => cb event s) s (callbacks m).

End Callbacks.

Arguments Manager S : clear implicits.

(** The callback that [main] registers: the event goes to the controller
    through [SendEvent]; a failure is logged.  [now] is the clock when
    the callback runs. *)
Definition route (Marshal : Msg -> Res (list byte)) (now : string)
  : @EventCallback primeclient.Client :=
  fun event c =>
    (primeclient.SendEvent Marshal now (emitters.Source event)
       (emitters.Type_ event) (emitters.Payload event) c).2.

End manager.

(** ** Package [handlers]: [handleWriteFile] (builtin.go) *)

Module builtin.

(** [os.O_APPEND|os.O_CREATE|os.O_WRONLY] on Linux. *)
Definition O_WRONLY : Z := 1.
Definition O_CREATE : Z := 64.
Definition O_APPEND : Z := 1024.

Section OS.

(** The file system is a state of type [FS] on which the calls of the
    handler act: [os.OpenFile], [f.WriteString], [f.Close] and
    [ioutil.WriteFile]; [File] is the type of an open file. *)
Variable FS : Type.
Variable File : Type.
Variable OpenFile : string -> Z -> Z -> FS -> Res File * FS.
Variable WriteString : File -> string -> FS -> option error * FS.
Variable Close : File -> FS -> FS.
Variable WriteFile : string -> string -> Z -> FS -> option error * FS.

(** [handleWriteFile].  In the branch of the append mode the statement
    [f, err := os.OpenFile(...)] declares an [err] of its own: the [err]
    that the function tests afterwards is still nil. *)
Definition handleWriteFile (params : Msg) (fs : FS)
  : Outcome (option Msg) * FS :=
  let path := asString (params !! "path") in
  let content := asString (params !! "content") in
  let appendMode := asBool (params !! "append") in
  let mode := asFloat64 (params !! "mode") in
  if String.eqb path "" then
    (Returns (Some (handlers.failure "no path provided")), fs)
  else
    let fileMode :=
      if PrimFloat.ltb 0 mode then uint32 (int_of_float64 mode)
      else 420 (* 0644 *) in
    let '(err, fs) :=
      if appendMode then
        match OpenFile path (Z.lor (Z.lor O_APPEND O_CREATE) O_WRONLY)
                fileMode fs with
        | (Ok f, fs) =>
            let '(_, fs) := WriteString f content fs in
            (None, Close f fs)
        | (Err _, fs) => (None, fs)
        end
      else WriteFile path content fileMode fs in
    match err with
    | Some err =>
        (Returns (Some (handlers.failure (Error err))), fs)
    | None =>
        (Returns (Some (<["success" := VBool true]>
                       (<["path" := VString path]>
                        (<["size" := VInt (Z.of_nat (String.length content))]>
                         ∅)))), fs)
    end.

End OS.

End builtin.

(** ** A codec for a fragment of JSON

    [encoding/json] is a parameter of the client.  To run the client on
    concrete frames the parameter is instantiated with this codec for
    the objects whose members are strings of printable ASCII (nothing to
    escape), booleans, null, integral numbers and, on the encoding side,
    arrays of these.  As [json.Marshal] does, it writes the keys in
    sorted order and no white space; as [json.Unmarshal] does, it reads
    every number as a [float64] and allows white space around the
    object. *)

Module json.

Definition plain (b : byte) : bool :=
  let n := Byte.to_N b in
  ((32 <=? n) && (n <? 127) && negb (n =? 34) && negb (n =? 92))%N.

Definition enc_string (s : string) : Res (list byte) :=
  let bs := String.list_byte_of_string s in
  if forallb plain bs then Ok (x22 :: bs ++ [x22]) else Err ErrJSON.

Definition enc_int (n : Z) : list byte :=
  String.list_byte_of_string (NilZero.string_of_int (Z.to_int n)).

Fixpoint enc_value (v : Value) : Res (list byte) :=
  match v with
  | VNil => Ok [x6e; x75; x6c; x6c]
  | VBool true => Ok [x74; x72; x75; x65]
  | VBool false => Ok [x66; x61; x6c; x73; x65]
  | VString s => enc_string s
  | VInt n => Ok (enc_int n)
  | VFloat64 f =>
      match Prim2SF f with
      | SpecFloat.S754_zero true => Err ErrJSON
      | _ =>
          let n := int_of_float64 f in
          if PrimFloat.eqb (float64_of_Z n) f then Ok (enc_int n)
          else Err ErrJSON
      end
  | VSlice l =>
      let enc_elems :=
        fix enc_elems (l : list Value) : Res (list byte) :=
          match l with
          | [] => Ok []
          | x :: t =>
              match enc_value x, enc_elems t with
              | Ok a, Ok c => Ok (a ++ match t with [] => [] | _ => x2c :: c end)
              | _, _ => Err ErrJSON
              end
          end in
      match enc_elems l with
      | Ok bs => Ok (x5b :: bs ++ [x5d])
      | Err e => Err e
      end
  | VMap _ => Err ErrJSON
  end.

Fixpoint insert_sorted (kv : string * Value) (l : list (string * Value))
  : list (string * Value) :=
  match l with
  | [] => [kv]
  | h :: t =>
      if String.leb kv.1 h.1 then kv :: l else h :: insert_sorted kv t
  end.

Definition sorted_members (m : Msg) : list (string * Value) :=
  foldr insert_sorted [] (map_to_list m).

Fixpoint enc_members (l : list (string * Value)) : Res (list byte) :=
  match l with
  | [] => Ok []
  | (k, v) :: t =>
      match enc_string k, enc_value v, enc_members t with
      | Ok a, Ok b, Ok c =>
          Ok (a ++ x3a :: b ++ match t with [] => [] | _ => x2c :: c end)
      | _, _, _ => Err ErrJSON
      end
  end.

Definition Marshal (m : Msg) : Res (list byte) :=
  match enc_members (sorted_members m) with
  | Ok bs => Ok (x7b :: bs ++ [x7d])
  | Err e => Err e
  end.

Definition is_ws (b : byte) : bool :=
  match b with
  | x20 | x09 | x0a | x0d => true
  | _ => false
  end.

Fixpoint skip_ws (bs : list byte) : list byte :=
  match bs with
  | b :: r => if is_ws b then skip_ws r else bs
  | [] => []
  end.

(** The rest of a string after its opening quote. *)
Fixpoint dec_string (bs : list byte) : option (list byte * list byte) :=
  match bs with
  | [] => None
  | b :: r =>
      if Byte.eqb b x22 then Some ([], r)
      else if plain b then
        match dec_string r with
        | Some (str, r') => Some (b :: str, r')
        | None => None
        end
      else None
  end.

Definition digit (b : byte) : option Z :=
  let n := Z_of_byte b in
  if (48 <=? n) && (n <=? 57) then Some (n - 48) else None.

Fixpoint dec_digits (acc : Z) (bs : list byte) : Z * list byte :=
  match bs with
  | b :: r =>
      match digit b with
      | Some d => dec_digits (10 * acc + d) r
      | None => (acc, bs)
      end
  | [] => (acc, [])
  end.

Definition dec_number (neg : bool) (bs : list byte)
  : option (Value * list byte) :=
  match bs with
  | b :: _ =>
      match digit b with
      | Some _ =>
          let '(n, r) := dec_digits 0 bs in
          Some (VFloat64 (float64_of_Z (if neg then - n else n)), r)
      | None => None
      end
  | [] => None
  end.

Definition dec_value (bs : list byte) : option (Value * list byte) :=
  match bs with
  | x22 :: r =>
      match dec_string r with
      | Some (str, r') => Some (VString (String.string_of_list_byte str), r')
      | None => None
      end
  | x74 :: x72 :: x75 :: x65 :: r => Some (VBool true, r)
  | x66 :: x61 :: x6c :: x73 :: x65 :: r => Some (VBool false, r)
  | x6e :: x75 :: x6c :: x6c :: r => Some (VNil, r)
  | x2d :: r => dec_number true r
  | _ => dec_number false bs
  end.

(** The members of an object after its opening brace; every member
    takes at least one byte, so [length bs] rounds are enough. *)
Fixpoint dec_members (rounds : nat) (bs : list byte) (m : Msg)
  : option (Msg * list byte) :=
  match rounds with
  | O => None
  | S rounds' =>
      match bs with
      | x22 :: r =>
          match dec_string r with
          | Some (k, x3a :: r1) =>
              match dec_value r1 with
              | Some (v, r2) =>
                  let m' := <[String.string_of_list_byte k := v]> m in
                  match r2 with
                  | x2c :: r3 => dec_members rounds' r3 m'
                  | x7d :: r3 => Some (m', r3)
                  | _ => None
                  end
              | None => None
              end
          | _ => None
          end
      | _ => None
      end
  end.

Definition Unmarshal (bs : list byte) : Res Msg :=
  match skip_ws bs with
  | x7b :: x7d :: r => if forallb is_ws r then Ok ∅ else Err ErrJSON
  | x7b :: r =>
      match dec_members (length r) r ∅ with
      | Some (m, rest) => if forallb is_ws rest then Ok m else Err ErrJSON
      | None => Err ErrJSON
      end
  | _ => Err ErrJSON
  end.

End json.

(** ** Vocabulary of the statements *)

(** The bytes of a script that a reader can obtain before it meets a
    deadline or the end of the connection. *)
Fixpoint avail (src : list NetEvent) : list byte :=
  match src with
  | Data bs :: rest => bs ++ avail rest
  | _ => []
  end.

(** A frame as the spec describes it: the length of the payload in four
    bytes, most significant first, then the payload. *)
Definition frame (data : list byte) : list byte :=
  PutUint32 (uint32 (Z.of_nat (length data))) ++ data.

(** What [readMessage] returns for a frame whose payload is [data]. *)
Definition decoded (Unmarshal : list byte -> Res Msg) (data : list byte)
  : Res Msg :=
  match Unmarshal data with
  | Ok msg => Ok msg
  | Err err => Err (Wrapf "unmarshal: " err)
  end.

(** [n] calls of [readMessage] one after the other, as [messageLoop]
    makes them: what each returned, and the client in the end. *)
Fixpoint readMessages (Unmarshal : list byte -> Res Msg) (n : nat)
    (c : primeclient.Client) : list (Res Msg) * primeclient.Client :=
  match n with
  | O => ([], c)
  | S n' =>
      let '(r, c1) := primeclient.readMessage Unmarshal c in
      let '(rs, c2) := readMessages Unmarshal n' c1 in
      (r :: rs, c2)
  end.

(** A way of cutting the frames of the payloads [datas] into segments
    none of which is empty or runs over the end of a frame. *)
Definition cut_at_frames (cuts : list (list (list byte)))
    (datas : list (list byte)) : Prop :=
  Forall2 (fun segs data =>
             concat segs = frame data
             /\ Forall (fun seg => seg <> []) segs
             /\ Z.of_nat (length data) < 2 ^ 32) cuts datas.

(** The cap on the size of a message that the spec suggests (64 MiB);
    the sources name no such constant. *)
Definition suggestedCap : Z := 64 * 1024 * 1024.

(** The waits the spec lists for consecutive failures, 1, 2, 4, 8, 16,
    32, 60, 60, ... seconds: the first [n] of them. *)
Definition backoff_from (k n : nat) : list Z :=
  (fun j : nat => Z.min (2 ^ Z.of_nat j) 60 * Second) <$> seq k n.

Definition backoff (n : nat) : list Z := backoff_from 0 n.

(** What the spec lists as the fields of a heartbeat. *)
Definition heartbeat_fields (id : string) (m : Msg) : Prop :=
  m !! "type" = Some (VString "heartbeat")
  /\ m !! "daemon_id" = Some (VString id)
  /\ (exists f, m !! "cpu_percent" = Some (VFloat64 f))
  /\ (exists f, m !! "memory_percent" = Some (VFloat64 f))
  /\ (exists f, m !! "disk_percent" = Some (VFloat64 f))
  /\ (exists n, m !! "active_tasks" = Some (VInt n)).

(** The bytes a send of [m] puts on the wire: its frame, or nothing when
    it cannot be marshalled. *)
Definition wire (Marshal : Msg -> Res (list byte)) (m : Msg) : list byte :=
  match Marshal m with
  | Ok data => frame data
  | Err _ => []
  end.

(** Events in the order of emission are [separated] by [gap] when any
    two of the same type lie more than [gap] apart. *)
Fixpoint separated (gap : Z) (evs : list emitters.Event) : Prop :=
  match evs with
  | [] => True
  | e :: rest =>
      Forall (fun e' => emitters.Type_ e' = emitters.Type_ e ->
                        gap < emitters.Timestamp e' - emitters.Timestamp e) rest
      /\ separated gap rest
  end.

(** What a run of ticks that takes the monitor from [r] to [r'] keeps
    true of its events [evs]: the cooldown is what it was, the instants
    of the last alerts only move forward, every event is a memory or a
    disk alert later than the alert of its kind that preceded the run by
    more than the cooldown and no later than the last alert of its kind,
    and the events are separated by the cooldown. *)
Definition run_inv (r : emitters.ResourceMonitor) (evs : list emitters.Event)
    (r' : emitters.ResourceMonitor) : Prop :=
  emitters.alertCooldown r' = emitters.alertCooldown r
  /\ emitters.lastMemAlert r <= emitters.lastMemAlert r'
  /\ emitters.lastDiskAlert r <= emitters.lastDiskAlert r'
  /\ Forall (fun e =>
       (emitters.Type_ e = "memory_high"
        /\ emitters.alertCooldown r + emitters.lastMemAlert r
           < emitters.Timestamp e <= emitters.lastMemAlert r')
       \/ (emitters.Type_ e = "disk_high"
           /\ emitters.alertCooldown r + emitters.lastDiskAlert r
              < emitters.Timestamp e <= emitters.lastDiskAlert r')) evs
  /\ separated (emitters.alertCooldown r) evs.

(** The client once [r] has been sent on its connection [cn]: the bytes
    written grow by the wire form of [r] if the peer is still there, and
    nothing else changes. *)
Definition after_send (Marshal : Msg -> Res (list byte)) (r : Msg)
    (cn : Conn) (c : primeclient.Client) : primeclient.Client :=
  primeclient.set_conn
    (Some (mkConn (incoming cn)
             (outgoing cn ++ if writable cn then wire Marshal r else [])
             (writable cn))) c.

(** Whether the dial of an attempt succeeded. *)
Definition dialled (a : primeclient.Attempt) : bool :=
  match primeclient.dial a with Some _ => true | None => false end.

(** Waits that back off by the dials, one for each attempt: 1, 2, 4, 8,
    16, 32, 60, 60, ... seconds from one attempt to the next, the
    sequence starting again at one second with every attempt whose dial
    succeeded.  [k] is the place in the sequence that the first attempt
    has unless its dial succeeds. *)
Fixpoint waits_by_dials (k : nat) (dials : list bool) : list Z :=
  match dials with
  | [] => []
  | d :: rest =>
      let k := if d then 0%nat else k in
      Z.min (2 ^ Z.of_nat k) 60 * Second :: waits_by_dials (S k) rest
  end.

(** The bytes that have been written on the connection of [c]. *)
Definition written (c : primeclient.Client) : list byte :=
  match primeclient.conn c with Some cn => outgoing cn | None => [] end.

(** The client [c] with what has been written on its connection left
    out. *)
Definition unwritten (c : primeclient.Client) : primeclient.Client :=
  primeclient.set_conn
    ((fun cn => mkConn (incoming cn) [] (writable cn)) <$> primeclient.conn c) c.



(** The byte [ch] occurs in [s]. *)
Definition has_byte (ch : Ascii.ascii) (s : string) : Prop :=
  In ch (String.list_ascii_of_string s).

(** The message that [sendRegistration] sends for the client [c]. *)
Definition registration (c : primeclient.Client) : Msg :=
  <["type" := VString primeclient.TypeRegistration]>
  (<["registration_key" := VString (primeclient.registrationKey c)]>
  (<["name" := VString (primeclient.name c)]>
  (<["hostname" := VString (primeclient.hostname c)]>
  (<["capabilities" := VSlice (VString <$> primeclient.capabilities c)]>
  (<["is_soul_daemon" := VBool (primeclient.isSoulDaemon c)]>
  (<["ultron_root" := VString (primeclient.ultronRoot c)]> ∅)))))).

(** The acknowledgements that [sendRegistration] accepts. *)
Definition accepted (ack : Msg) : Prop :=
  ack !! "type" = Some (VString "registration_ack")
  /\ ack !! "success" = Some (VBool true).

(** The message that [SendEvent] sends for an event, at [now]. *)
Definition event_message (id now : string) (event : emitters.Event) : Msg :=
  <["type" := VString "event"]>
  (<["daemon_id" := VString id]>
  (<["source" := VString (emitters.Source event)]>
  (<["event_type" := VString (emitters.Type_ event)]>
  (<["payload" := VMap (emitters.Payload event)]>
  (<["timestamp" := VString now]> ∅))))).

(** The command types that [RegisterBuiltins] registers. *)
Definition builtin_types : list string :=
  ["ping"; "shell"; "read_file"; "write_file"; "delete_file"; "list_files";
   "system_info"; "list_processes"; "kill_process"; "docker"; "git";
   "manage_service"; "exec"; "computer"; "browser_launch"; "browser_goto";
   "browser_click"; "browser_type"; "browser_get_text"; "browser_get_content";
   "browser_screenshot"; "browser_evaluate"; "browser_wait"; "browser_scroll";
   "browser_get_elements"; "browser_close"].

(** What [handleReadFile] returns for the content [s]. *)
Definition read_result (s : string) : Msg :=
  <["success" := VBool true]>
  (<["content" := VString s]>
   (<["size" := VInt (Z.of_nat (String.length s))]>
    (<["total_lines" := VInt (Z.of_nat (length (Split s)))]> ∅))).

(** ** A machine, a registry and a few messages to run the model on *)

Module scenario.

Import handlers primeclient.

Definition world : World :=
  mkWorld (<["/etc/hostname" := String.append "macbook" newline]> ∅)
          "2024-01-01T00:00:00Z".

(** Stands for the handlers that need a shell, docker or a browser. *)
Definition not_modelled : Handler :=
  fun _ => Returns (Some (failure "not modelled")).

Definition external : External :=
  mkExternal
    not_modelled
    not_modelled
    not_modelled
    not_modelled
    not_modelled
    not_modelled
    not_modelled
    not_modelled
    not_modelled
    not_modelled
    not_modelled
    not_modelled
    not_modelled
    not_modelled
    not_modelled
    not_modelled
    not_modelled
    not_modelled
    not_modelled
    not_modelled
    not_modelled
    not_modelled
    not_modelled.

Definition registry : Registry := RegisterBuiltins world external NewRegistry.

Definition config : Config :=
  mkConfig "localhost:50051" "secret" "macbook" "" ["shell"; "files"] false "".

Definition fresh : Client := NewClient "macbook.local" config.

(** The client in the middle of a session, registered as [d-1], with
    [script] still to come from the controller. *)
Definition serving (script : list NetEvent) : Client :=
  set_daemonID "d-1" (set_conn (Some (mkConn script [] true)) fresh).

Definition payload (m : Msg) : list byte :=
  match json.Marshal m with
  | Ok data => data
  | Err _ => []
  end.

Definition ping (id : string) : Msg :=
  <["type" := VString "ping"]> (<["command_id" := VString id]> ∅).

(** A ping whose [command_id] is the number 7, as the controller would
    write it and as [json.Unmarshal] hands it to the dispatcher. *)
Definition ping_seven_text : list byte :=
  payload (<["type" := VString "ping"]> (<["command_id" := VInt 7]> ∅)).

Definition ping_seven : Msg :=
  <["type" := VString "ping"]> (<["command_id" := VFloat64 7%float]> ∅).

Definition teleport : Msg :=
  <["type" := VString "teleport"]> (<["command_id" := VString "c-3"]> ∅).

Definition ack : Msg :=
  <["type" := VString "registration_ack"]>
  (<["success" := VBool true]> (<["daemon_id" := VString "d-1"]> ∅)).

(** A [read_file] request with a negative offset and a positive limit. *)
Definition read_back : Msg :=
  <["type" := VString "read_file"]>
  (<["command_id" := VString "c-9"]>
  (<["path" := VString "/etc/hostname"]>
  (<["offset" := VFloat64 (-1)%float]>
  (<["limit" := VFloat64 1%float]> ∅)))).

(** The empty object followed by [n] spaces; with as many spaces as
    make it one byte longer than the suggested cap. *)
Definition spaced (n : nat) : list byte := x7b :: x7d :: replicate n x20.

Definition oversize : list byte := spaced (Z.to_nat (suggestedCap - 1)).

(** What [handlePing] returns in [world]. *)
Definition pong : Msg :=
  <["success" := VBool true]>
  (<["output" := VString "pong"]>
  (<["time" := VString "2024-01-01T00:00:00Z"]> ∅)).

(** A dial that succeeds, after which the controller sends [msgs], each
    frame in a segment of its own, and closes the connection. *)
Definition session (msgs : list Msg) : Attempt :=
  mkAttempt
    (Some (mkConn ((fun m => Data (frame (payload m))) <$> msgs) [] true))
    16 (fun _ => 0) (fun _ => mkMemStats 1 2).

(** A dial that fails. *)
Definition refused : Attempt :=
  mkAttempt None 0 (fun _ => 0) (fun _ => mkMemStats 1 2).

(** A dial that succeeds; the controller acknowledges the registration,
    stays silent for two minutes, sends a ping ten seconds later and
    hangs up after ten more.  A quarter of the memory is in use. *)
Definition quiet : Attempt :=
  mkAttempt
    (Some (mkConn [Data (frame (payload ack)); Deadline; Deadline;
                   Data (frame (payload (ping "c-1")))] [] true))
    16 (fun _ => 10 * Second) (fun _ => mkMemStats 1 4).

(** The client of [quiet] when its registration has been acknowledged. *)
Definition quiet_registered : Client :=
  set_daemonID "d-1"
    (set_conn
       (Some (mkConn [Deadline; Deadline; Data (frame (payload (ping "c-1")))]
                (frame (payload (registration fresh))) true))
       fresh).

(** The heartbeat of [d-1] when [mem] percent of the memory are in use. *)
Definition heartbeat (mem : float) : Msg :=
  <["type" := VString "heartbeat"]>
  (<["daemon_id" := VString "d-1"]>
  (<["cpu_percent" := VFloat64 0%float]>
  (<["memory_percent" := VFloat64 mem]>
  (<["disk_percent" := VFloat64 0%float]>
  (<["active_tasks" := VInt 0]> ∅))))).

(** The controller's answer to a wrong registration key. *)
Definition nack : Msg :=
  <["type" := VString "registration_ack"]>
  (<["success" := VBool false]>
  (<["message" := VString "invalid registration key"]> ∅)).

(** A machine whose processors are 95 percent busy while a tenth of the
    memory and half of the disk are in use, observed at [t]. *)
Definition busy_machine (t : Z) : emitters.Probe :=
  emitters.mkProbe t 95%float (mkMemStats 10 100)
    (Some (mkStatfs 1000 500 4096)).

(** A machine nine tenths of whose memory are in use, observed at [t]. *)
Definition full_memory (t : Z) : emitters.Probe :=
  emitters.mkProbe t 5%float (mkMemStats 90 100)
    (Some (mkStatfs 1000 500 4096)).

(** A machine whose disk is 95 percent full, observed at [t]. *)
Definition full_disk (t : Z) : emitters.Probe :=
  emitters.mkProbe t 5%float (mkMemStats 10 100)
    (Some (mkStatfs 1000 50 4096)).

(** An instant of the year 2024, in nanoseconds since the zero time. *)
Definition noon : Z := 63840000000 * Second.

(** Ticks thirty seconds apart from [noon] on, the memory full all the
    while, and the memory alert that the monitor of [macbook] emits on
    such a machine at [t]. *)
Definition full_for (n : nat) : list emitters.Probe :=
  (fun k : nat => full_memory (noon + Z.of_nat k * (30 * Second))) <$> seq 0 n.

Definition memory_alert (t : Z) : emitters.Event :=
  emitters.mkEvent "daemon:macbook" "memory_high"
    (<["percent" := VFloat64 (emitters.percent 90 100)]>
     (<["threshold" := VFloat64 85%float]>
      (<["alloc" := VInt 90]> (<["sys" := VInt 100]> ∅))))
    t.

(** Two pings that reach the agent in one segment. *)
Definition two_pings : Conn :=
  mkConn [Data (frame (payload (ping "c-1")) ++ frame (payload (ping "c-2")))]
         [] true.

(** The same two pings, the first cut in two after three bytes, the
    second in a segment of its own. *)
Definition two_pings_apart : list (list (list byte)) :=
  [ [take 3 (frame (payload (ping "c-1")));
     drop 3 (frame (payload (ping "c-1")))];
    [frame (payload (ping "c-2"))] ].

(** A connection on which the oversize frame arrives. *)
Definition oversize_conn : Conn := mkConn [Data (frame oversize)] [] true.

End scenario.

(** ** An environment and a file tree to run the model on *)

Module site.

Definition environ : gmap string string :=
  <["DAEMON_CAPABILITIES" := "shell,,git"]> (<["DAEMON_IS_SOUL" := "Yes"]> ∅).

(** The paths used below are absolute. *)
Definition Abs (path : string) : Res string := Ok path.

(** A [filepath.Match] for the patterns that are a star and a suffix,
    and for those without a star. *)
Definition star : Ascii.ascii := Ascii.ascii_of_nat 42.

Definition Match (pattern name : string) : bool :=
  match pattern with
  | String ch suffix =>
      if Ascii.eqb ch star then
        (String.length suffix <=? String.length name)%nat
        && String.eqb
             (String.substring (String.length name - String.length suffix)
                (String.length suffix) name)
             suffix
      else String.eqb pattern name
  | EmptyString => String.eqb pattern name
  end.

Definition entry (name : string) (size : Z) : os.FileInfo :=
  os.mkFileInfo name size "-rw-r--r--" (1700000000 * Second).

Definition readme : os.Node := os.File (entry "README" 11).

(** [/srv]: a hidden directory, two files and a directory of notes. *)
Definition srv : os.Node :=
  os.Directory (entry "srv" 4096)
    [ os.Directory (entry ".git" 4096) [os.File (entry "config" 92)];
      readme;
      os.Directory (entry "docs" 4096) [os.File (entry "notes.go" 10)];
      os.File (entry "main.go" 120) ].

Definition Lstat (path : string) : option os.Node :=
  if String.eqb path "/srv" then Some srv
  else if String.eqb path "/srv/README" then Some readme
  else None.

Definition hello : list byte := String.list_byte_of_string "hello world".

Definition Open (path : string) : Res (list byte) :=
  if String.eqb path "/srv/README" then Ok hello
  else Err (Errorf "no such file or directory").

(** The largest file offset of the file system of [/srv], an ext4 with
    blocks of 4 KiB. *)
Definition maxbytes : Z := 2 ^ 44 - 4096.

(** A file of three lines in the world of the handlers. *)
Definition world : handlers.World :=
  handlers.mkWorld
    (<["/etc/motd" :=
         String.append "one" (String.append newline
           (String.append "two" (String.append newline "three")))]> ∅)
    "2024-01-01T00:00:00Z".

(** The second line of that file. *)
Definition second_line : Msg :=
  <["type" := VString "read_file"]>
  (<["path" := VString "/etc/motd"]>
  (<["offset" := VFloat64 1%float]>
  (<["limit" := VFloat64 1%float]> ∅))).

(** A file system on which nothing can be opened or written. *)
Definition sealed_OpenFile (path : string) (flag perm : Z) (fs : unit)
  : Res unit * unit := (Err (Errorf "permission denied"), fs).
Definition sealed_WriteString (f : unit) (s : string) (fs : unit)
  : option error * unit := (Some (Errorf "permission denied"), fs).
Definition sealed_Close (f : unit) (fs : unit) : unit := fs.
Definition sealed_WriteFile (path content : string) (perm : Z) (fs : unit)
  : option error * unit := (Some (Errorf "permission denied"), fs).

Definition append_line : Msg :=
  <["type" := VString "write_file"]>
  (<["path" := VString "/etc/motd"]>
  (<["content" := VString "four"]>
  (<["append" := VBool true]> ∅))).

(** A watcher that has recorded the file [/srv/README] under its only
    watch. *)
Definition watching : file_watcher.FileWatcher :=
  file_watcher.mkFileWatcher "macbook"
    (<["/srv/README" :=
         file_watcher.mkFileWatch "/srv/README" false "" file_watcher.EventAll]> ∅)
    (<["/srv/README" := 1700000000 * Second]> ∅)
    (5 * Second) true.

(** The first three bytes of a ping, a deadline, and the rest. *)
Definition ping_cut : list NetEvent :=
  [Data (take 3 (frame (scenario.payload (scenario.ping "c-1"))));
   Deadline;
   Data (drop 3 (frame (scenario.payload (scenario.ping "c-1"))))].

(** A new client whose dial has just succeeded; the controller will
    acknowledge the registration. *)
Definition registering : primeclient.Client :=
  primeclient.set_conn
    (Some (mkConn [Data (frame (scenario.payload scenario.ack))] [] true))
    scenario.fresh.

(** A frame that is not JSON. *)
Definition garbage : list byte := String.list_byte_of_string "not json".

Definition memory_event : emitters.Event :=
  emitters.mkEvent "daemon:macbook" "memory_high"
    (<["alloc" := VInt 90]> ∅) (1700000000 * Second).

End site.

(** * Properties *)

(** ** Bytes and the length prefix *)

Lemma Z_of_byte_range (b : byte) : 0 <= Z_of_byte b < 256.
Proof.
  unfold Z_of_byte. pose proof (Byte.to_N_bounded b) as Hb. lia.
Qed.

Lemma Z_of_byte_of_Z (z : Z) : Z_of_byte (byte_of_Z z) = z mod 256.
Proof.
  unfold Z_of_byte, byte_of_Z.
  pose proof (Z.mod_pos_bound z 256 ltac:(lia)) as Hr.
  destruct (Byte.of_N (Z.to_N (z mod 256))) as [b|] eqn:E.
  - apply Byte.to_of_N in E. rewrite E. lia.
  - apply Byte.of_N_None_iff in E. lia.
Qed.

Lemma byte_of_Z_of_byte (b : byte) : byte_of_Z (Z_of_byte b) = b.
Proof.
  unfold byte_of_Z, Z_of_byte.
  pose proof (Byte.to_N_bounded b) as Hb.
  rewrite Z.mod_small by lia. rewrite N2Z.id.
  now rewrite Byte.of_to_N.
Qed.

Lemma length_PutUint32 (v : Z) : length (PutUint32 v) = 4%nat.
Proof. reflexivity. Qed.

Lemma lor_shiftl_add (a b k : Z) :
  0 <= k -> 0 <= a < 2 ^ k -> Z.lor a (Z.shiftl b k) = a + b * 2 ^ k.
Proof.
  intros Hk Ha.
  assert (Hland : Z.land a (Z.shiftl b k) = 0).
  { apply Z.bits_inj'. intros n Hn.
    rewrite Z.land_spec, Z.bits_0.
    destruct (Z_lt_le_dec n k) as [Hlt|Hge].
    - rewrite Z.shiftl_spec_low by lia. apply andb_false_r.
    - rewrite <- (Z.mod_small a (2 ^ k)) by lia.
      rewrite Z.mod_pow2_bits_high by lia. reflexivity. }
  rewrite <- Z.shiftl_mul_pow2 by lia.
  rewrite <- Z.lxor_lor by exact Hland.
  symmetry. apply Z.add_nocarry_lxor. exact Hland.
Qed.

(** What [Uint32] computes, as a sum. *)
Lemma Uint32_sum (b0 b1 b2 b3 : byte) :
  Uint32 [b0; b1; b2; b3] =
  Z_of_byte b3 + Z_of_byte b2 * 2 ^ 8 + Z_of_byte b1 * 2 ^ 16
  + Z_of_byte b0 * 2 ^ 24.
Proof.
  unfold Uint32.
  pose proof (Z_of_byte_range b0). pose proof (Z_of_byte_range b1).
  pose proof (Z_of_byte_range b2). pose proof (Z_of_byte_range b3).
  rewrite (lor_shiftl_add (Z_of_byte b3)) by lia.
  rewrite (lor_shiftl_add (_ + _) _ 16) by lia.
  rewrite (lor_shiftl_add (_ + _) _ 24) by lia.
  reflexivity.
Qed.

(** The length prefix survives the trip for every value a [uint32]
    holds. *)
Lemma Uint32_PutUint32 (v : Z) : 0 <= v < 2 ^ 32 -> Uint32 (PutUint32 v) = v.
Proof.
  intros Hv. unfold PutUint32. rewrite Uint32_sum.
  rewrite !Z_of_byte_of_Z, !Z.shiftr_div_pow2 by lia.
  change (2 ^ 8) with 256. change (2 ^ 16) with 65536.
  change (2 ^ 24) with 16777216. change (2 ^ 32) with 4294967296 in Hv.
  replace (v / 65536) with (v / 256 / 256)
    by (rewrite Z.div_div by lia; reflexivity).
  replace (v / 16777216) with (v / 256 / 256 / 256)
    by (rewrite !Z.div_div by lia; reflexivity).
  pose proof (Z.div_mod v 256 ltac:(lia)).
  pose proof (Z.div_mod (v / 256) 256 ltac:(lia)).
  pose proof (Z.div_mod (v / 256 / 256) 256 ltac:(lia)).
  assert (v / 256 / 256 / 256 < 256).
  { rewrite !Z.div_div by lia. apply Z.div_lt_upper_bound; lia. }
  assert (0 <= v / 256 / 256 / 256) by (repeat apply Z.div_pos; lia).
  rewrite (Z.mod_small (v / 256 / 256 / 256)) by lia.
  lia.
Qed.

Lemma Uint32_range (b : list byte) : 0 <= Uint32 b < 2 ^ 32.
Proof.
  destruct b as [|b0 [|b1 [|b2 [|b3 [|? ?]]]]]; try (simpl; lia).
  rewrite Uint32_sum.
  pose proof (Z_of_byte_range b0). pose proof (Z_of_byte_range b1).
  pose proof (Z_of_byte_range b2). pose proof (Z_of_byte_range b3).
  lia.
Qed.

(** ** The readers *)

Lemma conn_Read_ok (n : nat) (src : list NetEvent) :
  (0 < n)%nat -> avail src <> [] ->
  exists got src',
    conn_Read n src = (Ok got, src') /\ got <> [] /\ (length got <= n)%nat
    /\ got ++ avail src' = avail src.
Proof.
  intros Hn. induction src as [|[bs|] rest IH]; simpl; intros Hav.
  - congruence.
  - destruct bs as [|b bs'].
    + simpl in Hav. destruct (IH Hav) as (got & src' & H1 & H2 & H3 & H4).
      exists got, src'. auto.
    + exists (take n (b :: bs')),
        (match drop n (b :: bs') with [] => rest | r => Data r :: rest end).
      split; [reflexivity|]. split.
      { destruct n; [lia|]. simpl. congruence. }
      split.
      { rewrite length_take. lia. }
      destruct (drop n (b :: bs')) as [|x r] eqn:Hd.
      * rewrite <- (take_drop n (b :: bs')) at 2. rewrite Hd, app_nil_r.
        reflexivity.
      * cbn [avail]. rewrite <- Hd, app_assoc, take_drop. reflexivity.
  - congruence.
Qed.

Lemma Reader_Read_ok (n : nat) (b : Reader) :
  (0 < n)%nat -> buf b ++ avail (rd b) <> [] ->
  exists got b',
    Reader_Read n b = (Ok got, b') /\ got <> [] /\ (length got <= n)%nat
    /\ got ++ buf b' ++ avail (rd b') = buf b ++ avail (rd b).
Proof.
  intros Hn Hav. destruct b as [src held]. simpl in *.
  destruct n as [|n']; [lia|]. unfold Reader_Read. cbn [buf rd].
  destruct held as [|h held'].
  - simpl in Hav.
    destruct (defaultBufSize <=? S n')%nat.
    + destruct (conn_Read_ok (S n') src Hn Hav) as (got & src' & H1 & H2 & H3 & H4).
      rewrite H1. exists got, (mkReader src' []). simpl. auto.
    + destruct (conn_Read_ok defaultBufSize src ltac:(unfold defaultBufSize; lia) Hav)
        as (got & src' & H1 & H2 & H3 & H4).
      rewrite H1. exists (take (S n') got), (mkReader src' (drop (S n') got)).
      cbn [buf rd]. split; [reflexivity|]. split.
      { destruct got; [congruence|]. simpl. congruence. }
      split.
      { rewrite length_take. lia. }
      rewrite app_assoc, take_drop. exact H4.
  - exists (take (S n') (h :: held')), (mkReader src (drop (S n') (h :: held'))).
    cbn [buf rd]. split; [reflexivity|]. split.
    { simpl. congruence. }
    split.
    { rewrite length_take. lia. }
    rewrite app_assoc, take_drop. reflexivity.
Qed.

Lemma app_eq_app_short {A : Type} (got x d tail : list A) :
  got ++ x = d ++ tail -> (length got <= length d)%nat ->
  exists d', d = got ++ d' /\ x = d' ++ tail.
Proof.
  revert d. induction got as [|g got IH]; intros d Heq Hlen.
  - exists d. simpl in Heq. auto.
  - destruct d as [|e d]; [simpl in Hlen; lia|].
    simpl in Heq. injection Heq as -> Heq. simpl in Hlen.
    destruct (IH d Heq ltac:(lia)) as (d' & -> & ->).
    exists d'. auto.
Qed.

(** [io.ReadFull] returns exactly the next [need] bytes whenever that
    many arrive before a deadline or the end, however the socket cuts
    them into segments; what the reader holds and what the socket still
    has make up the rest of the stream. *)
Lemma ReadAtLeast_spec (rounds need : nat) (acc : list byte) (b : Reader)
    (d tail : list byte) :
  (need <= rounds)%nat -> length d = need ->
  buf b ++ avail (rd b) = d ++ tail ->
  exists b',
    ReadAtLeast rounds need acc b = (Ok (acc ++ d), b')
    /\ buf b' ++ avail (rd b') = tail.
Proof.
  revert need acc b d. induction rounds as [|rounds IH];
    intros need acc b d Hle Hlen Heq.
  - destruct need as [|need']; [|lia].
    destruct d; [|simpl in Hlen; lia].
    exists b. simpl. rewrite app_nil_r. auto.
  - destruct need as [|need'].
    + destruct d; [|simpl in Hlen; lia].
      exists b. simpl. rewrite app_nil_r. auto.
    + assert (Hne : buf b ++ avail (rd b) <> []).
      { rewrite Heq. destruct d; [simpl in Hlen; lia|]. simpl. congruence. }
      destruct (Reader_Read_ok (S need') b ltac:(lia) Hne)
        as (got & b1 & H1 & H2 & H3 & H4).
      rewrite Heq in H4.
      destruct (app_eq_app_short _ _ _ _ H4 ltac:(lia)) as (d' & -> & Hx).
      rewrite length_app in Hlen.
      assert (0 < length got)%nat by (destruct got; [congruence|simpl; lia]).
      destruct (IH (S need' - length got)%nat (acc ++ got) b1 d'
                  ltac:(lia) ltac:(lia) Hx) as (b' & Hr & Hb').
      exists b'. split; [|exact Hb'].
      cbn [ReadAtLeast]. rewrite H1. rewrite Hr. rewrite app_assoc. reflexivity.
Qed.

Lemma ReadFull_spec (b : Reader) (d tail : list byte) :
  buf b ++ avail (rd b) = d ++ tail ->
  exists b',
    ReadFull (length d) b = (Ok d, b') /\ buf b' ++ avail (rd b') = tail.
Proof.
  intros Heq. unfold ReadFull.
  destruct (ReadAtLeast_spec (length d) (length d) [] b d tail
              ltac:(lia) eq_refl Heq) as (b' & H1 & H2).
  exists b'. auto.
Qed.

Lemma ReadAtLeast_done (rounds : nat) (acc : list byte) (b : Reader) :
  ReadAtLeast rounds 0 acc b = (Ok acc, b).
Proof. destruct rounds; reflexivity. Qed.

(** When the buffer already holds the bytes, the socket is not
    touched. *)
Lemma ReadFull_buffered (src : list NetEvent) (d rest : list byte) :
  ReadFull (length d) (mkReader src (d ++ rest)) = (Ok d, mkReader src rest).
Proof.
  unfold ReadFull. destruct d as [|x d]; [reflexivity|].
  cbn [length ReadAtLeast]. unfold Reader_Read. cbn [buf rd].
  change ((x :: d) ++ rest) with (x :: (d ++ rest)).
  cbv iota beta.
  change (x :: d ++ rest) with ((x :: d) ++ rest).
  rewrite take_app_length', drop_app_length' by reflexivity.
  cbn [length app]. rewrite Nat.sub_diag.
  destruct d; reflexivity.
Qed.

(** ** The framed transport: [sendMessage] and [readMessage] *)

Section Transport.

Import primeclient.

Variable Marshal : Msg -> Res (list byte).
Variable Unmarshal : list byte -> Res Msg.

Lemma set_conn_same (c : Client) : set_conn (conn c) c = c.
Proof. destruct c; reflexivity. Qed.

Lemma sendMessage_not_connected (msg : Msg) (c : Client) :
  conn c = None ->
  sendMessage Marshal msg c = (Err (Errorf "not connected"), c).
Proof. intros H. unfold sendMessage. rewrite H. reflexivity. Qed.

(** A send never touches anything but the bytes written: they grow by
    the frame of the message when it can be marshalled and the peer is
    there, and not at all otherwise. *)
Lemma sendMessage_effect (msg : Msg) (c : Client) (cn : Conn) :
  conn c = Some cn ->
  (sendMessage Marshal msg c).2 =
  set_conn (Some (mkConn (incoming cn)
                    (outgoing cn ++ if writable cn then wire Marshal msg else [])
                    (writable cn))) c.
Proof.
  intros H. unfold sendMessage, wire. rewrite H.
  destruct (Marshal msg) as [data|err]; cbn [snd].
  - unfold conn_Write. destruct cn as [inc out [|]];
      cbn [writable incoming outgoing snd].
    + unfold frame. rewrite app_assoc. reflexivity.
    + rewrite app_nil_r. reflexivity.
  - destruct cn as [inc out w]; cbn [writable incoming outgoing].
    destruct w; rewrite app_nil_r; rewrite <- H; symmetry; apply set_conn_same.
Qed.

Lemma sendMessage_ok (msg : Msg) (c : Client) (cn : Conn) (data : list byte) :
  conn c = Some cn -> writable cn = true -> Marshal msg = Ok data ->
  sendMessage Marshal msg c =
  (Ok tt, set_conn (Some (mkConn (incoming cn) (outgoing cn ++ frame data) true)) c).
Proof.
  intros H Hw Hm. unfold sendMessage. rewrite H, Hm.
  unfold conn_Write. rewrite Hw. cbn [writable incoming outgoing].
  unfold frame. rewrite app_assoc. reflexivity.
Qed.

(** What [readMessage] makes of a script that delivers a frame, in
    whatever segments: the payload goes to the decoder, whatever its
    length.  The script continues after the bytes that the discarded
    reader held ([lost]). *)
Lemma readMessage_frame (c : Client) (cn : Conn) (data tail : list byte) :
  conn c = Some cn ->
  avail (incoming cn) = frame data ++ tail ->
  Z.of_nat (length data) < 2 ^ 32 ->
  exists src' lost,
    readMessage Unmarshal c =
      (match Unmarshal data with
       | Ok msg => Ok msg
       | Err err => Err (Wrapf "unmarshal: " err)
       end,
       set_conn (Some (mkConn src' (outgoing cn) (writable cn))) c)
    /\ lost ++ avail src' = tail.
Proof.
  intros Hc Hav Hlen. unfold readMessage. rewrite Hc.
  unfold frame in Hav. rewrite <- app_assoc in Hav.
  destruct (ReadFull_spec (NewReader (incoming cn)) _ _ Hav)
    as (b1 & H1 & H2).
  change (length (PutUint32 _)) with 4%nat in H1. rewrite H1.
  rewrite Uint32_PutUint32
    by (unfold uint32; rewrite Z.mod_small by lia; lia).
  unfold uint32. rewrite Z.mod_small by lia. rewrite Nat2Z.id.
  destruct (ReadFull_spec b1 _ _ H2) as (b2 & H3 & H4).
  rewrite H3.
  exists (rd b2), (buf b2). split; [|exact H4].
  destruct (Unmarshal data); reflexivity.
Qed.

(** The frame that [sendMessage] writes is read back by [readMessage]
    as the decoder's reading of the payload that the encoder produced:
    the framing adds and loses nothing, for every payload whose length
    fits the prefix. *)
Lemma frame_round_trip (msg : Msg) (data : list byte)
    (sender receiver : Client) (out inc : Conn) :
  conn sender = Some out -> writable out = true -> outgoing out = [] ->
  Marshal msg = Ok data ->
  Z.of_nat (length data) < 2 ^ 32 ->
  Unmarshal data = Ok msg ->
  conn receiver = Some inc ->
  (forall sent, conn (sendMessage Marshal msg sender).2 = Some sent ->
                avail (incoming inc) = outgoing sent) ->
  (sendMessage Marshal msg sender).1 = Ok tt
  /\ (readMessage Unmarshal receiver).1 = Ok msg.
Proof.
  intros Hs Hw Hout Hm Hlen Hu Hr Hwire.
  rewrite (sendMessage_ok msg sender out data Hs Hw Hm) in *.
  split; [reflexivity|].
  specialize (Hwire _ eq_refl). cbn [outgoing] in Hwire.
  rewrite Hout in Hwire. rewrite app_nil_l in Hwire.
  destruct (readMessage_frame receiver inc data [] Hr
              ltac:(rewrite app_nil_r; exact Hwire) Hlen)
    as (src' & lost & Hread & _).
  rewrite Hread, Hu. reflexivity.
Qed.

End Transport.

(** ** Frames that arrive together; frames of any size *)

Section Reading.

Import primeclient.

Variable Unmarshal : list byte -> Res Msg.

(** The first [Read] of a fresh [bufio.Reader] takes a whole segment
    into its buffer when the segment fits. *)
Lemma ReadFull_one_segment (d x : list byte) (rest : list NetEvent) :
  d <> [] -> (length d < defaultBufSize)%nat ->
  (length (d ++ x) <= defaultBufSize)%nat ->
  ReadFull (length d) (mkReader (Data (d ++ x) :: rest) []) =
  (Ok d, mkReader rest x).
Proof.
  intros Hd Hlt Hle. unfold ReadFull.
  destruct d as [|b d]; [congruence|].
  cbn [length ReadAtLeast]. unfold Reader_Read. cbn [buf rd].
  destruct (Nat.leb_spec defaultBufSize (S (length d))) as [Hbad|_];
    [simpl in Hlt; lia|].
  change ((b :: d) ++ x) with (b :: (d ++ x)) in *.
  cbn [conn_Read].
  rewrite (take_ge (b :: d ++ x)) by exact Hle.
  rewrite (drop_ge (b :: d ++ x)) by exact Hle.
  change (b :: d ++ x) with ((b :: d) ++ x).
  rewrite take_app_length', drop_app_length' by reflexivity.
  cbn [length app]. rewrite Nat.sub_diag. apply ReadAtLeast_done.
Qed.

(** C2, the stream half.  Two frames that reach the socket in one
    segment (together no longer than the reader's buffer): the first
    [readMessage] returns the first message and leaves nothing to read,
    the bytes of the second frame having gone with the reader that
    buffered them; the next [readMessage] reports the end of the stream
    instead of the second message. *)
Theorem readMessage_loses_frame_read_together
    (c : Client) (cn : Conn) (d1 d2 : list byte) (m1 : Msg) :
  conn c = Some cn ->
  incoming cn = [Data (frame d1 ++ frame d2)] ->
  (length (frame d1 ++ frame d2) <= defaultBufSize)%nat ->
  Unmarshal d1 = Ok m1 ->
  exists c1,
    readMessage Unmarshal c = (Ok m1, c1)
    /\ conn c1 = Some (mkConn [] (outgoing cn) (writable cn))
    /\ readMessage Unmarshal c1 = (Err EOF, c1).
Proof.
  intros Hc Hin Hle Hu.
  exists (set_conn (Some (mkConn [] (outgoing cn) (writable cn))) c).
  assert (Hlen : (length d1 + 4 <= defaultBufSize)%nat).
  { rewrite length_app in Hle. unfold frame in Hle at 1.
    rewrite length_app, length_PutUint32 in Hle. lia. }
  unfold defaultBufSize in Hlen.
  split; [|split; [reflexivity|]].
  - unfold readMessage. rewrite Hc, Hin. unfold NewReader.
    unfold frame at 1. rewrite <- app_assoc.
    pose proof (ReadFull_one_segment
                  (PutUint32 (uint32 (Z.of_nat (length d1))))
                  (d1 ++ frame d2) []) as H1.
    change (length (PutUint32 _)) with 4%nat in H1.
    rewrite H1; cycle 1.
    { discriminate. }
    { unfold defaultBufSize. lia. }
    { unfold frame in Hle at 1. rewrite <- app_assoc in Hle. exact Hle. }
    rewrite Uint32_PutUint32
      by (unfold uint32; rewrite Z.mod_small by lia; lia).
    unfold uint32. rewrite Z.mod_small by lia. rewrite Nat2Z.id.
    rewrite ReadFull_buffered. rewrite Hu. reflexivity.
  - unfold readMessage. cbn [conn set_conn incoming outgoing writable].
    change (ReadFull 4 (NewReader [])) with
      (@Err (list byte) EOF, mkReader [] []).
    cbv iota beta. cbn [rd]. destruct c; reflexivity.
Qed.

(** C6, as the code has it.  [readMessage] compares the length prefix
    with nothing: a frame whose prefix exceeds the suggested cap is
    buffered and handed to the decoder like any other, and the session
    goes on whenever the decoder accepts the payload. *)
Theorem readMessage_enforces_no_cap
    (c : Client) (cn : Conn) (data tail : list byte) :
  conn c = Some cn ->
  avail (incoming cn) = frame data ++ tail ->
  suggestedCap < Z.of_nat (length data) < 2 ^ 32 ->
  Uint32 (take 4 (avail (incoming cn))) = Z.of_nat (length data)
  /\ exists src' lost,
      readMessage Unmarshal c =
        (match Unmarshal data with
         | Ok msg => Ok msg
         | Err err => Err (Wrapf "unmarshal: " err)
         end,
         set_conn (Some (mkConn src' (outgoing cn) (writable cn))) c)
      /\ lost ++ avail src' = tail.
Proof.
  intros Hc Hav [Hbig Hlt]. split.
  - rewrite Hav. unfold frame. rewrite <- app_assoc.
    rewrite take_app_length' by reflexivity.
    rewrite Uint32_PutUint32
      by (unfold uint32; rewrite Z.mod_small by lia; lia).
    unfold uint32. rewrite Z.mod_small by lia. reflexivity.
  - exact (readMessage_frame Unmarshal c cn data tail Hc Hav Hlt).
Qed.

(** *** Frames that arrive in segments of their own *)

Lemma Reader_Read_aligned (n : nat) (held : list byte)
    (cs : list (list byte)) (rest : list NetEvent) :
  (0 < n)%nat -> Forall (fun seg => seg <> []) cs ->
  held ++ concat cs <> [] ->
  exists got held' cs',
    Reader_Read n (mkReader ((Data <$> cs) ++ rest) held)
      = (Ok got, mkReader ((Data <$> cs') ++ rest) held')
    /\ got <> [] /\ (length got <= n)%nat
    /\ Forall (fun seg => seg <> []) cs'
    /\ got ++ held' ++ concat cs' = held ++ concat cs.
Proof.
  intros Hn Hne Hav. destruct n as [|n']; [lia|].
  unfold Reader_Read. cbn [buf rd].
  destruct held as [|h held0].
  - destruct cs as [|seg cs1]; [simpl in Hav; congruence|].
    inversion Hne as [|? ? Hseg Hcs1]; subst.
    destruct seg as [|b seg0]; [congruence|].
    cbn [fmap list_fmap app conn_Read concat].
    assert (Hrest : forall m,
               exists cs',
                 match drop m (b :: seg0) with
                 | [] => (Data <$> cs1) ++ rest
                 | r => Data r :: (Data <$> cs1) ++ rest
                 end = (Data <$> cs') ++ rest
                 /\ Forall (fun seg => seg <> []) cs'
                 /\ concat cs' = drop m (b :: seg0) ++ concat cs1).
    { intros m. destruct (drop m (b :: seg0)) as [|x r] eqn:Hd.
      - exists cs1. auto.
      - exists ((x :: r) :: cs1). split; [reflexivity|].
        split; [constructor; [congruence|assumption]|reflexivity]. }
    destruct (defaultBufSize <=? S n')%nat.
    + destruct (Hrest (S n')) as (cs' & -> & Hne' & Hcat).
      exists (take (S n') (b :: seg0)), [], cs'.
      split; [reflexivity|]. split; [simpl; congruence|].
      split; [rewrite length_take; lia|]. split; [exact Hne'|].
      rewrite Hcat. cbn [app]. rewrite app_assoc, take_drop. reflexivity.
    + destruct (Hrest defaultBufSize) as (cs' & -> & Hne' & Hcat).
      exists (take (S n') (take defaultBufSize (b :: seg0))),
             (drop (S n') (take defaultBufSize (b :: seg0))), cs'.
      split; [reflexivity|]. split; [simpl; congruence|].
      split; [rewrite length_take; lia|]. split; [exact Hne'|].
      rewrite Hcat. rewrite (app_assoc (take (S n') _)), take_drop.
      cbn [app]. rewrite app_assoc, take_drop. reflexivity.
  - exists (take (S n') (h :: held0)), (drop (S n') (h :: held0)), cs.
    split; [reflexivity|]. split; [simpl; congruence|].
    split; [rewrite length_take; lia|]. split; [exact Hne|].
    rewrite app_assoc, take_drop. reflexivity.
Qed.

Lemma ReadAtLeast_aligned (rounds need : nat) (acc held : list byte)
    (cs : list (list byte)) (rest : list NetEvent) (d tail : list byte) :
  (need <= rounds)%nat -> length d = need ->
  Forall (fun seg => seg <> []) cs ->
  held ++ concat cs = d ++ tail ->
  exists held' cs',
    ReadAtLeast rounds need acc (mkReader ((Data <$> cs) ++ rest) held)
      = (Ok (acc ++ d), mkReader ((Data <$> cs') ++ rest) held')
    /\ Forall (fun seg => seg <> []) cs'
    /\ held' ++ concat cs' = tail.
Proof.
  revert need acc held cs d. induction rounds as [|rounds IH];
    intros need acc held cs d Hle Hlen Hne Heq.
  - destruct need as [|need']; [|lia].
    destruct d; [|simpl in Hlen; lia].
    exists held, cs. simpl. rewrite app_nil_r. auto.
  - destruct need as [|need'].
    + destruct d; [|simpl in Hlen; lia].
      exists held, cs. simpl. rewrite app_nil_r. auto.
    + assert (Hav : held ++ concat cs <> []).
      { rewrite Heq. destruct d; [simpl in Hlen; lia|]. simpl. congruence. }
      destruct (Reader_Read_aligned (S need') held cs rest ltac:(lia) Hne Hav)
        as (got & held1 & cs1 & H1 & H2 & H3 & Hne1 & H4).
      rewrite Heq in H4.
      destruct (app_eq_app_short _ _ _ _ H4 ltac:(lia)) as (d' & -> & Hx).
      rewrite length_app in Hlen.
      assert (0 < length got)%nat by (destruct got; [congruence|simpl; lia]).
      destruct (IH (S need' - length got)%nat (acc ++ got) held1 cs1 d'
                  ltac:(lia) ltac:(lia) Hne1 Hx)
        as (held' & cs' & Hr & Hne' & Hb').
      exists held', cs'. split; [|auto].
      cbn [ReadAtLeast]. rewrite H1, Hr, app_assoc. reflexivity.
Qed.

(** A frame whose segments carry nothing else is read whole, and the
    script continues right after it. *)
Lemma readMessage_aligned (c : Client) (cn : Conn)
    (segs : list (list byte)) (rest : list NetEvent) (data : list byte) :
  conn c = Some cn ->
  incoming cn = (Data <$> segs) ++ rest ->
  concat segs = frame data ->
  Forall (fun seg => seg <> []) segs ->
  Z.of_nat (length data) < 2 ^ 32 ->
  readMessage Unmarshal c
  = (decoded Unmarshal data,
     set_conn (Some (mkConn rest (outgoing cn) (writable cn))) c).
Proof.
  intros Hc Hin Hcat Hne Hlen. unfold readMessage, decoded.
  rewrite Hc, Hin. unfold NewReader, ReadFull.
  destruct (ReadAtLeast_aligned 4 4 [] [] segs rest
              (PutUint32 (uint32 (Z.of_nat (length data)))) data
              ltac:(lia) eq_refl Hne Hcat)
    as (held1 & cs1 & H1 & Hne1 & Hx1).
  rewrite H1. cbn [app].
  rewrite Uint32_PutUint32
    by (unfold uint32; rewrite Z.mod_small by lia; lia).
  unfold uint32. rewrite Z.mod_small by lia. rewrite Nat2Z.id.
  destruct (ReadAtLeast_aligned (length data) (length data) [] held1 cs1 rest
              data [] ltac:(lia) eq_refl Hne1
              ltac:(rewrite app_nil_r; exact Hx1))
    as (held2 & cs2 & H2 & Hne2 & Hx2).
  rewrite H2. cbn [app rd].
  apply app_eq_nil in Hx2. destruct Hx2 as [-> Hcs2].
  assert (cs2 = []) as ->.
  { destruct cs2 as [|seg cs2]; [reflexivity|].
    inversion Hne2; subst. simpl in Hcs2.
    apply app_eq_nil in Hcs2. destruct Hcs2; congruence. }
  cbn [fmap list_fmap app].
  destruct (Unmarshal data); reflexivity.
Qed.

(** A stream of frames is read back in order when no segment carries
    bytes of two frames: as many reads as there are frames return the
    payloads' decodings in order and stop exactly at the end of the last
    frame. *)
Lemma readMessages_aligned (cuts : list (list (list byte)))
    (datas : list (list byte)) (rest : list NetEvent)
    (c : Client) (cn : Conn) :
  conn c = Some cn ->
  cut_at_frames cuts datas ->
  incoming cn = (Data <$> concat cuts) ++ rest ->
  readMessages Unmarshal (length datas) c
  = (decoded Unmarshal <$> datas,
     match datas with
     | [] => c
     | _ => set_conn (Some (mkConn rest (outgoing cn) (writable cn))) c
     end).
Proof.
  intros Hc Hcut. revert c cn Hc.
  induction Hcut as [|segs data cuts datas (Hcat & Hne & Hlen) Hcut IH];
    intros c cn Hc Hin.
  - reflexivity.
  - cbn [length readMessages concat] in *.
    rewrite fmap_app, <- app_assoc in Hin.
    rewrite (readMessage_aligned c cn segs _ data Hc Hin Hcat Hne Hlen).
    rewrite (IH (set_conn (Some (mkConn ((Data <$> concat cuts) ++ rest)
                                   (outgoing cn) (writable cn))) c)
                (mkConn ((Data <$> concat cuts) ++ rest)
                   (outgoing cn) (writable cn)) eq_refl eq_refl).
    cbn [fmap list_fmap]. f_equal.
    destruct datas as [|d datas].
    + inversion Hcut; subst. reflexivity.
    + reflexivity.
Qed.

End Reading.

Section ReadingExamples.

Import primeclient scenario.

Lemma readMessage_loses_frame_witness :
  exists c1,
    readMessage json.Unmarshal (serving (incoming two_pings))
      = (Ok (ping "c-1"), c1)
    /\ conn c1 = Some (mkConn [] (outgoing two_pings) (writable two_pings))
    /\ readMessage json.Unmarshal c1 = (Err EOF, c1).
Proof.
  apply (readMessage_loses_frame_read_together json.Unmarshal
           (serving (incoming two_pings)) two_pings
           (payload (ping "c-1")) (payload (ping "c-2")) (ping "c-1")).
  - reflexivity.
  - reflexivity.
  - apply Nat.leb_le. vm_compute. reflexivity.
  - vm_compute. reflexivity.
Defined.

Lemma readMessages_aligned_witness :
  readMessages json.Unmarshal
    (length [payload (ping "c-1"); payload (ping "c-2")])
    (serving (Data <$> concat two_pings_apart))
  = (decoded json.Unmarshal <$> [payload (ping "c-1"); payload (ping "c-2")],
     set_conn (Some (mkConn [] [] true))
       (serving (Data <$> concat two_pings_apart))).
Proof.
  apply (readMessages_aligned json.Unmarshal two_pings_apart
           [payload (ping "c-1"); payload (ping "c-2")] []
           (serving (Data <$> concat two_pings_apart))
           (mkConn (Data <$> concat two_pings_apart) [] true)).
  - reflexivity.
  - repeat (apply Forall2_cons_2;
            [split; [vm_compute; reflexivity|];
             split; [repeat (apply List.Forall_cons; [discriminate|]);
                     apply List.Forall_nil
                    |vm_compute; reflexivity]|]).
    apply Forall2_nil_2.
  - vm_compute. reflexivity.
Defined.

(** The two pings are what the two reads return. *)
Example two_pings_apart_are_read :
  (readMessages json.Unmarshal 2
     (serving (Data <$> concat two_pings_apart))).1
  = [Ok (ping "c-1"); Ok (ping "c-2")].
Proof. vm_compute. reflexivity. Qed.

Lemma forallb_is_ws_spaces (n : nat) :
  forallb json.is_ws (replicate n x20) = true.
Proof. induction n as [|n IH]; [reflexivity|]. simpl. exact IH. Qed.

Lemma Unmarshal_spaced (n : nat) : json.Unmarshal (spaced n) = Ok ∅.
Proof.
  unfold spaced, json.Unmarshal.
  cbn [json.skip_ws json.is_ws].
  rewrite forallb_is_ws_spaces. reflexivity.
Qed.

Lemma length_spaced (n : nat) : Z.of_nat (length (spaced n)) = Z.of_nat n + 2.
Proof.
  unfold spaced. cbn [length]. rewrite length_replicate. lia.
Qed.

(** The empty object followed by any number of spaces is read and
    decoded as long as its length fits the prefix. *)
Lemma spaced_frame_is_decoded (n : nat) (cn : Conn) :
  cn = mkConn [Data (frame (spaced n))] [] true ->
  Z.of_nat n + 2 < 2 ^ 32 ->
  Uint32 (take 4 (avail (incoming cn))) = Z.of_nat n + 2
  /\ (readMessage json.Unmarshal (serving (incoming cn))).1 = Ok ∅
  /\ IsConnected (readMessage json.Unmarshal (serving (incoming cn))).2 = true.
Proof.
  intros -> Hlt. cbn [incoming].
  pose proof (length_spaced n) as Hlen.
  assert (Hav : avail [Data (frame (spaced n))] = frame (spaced n) ++ []).
  { reflexivity. }
  split.
  - rewrite Hav. unfold frame. rewrite <- app_assoc.
    rewrite take_app_length' by reflexivity.
    rewrite Uint32_PutUint32
      by (unfold uint32; rewrite Z.mod_small by lia; lia).
    unfold uint32. rewrite Z.mod_small by lia. exact Hlen.
  - destruct (readMessage_frame json.Unmarshal
                (serving [Data (frame (spaced n))])
                (mkConn [Data (frame (spaced n))] [] true) (spaced n) []
                eq_refl Hav ltac:(lia))
      as (src' & lost & Hread & _).
    rewrite Hread, Unmarshal_spaced. split; reflexivity.
Qed.

Lemma spaces_count :
  Z.of_nat (Z.to_nat (suggestedCap - 1)) = suggestedCap - 1.
Proof. apply Z2Nat.id. unfold suggestedCap. lia. Qed.

Lemma length_oversize : Z.of_nat (length oversize) = suggestedCap + 1.
Proof. unfold oversize. rewrite length_spaced, spaces_count. lia. Qed.

(** C6 as stated fails: a frame whose prefix announces one byte more
    than 64 MiB is read and decoded, and the session goes on. *)
Lemma oversize_frame_is_decoded :
  suggestedCap < Uint32 (take 4 (avail (incoming oversize_conn)))
  /\ (readMessage json.Unmarshal (serving (incoming oversize_conn))).1 = Ok ∅
  /\ IsConnected (readMessage json.Unmarshal (serving (incoming oversize_conn))).2
     = true.
Proof.
  pose proof (spaced_frame_is_decoded (Z.to_nat (suggestedCap - 1))
                oversize_conn eq_refl) as H.
  rewrite spaces_count in H.
  destruct H as (H1 & H2 & H3).
  { unfold suggestedCap. lia. }
  rewrite H1. split; [lia|]. split; assumption.
Qed.

Lemma readMessage_enforces_no_cap_witness :
  Uint32 (take 4 (avail (incoming oversize_conn)))
    = Z.of_nat (length oversize)
  /\ exists src' lost,
      readMessage json.Unmarshal (serving (incoming oversize_conn)) =
        (match json.Unmarshal oversize with
         | Ok msg => Ok msg
         | Err err => Err (Wrapf "unmarshal: " err)
         end,
         set_conn (Some (mkConn src' (outgoing oversize_conn)
                           (writable oversize_conn)))
                  (serving (incoming oversize_conn)))
      /\ lost ++ avail src' = [].
Proof.
  apply (readMessage_enforces_no_cap json.Unmarshal
           (serving (incoming oversize_conn)) oversize_conn oversize []).
  - reflexivity.
  - unfold oversize_conn. cbn [incoming avail]. reflexivity.
  - pose proof length_oversize as Hlen. unfold suggestedCap in *. lia.
Defined.

End ReadingExamples.

(** ** The registry and the dispatcher *)

Section Dispatch.

Import handlers primeclient.

Variable Marshal : Msg -> Res (list byte).
Variable Unmarshal : list byte -> Res Msg.

(** Whatever the handler returns, the dispatcher sends it back with the
    three fields set. *)
Lemma handleMessage_returns (reg : Registry) (msg res : Msg) (c : Client) :
  Handle reg (asString (msg !! "type")) msg = Returns (Some res) ->
  handleMessage Marshal reg msg c =
  Returns (sendMessage Marshal
             (<["type" := VString TypeResult]>
              (<["daemon_id" := VString (daemonID c)]>
               (<["command_id" := VString (asString (msg !! "command_id"))]>
                res))) c).2.
Proof. intros H. unfold handleMessage. rewrite H. reflexivity. Qed.

(** C1.  For every request whose handler returns a result, whether it
    reports success or failure, the dispatcher returns, and all it does
    to the client is to send one message [r]: the handler's result with
    [command_id] set to the request's, [daemon_id] to the agent's and
    [type] to [result]. *)
Theorem handleMessage_result_frame
    (reg : Registry) (msg res : Msg) (c : Client) (cn : Conn) :
  conn c = Some cn ->
  Handle reg (asString (msg !! "type")) msg = Returns (Some res) ->
  exists r : Msg,
    handleMessage Marshal reg msg c = Returns (after_send Marshal r cn c)
    /\ r !! "command_id" = Some (VString (asString (msg !! "command_id")))
    /\ (forall id, msg !! "command_id" = Some (VString id) ->
                   r !! "command_id" = Some (VString id))
    /\ r !! "daemon_id" = Some (VString (DaemonID c))
    /\ r !! "type" = Some (VString "result")
    /\ r !! "success" = res !! "success"
    /\ r !! "error" = res !! "error".
Proof.
  intros Hc Hh.
  eexists. split.
  { rewrite (handleMessage_returns reg msg res c Hh).
    rewrite (sendMessage_effect Marshal _ c cn Hc). reflexivity. }
  unfold TypeResult, DaemonID.
  repeat split.
  - now rewrite !lookup_insert_ne, lookup_insert_eq by discriminate.
  - intros id Hid. rewrite Hid.
    now rewrite !lookup_insert_ne, lookup_insert_eq by discriminate.
  - now rewrite lookup_insert_ne, lookup_insert_eq by discriminate.
  - now rewrite lookup_insert_eq.
  - now rewrite !lookup_insert_ne by discriminate.
  - now rewrite !lookup_insert_ne by discriminate.
Qed.

(** C3.  A command type that the registry does not hold gets exactly the
    two-field failure as its result; the dispatcher sends it back as a
    normal result and leaves the connection in place, and [messageLoop]
    goes on to its next turn. *)
Theorem Handle_unknown_command (reg : Registry) (t : string) :
  handlers reg !! t = None ->
  (forall p : Msg,
     Handle reg t p =
     Returns (Some (<["success" := VBool false]>
                   (<["error" := VString ("unknown command type: " ++ t)]> ∅))))
  /\ (forall (msg : Msg) (c : Client) (cn : Conn),
        conn c = Some cn -> asString (msg !! "type") = t ->
        exists r : Msg,
          handleMessage Marshal reg msg c = Returns (after_send Marshal r cn c)
          /\ IsConnected (after_send Marshal r cn c) = true
          /\ r = <["type" := VString "result"]>
                 (<["daemon_id" := VString (daemonID c)]>
                  (<["command_id" := VString (asString (msg !! "command_id"))]>
                   (<["success" := VBool false]>
                    (<["error" := VString ("unknown command type: " ++ t)]>
                     ∅)))))
  /\ (forall (msg : Msg) (c : Client) (cn : Conn) (data tail : list byte)
        (ctx : nat),
        conn c = Some cn ->
        avail (incoming cn) = frame data ++ tail ->
        Z.of_nat (length data) < 2 ^ 32 ->
        Unmarshal data = Ok msg -> asString (msg !! "type") = t ->
        exists (r : Msg) (src' : list NetEvent) (lost : list byte),
          messageLoop Marshal Unmarshal reg (S ctx) c
          = messageLoop Marshal Unmarshal reg ctx
              (after_send Marshal r
                 (mkConn src' (outgoing cn) (writable cn)) c)
          /\ lost ++ avail src' = tail
          /\ r !! "success" = Some (VBool false)).
Proof.
  intros Hnone.
  assert (Hh : forall p : Msg,
             Handle reg t p =
             Returns (Some (<["success" := VBool false]>
                           (<["error" := VString ("unknown command type: " ++ t)]> ∅)))).
  { intros p. unfold Handle. rewrite Hnone. reflexivity. }
  split; [exact Hh|]. split.
  - intros msg c cn Hc Ht. eexists. split; [|split; [|reflexivity]].
    + rewrite (handleMessage_returns reg msg
                 (<["success" := VBool false]>
                  (<["error" := VString ("unknown command type: " ++ t)]> ∅)) c);
        [|rewrite Ht; apply Hh].
      rewrite (sendMessage_effect Marshal _ c cn Hc). reflexivity.
    + reflexivity.
  - intros msg c cn data tail ctx Hc Hav Hlen Hu Ht.
    destruct (readMessage_frame Unmarshal c cn data tail Hc Hav Hlen)
      as (src' & lost & Hread & Hlost).
    eexists. exists src', lost. split; [|split; [exact Hlost|]].
    + cbn [messageLoop]. rewrite Hc, Hread, Hu.
      set (c1 := set_conn (Some (mkConn src' (outgoing cn) (writable cn))) c).
      rewrite (handleMessage_returns reg msg
                 (<["success" := VBool false]>
                  (<["error" := VString ("unknown command type: " ++ t)]> ∅)) c1);
        [|rewrite Ht; apply Hh].
      rewrite (sendMessage_effect Marshal _ c1
                 (mkConn src' (outgoing cn) (writable cn)) eq_refl).
      reflexivity.
    + now rewrite !lookup_insert_ne, lookup_insert_eq by discriminate.
Qed.

(** The registry after [RegisterBuiltins] holds [handleReadFile] under
    [read_file] and nothing under [teleport]. *)
Lemma RegisterBuiltins_read_file (w : World) (x : External) :
  handlers (RegisterBuiltins w x NewRegistry) !! "read_file"
  = Some (handleReadFile w).
Proof. reflexivity. Qed.

Lemma RegisterBuiltins_teleport (w : World) (x : External) :
  handlers (RegisterBuiltins w x NewRegistry) !! "teleport" = None.
Proof. reflexivity. Qed.

Lemma Split_nonempty (s : string) : (0 < length (Split s))%nat.
Proof.
  induction s as [|ch s IH]; simpl; [lia|].
  destruct (Ascii.eqb ch LF); simpl; [lia|].
  destruct (Split s); simpl; lia.
Qed.

(** [handleReadFile] on an existing file with offset -1 and limit 1:
    the slice expression [lines[-1:0]] panics. *)
Lemma handleReadFile_negative_offset
    (w : World) (params : Msg) (path content : string) :
  params !! "path" = Some (VString path) -> path <> "" ->
  files w !! path = Some content ->
  params !! "offset" = Some (VFloat64 (-1)%float) ->
  params !! "limit" = Some (VFloat64 1%float) ->
  handleReadFile w params = Panics "runtime error: slice bounds out of range".
Proof.
  intros Hp Hne Hf Ho Hl. unfold handleReadFile.
  rewrite Hp, Ho, Hl. cbn [asString asFloat64].
  destruct (String.eqb_spec path "") as [->|_]; [congruence|].
  unfold ReadFile. rewrite Hf.
  change (int_of_float64 (-1)%float) with (-1).
  change (int_of_float64 1%float) with 1.
  change (PrimFloat.ltb 0 1) with true.
  change (int64 (-1 + 1)) with 0.
  pose proof (Split_nonempty content) as Hlen.
  cbv zeta.
  destruct (Z.ltb_spec (Z.of_nat (length (Split content))) 0) as [Hbad|_];
    [lia|].
  rewrite orb_true_r.
  destruct (Z.ltb_spec (-1) (Z.of_nat (length (Split content)))) as [_|Hbad];
    [|lia].
  reflexivity.
Qed.

(** C5, where the code breaks it.  A [read_file] request for an
    existing file with offset -1 and limit 1 makes the dispatcher panic;
    nothing recovers, so [messageLoop] does not return either once the
    frame of such a request has arrived: the process ends. *)
Theorem read_file_request_panics
    (w : World) (x : External) (msg : Msg) (path content : string) :
  msg !! "type" = Some (VString "read_file") ->
  msg !! "path" = Some (VString path) -> path <> "" ->
  files w !! path = Some content ->
  msg !! "offset" = Some (VFloat64 (-1)%float) ->
  msg !! "limit" = Some (VFloat64 1%float) ->
  (forall c : Client,
     handleMessage Marshal (RegisterBuiltins w x NewRegistry) msg c
     = Panics "runtime error: slice bounds out of range")
  /\ (forall (c : Client) (cn : Conn) (data tail : list byte) (ctx : nat),
        conn c = Some cn ->
        avail (incoming cn) = frame data ++ tail ->
        Z.of_nat (length data) < 2 ^ 32 ->
        Unmarshal data = Ok msg ->
        messageLoop Marshal Unmarshal (RegisterBuiltins w x NewRegistry)
          (S ctx) c
        = Panics "runtime error: slice bounds out of range").
Proof.
  intros Ht Hp Hne Hf Ho Hl.
  assert (Hh : forall c : Client,
             handleMessage Marshal (RegisterBuiltins w x NewRegistry) msg c
             = Panics "runtime error: slice bounds out of range").
  { intros c. unfold handleMessage. rewrite Ht. cbn [asString].
    unfold Handle. rewrite RegisterBuiltins_read_file.
    rewrite (handleReadFile_negative_offset w msg path content Hp Hne Hf Ho Hl).
    reflexivity. }
  split; [exact Hh|].
  intros c cn data tail ctx Hc Hav Hlen Hu.
  cbn [messageLoop]. rewrite Hc.
  destruct (readMessage_frame Unmarshal c cn data tail Hc Hav Hlen)
    as (src' & lost & Hread & _).
  rewrite Hread, Hu. rewrite Hh. reflexivity.
Qed.

(** C10.  With no connection, every send returns the error
    [not connected] and the client is what it was: [sendMessage] itself,
    [SendEvent], [SendAlert], the heartbeat (which only logs the error)
    and the dispatcher's reply. *)
Theorem send_without_connection (c : Client) :
  conn c = None ->
  (forall msg, sendMessage Marshal msg c = (Err (Errorf "not connected"), c))
  /\ (forall now source eventType payload,
        SendEvent Marshal now source eventType payload c
        = (Err (Errorf "not connected"), c))
  /\ (forall alertType message severity metadata,
        SendAlert Marshal alertType message severity metadata c
        = (Err (Errorf "not connected"), c))
  /\ (forall m, sendHeartbeat Marshal m c = c)
  /\ (forall reg msg res,
        Handle reg (asString (msg !! "type")) msg = Returns (Some res) ->
        handleMessage Marshal reg msg c = Returns c).
Proof.
  intros Hc.
  assert (Hs : forall msg,
             sendMessage Marshal msg c = (Err (Errorf "not connected"), c))
    by (intros; apply sendMessage_not_connected; exact Hc).
  split; [exact Hs|].
  split; [intros; unfold SendEvent; apply Hs|].
  split; [intros; unfold SendAlert; apply Hs|].
  split; [intros; unfold sendHeartbeat; rewrite Hs; reflexivity|].
  intros reg msg res Hh.
  rewrite (handleMessage_returns reg msg res c Hh), Hs. reflexivity.
Qed.

End Dispatch.

Section DispatchExamples.

Import handlers primeclient scenario.

Lemma handleMessage_result_frame_witness :
  exists r : Msg,
    handleMessage json.Marshal registry (ping "c-1") (serving [])
      = Returns (after_send json.Marshal r (mkConn [] [] true) (serving []))
    /\ r !! "command_id"
       = Some (VString (asString (ping "c-1" !! "command_id")))
    /\ (forall id, ping "c-1" !! "command_id" = Some (VString id) ->
                   r !! "command_id" = Some (VString id))
    /\ r !! "daemon_id" = Some (VString (DaemonID (serving [])))
    /\ r !! "type" = Some (VString "result")
    /\ r !! "success" = pong !! "success"
    /\ r !! "error" = pong !! "error".
Proof.
  apply (handleMessage_result_frame json.Marshal registry (ping "c-1") pong
           (serving []) (mkConn [] [] true)).
  - reflexivity.
  - reflexivity.
Defined.

Lemma Handle_unknown_command_witness :
  (forall p : Msg,
     Handle registry "teleport" p =
     Returns (Some (<["success" := VBool false]>
                   (<["error" := VString ("unknown command type: " ++ "teleport")]>
                    ∅))))
  /\ (forall (msg : Msg) (c : Client) (cn : Conn),
        conn c = Some cn -> asString (msg !! "type") = "teleport" ->
        exists r : Msg,
          handleMessage json.Marshal registry msg c
            = Returns (after_send json.Marshal r cn c)
          /\ IsConnected (after_send json.Marshal r cn c) = true
          /\ r = <["type" := VString "result"]>
                 (<["daemon_id" := VString (daemonID c)]>
                  (<["command_id" := VString (asString (msg !! "command_id"))]>
                   (<["success" := VBool false]>
                    (<["error" := VString ("unknown command type: " ++ "teleport")]>
                     ∅)))))
  /\ (forall (msg : Msg) (c : Client) (cn : Conn) (data tail : list byte)
        (ctx : nat),
        conn c = Some cn ->
        avail (incoming cn) = frame data ++ tail ->
        Z.of_nat (length data) < 2 ^ 32 ->
        json.Unmarshal data = Ok msg ->
        asString (msg !! "type") = "teleport" ->
        exists (r : Msg) (src' : list NetEvent) (lost : list byte),
          messageLoop json.Marshal json.Unmarshal registry (S ctx) c
          = messageLoop json.Marshal json.Unmarshal registry ctx
              (after_send json.Marshal r
                 (mkConn src' (outgoing cn) (writable cn)) c)
          /\ lost ++ avail src' = tail
          /\ r !! "success" = Some (VBool false)).
Proof.
  apply (Handle_unknown_command json.Marshal json.Unmarshal registry "teleport").
  reflexivity.
Defined.

(** Scenario S4 continued: after [teleport] the session is still there
    to serve a ping. *)
Example teleport_then_ping :
  match connectOnce json.Marshal json.Unmarshal registry
          (session [ack; teleport; ping "c-1"]) fresh with
  | Returns (err, _, Some cn) => Some (Error err, outgoing cn)
  | _ => None
  end
  = Some ("connection closed",
          frame (payload
            (<["type" := VString "registration"]>
             (<["registration_key" := VString "secret"]>
              (<["name" := VString "macbook"]>
               (<["hostname" := VString "macbook.local"]>
                (<["capabilities" := VSlice [VString "shell"; VString "files"]]>
                 (<["is_soul_daemon" := VBool false]>
                  (<["ultron_root" := VString ""]> ∅))))))))
          ++ frame (payload
               (<["type" := VString "result"]>
                (<["daemon_id" := VString "d-1"]>
                 (<["command_id" := VString "c-3"]>
                  (failure "unknown command type: teleport")))))
          ++ frame (payload
               (<["type" := VString "result"]>
                (<["daemon_id" := VString "d-1"]>
                 (<["command_id" := VString "c-1"]> pong))))).
Proof. vm_compute. reflexivity. Qed.

(** Scenario S4 of the spec, byte for byte: the reply to [teleport]. *)
Example teleport_reply :
  (fun c => outgoing <$> conn c)
    <$> (match handleMessage json.Marshal registry teleport (serving []) with
         | Returns c => Some c
         | Panics _ => None
         end)
  = Some (Some (frame (payload
       (<["type" := VString "result"]>
        (<["daemon_id" := VString "d-1"]>
         (<["command_id" := VString "c-3"]>
          (<["success" := VBool false]>
           (<["error" := VString "unknown command type: teleport"]> ∅)))))))).
Proof. vm_compute. reflexivity. Qed.

Lemma read_file_request_panics_witness :
  (forall c : Client,
     handleMessage json.Marshal (RegisterBuiltins world external NewRegistry)
       read_back c
     = Panics "runtime error: slice bounds out of range")
  /\ (forall (c : Client) (cn : Conn) (data tail : list byte) (ctx : nat),
        conn c = Some cn ->
        avail (incoming cn) = frame data ++ tail ->
        Z.of_nat (length data) < 2 ^ 32 ->
        json.Unmarshal data = Ok read_back ->
        messageLoop json.Marshal json.Unmarshal
          (RegisterBuiltins world external NewRegistry) (S ctx) c
        = Panics "runtime error: slice bounds out of range").
Proof.
  apply (read_file_request_panics json.Marshal json.Unmarshal world external
           read_back "/etc/hostname" (String.append "macbook" newline)).
  - reflexivity.
  - reflexivity.
  - discriminate.
  - reflexivity.
  - reflexivity.
  - reflexivity.
Defined.

(** The same on the wire: the agent registers, the controller sends the
    request, and [Connect] does not return. *)
Example read_back_ends_the_process :
  Connect json.Marshal json.Unmarshal registry [session [ack; read_back]] fresh
  = Panics "runtime error: slice bounds out of range".
Proof. vm_compute. reflexivity. Qed.

Lemma send_without_connection_witness :
  (forall msg,
     sendMessage json.Marshal msg fresh = (Err (Errorf "not connected"), fresh))
  /\ (forall now source eventType payload,
        SendEvent json.Marshal now source eventType payload fresh
        = (Err (Errorf "not connected"), fresh))
  /\ (forall alertType message severity metadata,
        SendAlert json.Marshal alertType message severity metadata fresh
        = (Err (Errorf "not connected"), fresh))
  /\ (forall m, sendHeartbeat json.Marshal m fresh = fresh)
  /\ (forall reg msg res,
        Handle reg (asString (msg !! "type")) msg = Returns (Some res) ->
        handleMessage json.Marshal reg msg fresh = Returns fresh).
Proof.
  apply (send_without_connection json.Marshal fresh). reflexivity.
Defined.

(** C1 as stated fails when the identifier is not a string: the request
    carries the [command_id] 7, the result frame carries the empty
    string. *)
Lemma numeric_command_id_is_not_echoed :
  json.Unmarshal ping_seven_text = Ok ping_seven
  /\ ping_seven !! "command_id" = Some (VFloat64 7%float)
  /\ (fun c => outgoing <$> conn c)
       <$> (match handleMessage json.Marshal registry ping_seven (serving []) with
            | Returns c => Some c
            | Panics _ => None
            end)
     = Some (Some (frame (payload
          (<["type" := VString "result"]>
           (<["daemon_id" := VString "d-1"]>
            (<["command_id" := VString ""]> pong)))))).
Proof. vm_compute. repeat split. Qed.

(** Scenario S1 of the spec: one frame out, one frame in. *)
Lemma frame_round_trip_witness :
  (sendMessage json.Marshal (ping "c-1") (serving [])).1 = Ok tt
  /\ (readMessage json.Unmarshal
        (serving [Data (frame (payload (ping "c-1")))])).1
     = Ok (ping "c-1").
Proof.
  apply (frame_round_trip json.Marshal json.Unmarshal (ping "c-1")
           (payload (ping "c-1")) (serving [])
           (serving [Data (frame (payload (ping "c-1")))])
           (mkConn [] [] true)
           (mkConn [Data (frame (payload (ping "c-1")))] [] true)).
  - reflexivity.
  - reflexivity.
  - reflexivity.
  - vm_compute. reflexivity.
  - vm_compute. reflexivity.
  - vm_compute. reflexivity.
  - reflexivity.
  - intros sent H. vm_compute in H. injection H as <-.
    vm_compute. reflexivity.
Defined.

End DispatchExamples.

(** ** The reconnect loop *)

Section Reconnect.

Import primeclient.

Variable Marshal : Msg -> Res (list byte).
Variable Unmarshal : list byte -> Res Msg.
Variable reg : handlers.Registry.

Lemma connectOnce_refused (a : Attempt) (c : Client) :
  dial a = None ->
  connectOnce Marshal Unmarshal reg a c
  = Returns (Wrapf "dial failed: " (Errorf "connection refused"), c, None).
Proof. intros H. unfold connectOnce. rewrite H. reflexivity. Qed.

(** [sendRegistration], [messageLoop] and the session leave the two
    reconnect fields alone. *)
Lemma sendMessage_delay (msg : Msg) (c : Client) :
  reconnectDelay (sendMessage Marshal msg c).2 = reconnectDelay c
  /\ maxReconnect (sendMessage Marshal msg c).2 = maxReconnect c.
Proof.
  unfold sendMessage. destruct (conn c) as [cn|]; [|auto].
  destruct (Marshal msg); [|auto].
  destruct (conn_Write _ cn) as [[|] cn1]; [|auto].
  destruct (conn_Write _ cn1) as [[|] cn2]; auto.
Qed.

Lemma readMessage_delay (c : Client) :
  reconnectDelay (readMessage Unmarshal c).2 = reconnectDelay c
  /\ maxReconnect (readMessage Unmarshal c).2 = maxReconnect c.
Proof.
  unfold readMessage. destruct (conn c) as [cn|]; [|auto].
  destruct (ReadFull 4 _) as [[lengthBuf|] r1]; [|auto].
  destruct (ReadFull _ r1) as [[data|] r2]; [|auto].
  destruct (Unmarshal data); auto.
Qed.

Lemma sendRegistration_delay (c : Client) :
  reconnectDelay (sendRegistration Marshal Unmarshal c).2 = reconnectDelay c
  /\ maxReconnect (sendRegistration Marshal Unmarshal c).2 = maxReconnect c.
Proof.
  unfold sendRegistration.
  match goal with |- context [sendMessage Marshal ?m c] =>
    pose proof (sendMessage_delay m c) as Hs;
    destruct (sendMessage Marshal m c) as [[[]|] c1] end;
    cbn [snd] in *; [|exact Hs].
  pose proof (readMessage_delay c1) as Hr.
  destruct (readMessage Unmarshal c1) as [[ack|] c2]; cbn [snd] in *;
    [|intuition congruence].
  assert (Hc2 : reconnectDelay c2 = reconnectDelay c
                /\ maxReconnect c2 = maxReconnect c) by intuition congruence.
  destruct (ack !! "type") as [[| |t| | | |]|]; try exact Hc2.
  destruct (String.eqb t TypeRegistrationAck); [|exact Hc2].
  destruct (asBool (ack !! "success")); [|exact Hc2].
  destruct (ack !! "daemon_id") as [[| |id| | | |]|]; exact Hc2.
Qed.

Lemma handleMessage_delay (msg : Msg) (c c' : Client) :
  handleMessage Marshal reg msg c = Returns c' ->
  reconnectDelay c' = reconnectDelay c /\ maxReconnect c' = maxReconnect c.
Proof.
  unfold handleMessage.
  destruct (handlers.Handle reg _ msg) as [[res|]|]; try discriminate.
  intros [= <-]. apply sendMessage_delay.
Qed.

Lemma messageLoop_delay (ctx : nat) (c c' : Client) (err : error) :
  messageLoop Marshal Unmarshal reg ctx c = Returns (err, c') ->
  reconnectDelay c' = reconnectDelay c /\ maxReconnect c' = maxReconnect c.
Proof.
  revert c. induction ctx as [|ctx IH]; intros c; cbn [messageLoop].
  - intros [= _ <-]. auto.
  - destruct (conn c); [|discriminate].
    pose proof (readMessage_delay c) as Hr.
    destruct (readMessage Unmarshal c) as [[msg|e] c1]; cbn [snd] in Hr.
    + destruct (handleMessage Marshal reg msg c1) as [c2|] eqn:Hh;
        [|discriminate].
      apply handleMessage_delay in Hh. intros Hl. apply IH in Hl.
      intuition congruence.
    + destruct e; try (intros [= _ <-]; exact Hr).
      intros Hl. apply IH in Hl. intuition congruence.
Qed.

Lemma sendHeartbeat_delay (m : MemStats) (c : Client) :
  reconnectDelay (sendHeartbeat Marshal m c) = reconnectDelay c
  /\ maxReconnect (sendHeartbeat Marshal m c) = maxReconnect c.
Proof. unfold sendHeartbeat. apply sendMessage_delay. Qed.

(** What every heartbeat keeps holds of the client after the last of
    them. *)
Lemma after_beats_keeps (P : Client -> Prop) :
  (forall m c, P c -> P (sendHeartbeat Marshal m c)) ->
  forall (samples : list MemStats) (k : nat) (t0 : Z) (c : Client),
    P c ->
    P (after_beats (heartbeatLoop_from Marshal k t0 samples c) c).
Proof.
  intros Hkeep samples.
  induction samples as [|m rest IH]; intros k t0 c Hc; [exact Hc|].
  cbn [heartbeatLoop_from].
  specialize (IH (S k) t0 (sendHeartbeat Marshal m c) (Hkeep m c Hc)).
  unfold after_beats in *. rewrite last_cons.
  destruct (last (heartbeatLoop_from Marshal (S k) t0 rest
                    (sendHeartbeat Marshal m c))) as [[t c']|].
  - exact IH.
  - exact (Hkeep m c Hc).
Qed.

Lemma serve_delay (pace : nat -> Z) (memory : nat -> MemStats)
    (ctx turn : nat) (now : Z) (c : Client) :
  reconnectDelay (serve Marshal Unmarshal reg pace memory ctx turn now c).1.2
  = reconnectDelay c
  /\ maxReconnect (serve Marshal Unmarshal reg pace memory ctx turn now c).1.2
     = maxReconnect c.
Proof.
  revert turn now c. induction ctx as [|ctx IH]; intros turn now c;
    cbn [serve]; [auto|].
  destruct (conn c); [|auto].
  pose proof (readMessage_delay c) as Hr.
  destruct (readMessage Unmarshal c) as [r c1]; cbn [snd] in Hr.
  set (until := now + blocked (pace turn) r).
  set (beats := heartbeatLoop_from Marshal (due now) 0
                  (memory <$> seq (due now) (due until - due now)) c1).
  assert (Hb : reconnectDelay (after_beats beats c1) = reconnectDelay c
               /\ maxReconnect (after_beats beats c1) = maxReconnect c).
  { apply (after_beats_keeps
             (fun c' => reconnectDelay c' = reconnectDelay c
                        /\ maxReconnect c' = maxReconnect c)); [|exact Hr].
    intros m c' Hc'. pose proof (sendHeartbeat_delay m c'). intuition congruence. }
  assert (Hgo : forall c2,
            reconnectDelay c2 = reconnectDelay c
            /\ maxReconnect c2 = maxReconnect c ->
            reconnectDelay
              (let '(more, teardown, c3, how) :=
                 serve Marshal Unmarshal reg pace memory ctx (S turn) until c2 in
               (beats ++ more, teardown, c3, how)).1.2 = reconnectDelay c
            /\ maxReconnect
                 (let '(more, teardown, c3, how) :=
                    serve Marshal Unmarshal reg pace memory ctx (S turn) until c2 in
                  (beats ++ more, teardown, c3, how)).1.2 = maxReconnect c).
  { intros c2 Hc2. specialize (IH (S turn) until c2).
    destruct (serve Marshal Unmarshal reg pace memory ctx (S turn) until c2)
      as [[[more teardown] c3] how].
    cbn [fst snd] in *. intuition congruence. }
  destruct r as [msg|e].
  - destruct (handleMessage Marshal reg msg (after_beats beats c1))
      as [c2|] eqn:Hh; [|exact Hb].
    apply handleMessage_delay in Hh. apply Hgo. intuition congruence.
  - destruct e; try exact Hb. apply Hgo. exact Hb.
Qed.

(** After a dial that succeeded, whatever came of the registration and
    of the session, the delay is one second again. *)
Lemma connectOnce_resets (a : Attempt) (c c1 : Client) (err : error)
    (closed : option Conn) :
  is_Some (dial a) ->
  connectOnce Marshal Unmarshal reg a c = Returns (err, c1, closed) ->
  reconnectDelay c1 = 1 * Second /\ maxReconnect c1 = maxReconnect c.
Proof.
  intros [cn Hd]. unfold connectOnce. rewrite Hd.
  match goal with |- context [sendRegistration Marshal Unmarshal ?c0] =>
    pose proof (sendRegistration_delay c0) as Hs;
    destruct (sendRegistration Marshal Unmarshal c0) as [[[]|e] c2] end;
    cbn [snd] in Hs.
  - pose proof (serve_delay (pace a) (memory a) (ctx a) 0 0 c2) as Hl.
    destruct (serve Marshal Unmarshal reg (pace a) (memory a) (ctx a) 0 0 c2)
      as [[[beats teardown] c3] [e|]]; [|discriminate].
    cbn [fst snd] in Hl. intros [= _ <- _].
    destruct c3, c2, c; cbn in *. intuition congruence.
  - intros [= _ <- _]. destruct c2, c; cbn in *. intuition congruence.
Qed.

(** Doubling with the ceiling, on the closed form of the sequence. *)
Lemma next_delay (k : nat) :
  let d := Z.min (2 ^ Z.of_nat k) 60 * Second in
  (if 60 * Second <? int64 (d * 2) then 60 * Second else int64 (d * 2))
  = Z.min (2 ^ Z.of_nat (S k)) 60 * Second.
Proof.
  do 6 (destruct k as [|k]; [reflexivity|]).
  assert (H64 : 2 ^ 6 <= 2 ^ Z.of_nat (S (S (S (S (S (S k))))))).
  { apply Z.pow_le_mono_r; lia. }
  assert (H64' : 2 ^ 6 <= 2 ^ Z.of_nat (S (S (S (S (S (S (S k)))))))).
  { apply Z.pow_le_mono_r; lia. }
  change (2 ^ 6) with 64 in *.
  cbv zeta. rewrite !Z.min_r by lia. reflexivity.
Qed.

(** Failed dials, starting from the [k]-th delay of the sequence. *)
Lemma Connect_refused_from (attempts : list Attempt) (k : nat) (c : Client) :
  Forall (fun a => dial a = None) attempts ->
  maxReconnect c = 60 * Second ->
  reconnectDelay c = Z.min (2 ^ Z.of_nat k) 60 * Second ->
  exists c',
    Connect Marshal Unmarshal reg attempts c
    = Returns (backoff_from k (length attempts), c').
Proof.
  intros Hall. revert k c.
  induction Hall as [|a attempts Ha _ IH]; intros k c Hmax Hdelay.
  - exists c. reflexivity.
  - cbn [Connect]. rewrite (connectOnce_refused a c Ha).
    cbv iota beta. rewrite Hmax, Hdelay.
    pose proof (next_delay k) as Hnext. cbv zeta in Hnext.
    match goal with |- context [Connect _ _ _ attempts ?c2] =>
      assert (H2 : maxReconnect c2 = 60 * Second
                   /\ reconnectDelay c2 = Z.min (2 ^ Z.of_nat (S k)) 60 * Second)
    end.
    { rewrite <- Hnext.
      destruct (60 * Second <? int64 (Z.min (2 ^ Z.of_nat k) 60 * Second * 2));
        cbn [maxReconnect reconnectDelay set_reconnectDelay];
        split; congruence. }
    destruct H2 as [H2 H3].
    destruct (IH (S k) _ H2 H3) as (c' & Hc').
    rewrite Hc'. exists c'. reflexivity.
Qed.

(** The waits by the dials when every dial fails, and when every dial
    succeeds. *)
Lemma waits_by_dials_refused (n k : nat) :
  waits_by_dials k (replicate n false) = backoff_from k n.
Proof.
  revert k. induction n as [|n IH]; intros k; [reflexivity|].
  cbn [replicate waits_by_dials]. rewrite IH. reflexivity.
Qed.

Lemma waits_by_dials_dialled (n k : nat) :
  waits_by_dials k (replicate n true) = replicate n (1 * Second).
Proof.
  revert k. induction n as [|n IH]; intros k; [reflexivity|].
  cbn [replicate waits_by_dials]. rewrite IH. reflexivity.
Qed.

(** The delay that [Connect] leaves for the next attempt. *)
Lemma doubled_delay (k : nat) (c1 : Client) :
  maxReconnect c1 = 60 * Second ->
  reconnectDelay c1 = Z.min (2 ^ Z.of_nat k) 60 * Second ->
  let c2 := if maxReconnect c1 <? int64 (reconnectDelay c1 * 2)
            then set_reconnectDelay (maxReconnect c1) c1
            else set_reconnectDelay (int64 (reconnectDelay c1 * 2)) c1 in
  maxReconnect c2 = 60 * Second
  /\ reconnectDelay c2 = Z.min (2 ^ Z.of_nat (S k)) 60 * Second.
Proof.
  intros Hmax Hdelay. cbv zeta. rewrite Hmax, Hdelay.
  pose proof (next_delay k) as Hnext. cbv zeta in Hnext. rewrite <- Hnext.
  destruct (60 * Second <? int64 (Z.min (2 ^ Z.of_nat k) 60 * Second * 2));
    cbn [maxReconnect reconnectDelay set_reconnectDelay];
    split; congruence.
Qed.

Lemma Connect_waits_from (attempts : list Attempt) :
  forall (k : nat) (c c' : Client) (waits : list Z),
    maxReconnect c = 60 * Second ->
    reconnectDelay c = Z.min (2 ^ Z.of_nat k) 60 * Second ->
    Connect Marshal Unmarshal reg attempts c = Returns (waits, c') ->
    waits = waits_by_dials k (dialled <$> take (length waits) attempts)
    /\ (length waits <= length attempts)%nat.
Proof.
  induction attempts as [|a attempts IH]; intros k c c' waits Hmax Hdelay.
  - intros [= <- _]. split; [reflexivity|cbn; lia].
  - cbn [Connect].
    destruct (connectOnce Marshal Unmarshal reg a c) as [[[err c1] closed]|]
      eqn:Hco; [|discriminate].
    set (k1 := if dialled a then 0%nat else k).
    assert (H1 : maxReconnect c1 = 60 * Second
                 /\ reconnectDelay c1 = Z.min (2 ^ Z.of_nat k1) 60 * Second).
    { unfold k1, dialled. destruct (dial a) as [cn|] eqn:Hdial.
      - destruct (connectOnce_resets a c c1 err closed)
          as [-> ->]; [rewrite Hdial; eauto|exact Hco|].
        split; [exact Hmax|reflexivity].
      - rewrite (connectOnce_refused a c Hdial) in Hco.
        injection Hco as _ <- _. auto. }
    destruct H1 as [Hmax1 Hdelay1].
    destruct (doubled_delay k1 c1 Hmax1 Hdelay1) as [Hmax2 Hdelay2].
    set (c2 := if maxReconnect c1 <? int64 (reconnectDelay c1 * 2)
               then set_reconnectDelay (maxReconnect c1) c1
               else set_reconnectDelay (int64 (reconnectDelay c1 * 2)) c1) in *.
    assert (Hrest : forall ws c3,
              Connect Marshal Unmarshal reg attempts c2 = Returns (ws, c3) ->
              reconnectDelay c1 :: ws
              = waits_by_dials k
                  (dialled <$> take (length (reconnectDelay c1 :: ws))
                                 (a :: attempts))
              /\ (length (reconnectDelay c1 :: ws) <= length (a :: attempts))%nat).
    { intros ws c3 Hcon.
      destruct (IH (S k1) c2 c3 ws Hmax2 Hdelay2 Hcon) as [Hws Hlen].
      cbn [length take fmap list_fmap waits_by_dials]. fold k1.
      split; [|lia]. rewrite Hdelay1. f_equal. exact Hws. }
    destruct (Connect Marshal Unmarshal reg attempts c2) as [[ws c3]|];
      destruct err; try discriminate;
      try (intros [= <- _]; apply (Hrest ws c3 eq_refl));
      intros [= <- _]; (split; [reflexivity|cbn; lia]).
Qed.

(** C4, corrected.  From a new client, failed dials in a row are
    followed by waits of 1, 2, 4, 8, 16, 32, 60, 60, ... seconds.  The
    sequence starts again at one second with every attempt whose dial
    succeeded, whatever came of its registration and of its session:
    after such an attempt that has ended, failed dials are followed by
    the same waits from one second on, and in general the waits of
    [Connect], as many as it makes, are those of [waits_by_dials]. *)
Theorem Connect_waits_restart_at_dial :
  (forall (os_hostname : string) (cfg : Config) (attempts : list Attempt),
     Forall (fun a => dial a = None) attempts ->
     exists c',
       Connect Marshal Unmarshal reg attempts (NewClient os_hostname cfg)
       = Returns (backoff (length attempts), c'))
  /\ (forall (c c1 : Client) (a : Attempt) (err : error)
        (closed : option Conn) (attempts : list Attempt),
        maxReconnect c = 60 * Second ->
        is_Some (dial a) ->
        connectOnce Marshal Unmarshal reg a c = Returns (err, c1, closed) ->
        err <> Canceled ->
        Forall (fun a => dial a = None) attempts ->
        exists c',
          Connect Marshal Unmarshal reg (a :: attempts) c
          = Returns (backoff (S (length attempts)), c'))
  /\ (forall (os_hostname : string) (cfg : Config) (attempts : list Attempt),
        match Connect Marshal Unmarshal reg attempts
                (NewClient os_hostname cfg) with
        | Returns (waits, _) =>
            waits = waits_by_dials 0 (dialled <$> take (length waits) attempts)
            /\ (length waits <= length attempts)%nat
        | Panics _ => True
        end).
Proof.
  split; [|split].
  - intros h cfg attempts Hall.
    apply (Connect_refused_from attempts 0 (NewClient h cfg) Hall);
      reflexivity.
  - intros c c1 a err closed attempts Hmax Hd Hco Hne Hall.
    destruct (connectOnce_resets a c c1 err closed Hd Hco)
      as [Hdelay Hmax1].
    cbn [Connect]. rewrite Hco.
    rewrite Hmax in Hmax1.
    destruct (doubled_delay 0 c1 Hmax1 Hdelay) as [H2 H3].
    destruct (Connect_refused_from attempts 1 _ Hall H2 H3) as (c' & Hc').
    exists c'.
    destruct err; try congruence; rewrite Hc', Hdelay; reflexivity.
  - intros h cfg attempts.
    destruct (Connect Marshal Unmarshal reg attempts (NewClient h cfg))
      as [[waits c']|] eqn:E; [|exact I].
    apply (Connect_waits_from attempts 0 (NewClient h cfg) c' waits);
      [reflexivity|reflexivity|exact E].
Qed.

End Reconnect.

Section ReconnectExamples.

Import primeclient scenario.

(** The first nine waits, as the spec lists them. *)
Example backoff_nine :
  backoff 9 = (fun n => n * Second) <$> [1; 2; 4; 8; 16; 32; 60; 60; 60].
Proof. reflexivity. Qed.

(** Scenario S5 and its sequel: three dials fail, the fourth leads to a
    registered session that the controller ends, three more fail. *)
Example waits_around_a_session :
  (fun r => r.1)
    <$> (match Connect json.Marshal json.Unmarshal registry
                 [refused; refused; refused; session [ack; ping "c-1"];
                  refused; refused; refused] fresh with
         | Returns r => Some r
         | Panics _ => None
         end)
  = Some ((fun n => n * Second) <$> [1; 2; 4; 1; 2; 4; 8]).
Proof. vm_compute. reflexivity. Qed.

(** A dial that succeeds resets the delay even when the registration is
    then rejected: rejections in a row wait one second each. *)
Example waits_between_rejections :
  (fun r => r.1)
    <$> (match Connect json.Marshal json.Unmarshal registry
                 [session [nack]; session [nack]; session [nack]] fresh with
         | Returns r => Some r
         | Panics _ => None
         end)
  = Some ((fun n => n * Second) <$> [1; 1; 1]).
Proof. vm_compute. reflexivity. Qed.

(** C4 as stated fails for the failures that follow a dial: three
    registrations rejected in a row are followed by waits of one second
    each, not of one, two and four seconds. *)
Lemma rejected_registrations_do_not_back_off :
  (fun r => r.1)
    <$> (match Connect json.Marshal json.Unmarshal registry
                 (replicate 3 (session [nack])) fresh with
         | Returns r => Some r
         | Panics _ => None
         end)
  = Some [1 * Second; 1 * Second; 1 * Second]
  /\ backoff 3 = [1 * Second; 2 * Second; 4 * Second].
Proof. vm_compute. split; reflexivity. Qed.

(** Nine failed dials; and failed dials, a rejected registration and a
    session in turn. *)
Lemma Connect_waits_restart_at_dial_witness :
  (exists c',
     Connect json.Marshal json.Unmarshal registry (replicate 9 refused) fresh
     = Returns (backoff (length (replicate 9 refused)), c'))
  /\ match Connect json.Marshal json.Unmarshal registry
             [refused; refused; session [nack]; refused; refused;
              session [ack; ping "c-1"]; refused] fresh with
     | Returns (waits, _) =>
         waits
         = waits_by_dials 0
             (dialled <$> take (length waits)
                [refused; refused; session [nack]; refused; refused;
                 session [ack; ping "c-1"]; refused])
         /\ (length waits
             <= length [refused; refused; session [nack]; refused; refused;
                        session [ack; ping "c-1"]; refused])%nat
     | Panics _ => True
     end.
Proof.
  destruct (Connect_waits_restart_at_dial json.Marshal json.Unmarshal registry)
    as (H1 & _ & H3).
  split.
  - apply (H1 "macbook.local" config (replicate 9 refused)).
    repeat constructor.
  - apply (H3 "macbook.local" config).
Defined.

(** The waits of the second run. *)
Example waits_around_rejections_and_sessions :
  (fun r => r.1)
    <$> (match Connect json.Marshal json.Unmarshal registry
                 [refused; refused; session [nack]; refused; refused;
                  session [ack; ping "c-1"]; refused] fresh with
         | Returns r => Some r
         | Panics _ => None
         end)
  = Some ((fun n => n * Second) <$> [1; 2; 1; 2; 4; 1; 2]).
Proof. vm_compute. reflexivity. Qed.

End ReconnectExamples.

(** ** The heartbeat *)

Section Heartbeat.

Import primeclient.

Variable Marshal : Msg -> Res (list byte).

Lemma set_conn_set_conn (x y : option Conn) (c : Client) :
  set_conn x (set_conn y c) = set_conn x c.
Proof. reflexivity. Qed.

(** The client after the messages [msgs] have been sent, one after the
    other, on the connection [cn]. *)
Lemma after_send_cons (m : Msg) (msgs : list Msg) (cn : Conn) (c : Client) :
  writable cn = true ->
  set_conn
    (Some (mkConn (incoming cn)
             ((outgoing cn ++ wire Marshal m)
              ++ concat (wire Marshal <$> msgs)) true))
    (after_send Marshal m cn c)
  = set_conn
      (Some (mkConn (incoming cn)
               (outgoing cn ++ concat (wire Marshal <$> (m :: msgs))) true)) c.
Proof.
  intros Hw. unfold after_send. rewrite set_conn_set_conn.
  cbn [fmap list_fmap concat]. rewrite app_assoc. reflexivity.
Qed.

Lemma sendHeartbeat_fields (m : MemStats) (c : Client) (cn : Conn) :
  conn c = Some cn ->
  exists msg : Msg,
    heartbeat_fields (daemonID c) msg
    /\ sendHeartbeat Marshal m c = after_send Marshal msg cn c.
Proof.
  intros Hc. unfold sendHeartbeat. eexists. split.
  2: { rewrite (sendMessage_effect Marshal _ c cn Hc). reflexivity. }
  unfold heartbeat_fields, TypeHeartbeat.
  repeat split; try reflexivity; eexists; reflexivity.
Qed.

Lemma heartbeatLoop_from_spec (k : nat) (t0 : Z) (samples : list MemStats)
    (c : Client) (cn : Conn) :
  conn c = Some cn -> writable cn = true ->
  exists msgs : list Msg,
    length msgs = length samples
    /\ Forall (heartbeat_fields (daemonID c)) msgs
    /\ length (heartbeatLoop_from Marshal k t0 samples c) = length samples
    /\ forall (i : nat) (t : Z) (ci : Client),
         heartbeatLoop_from Marshal k t0 samples c !! i = Some (t, ci) ->
         t = Ticker heartbeatInterval t0 (k + i)
         /\ ci = set_conn
                   (Some (mkConn (incoming cn)
                            (outgoing cn
                             ++ concat (wire Marshal <$> take (S i) msgs))
                            true)) c.
Proof.
  revert k c cn. induction samples as [|m rest IH]; intros k c cn Hc Hw.
  - exists []. split; [reflexivity|]. split; [constructor|].
    split; [reflexivity|]. intros i t ci H. discriminate.
  - destruct (sendHeartbeat_fields m c cn Hc) as (msg & Hf & Hsend).
    cbn [heartbeatLoop_from]. rewrite Hsend.
    destruct (IH (S k) (after_send Marshal msg cn c)
                (mkConn (incoming cn)
                   (outgoing cn ++ if writable cn then wire Marshal msg else [])
                   (writable cn))
                eq_refl Hw)
      as (msgs & Hlen & Hall & Hlen' & Hi).
    exists (msg :: msgs). cbn [length]. rewrite Hlen, Hlen'.
    split; [reflexivity|]. split; [constructor; assumption|].
    split; [reflexivity|].
    intros [|i] t ci Hlook.
    + cbn in Hlook. injection Hlook as <- <-.
      split; [f_equal; lia|].
      unfold after_send. rewrite Hw. cbn [take fmap list_fmap concat].
      rewrite app_nil_r. reflexivity.
    + cbn [lookup list_lookup] in Hlook.
      destruct (Hi i t ci Hlook) as [-> ->].
      split; [f_equal; lia|].
      cbn [incoming outgoing]. rewrite Hw.
      change (take (S (S i)) (msg :: msgs)) with (msg :: take (S i) msgs).
      apply after_send_cons. exact Hw.
Qed.

(** [heartbeatLoop] on its own.  On a live connection, [heartbeatLoop]
    started at [t0] sends one message per tick: the [i]-th at
    [t0 + (i+1) * 30 s], so that consecutive ones are thirty seconds
    apart; each carries [type],
    [daemon_id], [cpu_percent], [memory_percent], [disk_percent] and
    [active_tasks]; after the [i]-th tick the bytes written are those of
    the first [i+1] heartbeats and nothing else has changed. *)
Theorem heartbeatLoop_cadence_and_fields (t0 : Z) (samples : list MemStats)
    (c : Client) (cn : Conn) :
  conn c = Some cn -> writable cn = true ->
  exists msgs : list Msg,
    length msgs = length samples
    /\ Forall (heartbeat_fields (DaemonID c)) msgs
    /\ length (heartbeatLoop Marshal t0 samples c) = length samples
    /\ (forall (i : nat) (t : Z) (ci : Client),
          heartbeatLoop Marshal t0 samples c !! i = Some (t, ci) ->
          t = t0 + (Z.of_nat i + 1) * (30 * Second)
          /\ ci = set_conn
                    (Some (mkConn (incoming cn)
                             (outgoing cn
                              ++ concat (wire Marshal <$> take (S i) msgs))
                             true)) c)
    /\ (forall (i : nat) (t t' : Z) (ci ci' : Client),
          heartbeatLoop Marshal t0 samples c !! i = Some (t, ci) ->
          heartbeatLoop Marshal t0 samples c !! S i = Some (t', ci') ->
          t' - t = 30 * Second).
Proof.
  intros Hc Hw.
  destruct (heartbeatLoop_from_spec 0 t0 samples c cn Hc Hw)
    as (msgs & Hlen & Hall & Hlen' & Hi).
  exists msgs. split; [exact Hlen|]. split; [exact Hall|].
  split; [exact Hlen'|].
  assert (Hat : forall (i : nat) (t : Z) (ci : Client),
             heartbeatLoop Marshal t0 samples c !! i = Some (t, ci) ->
             t = t0 + (Z.of_nat i + 1) * (30 * Second)
             /\ ci = set_conn
                       (Some (mkConn (incoming cn)
                                (outgoing cn
                                 ++ concat (wire Marshal <$> take (S i) msgs))
                                true)) c).
  { intros i t ci Hl. destruct (Hi i t ci Hl) as [-> ->].
    split; reflexivity. }
  split; [exact Hat|].
  intros i t t' ci ci' H1 H2.
  destruct (Hat _ _ _ H1) as [-> _]. destruct (Hat _ _ _ H2) as [-> _].
  lia.
Qed.

End Heartbeat.

Section HeartbeatExamples.

Import primeclient scenario.

Lemma heartbeatLoop_witness :
  exists msgs : list Msg,
    length msgs = length [mkMemStats 1 2; mkMemStats 1 4]
    /\ Forall (heartbeat_fields (DaemonID (serving []))) msgs
    /\ length (heartbeatLoop json.Marshal noon
                 [mkMemStats 1 2; mkMemStats 1 4] (serving []))
       = length [mkMemStats 1 2; mkMemStats 1 4]
    /\ (forall (i : nat) (t : Z) (ci : Client),
          heartbeatLoop json.Marshal noon
            [mkMemStats 1 2; mkMemStats 1 4] (serving []) !! i = Some (t, ci) ->
          t = noon + (Z.of_nat i + 1) * (30 * Second)
          /\ ci = set_conn
                    (Some (mkConn (incoming (mkConn [] [] true))
                             (outgoing (mkConn [] [] true)
                              ++ concat (wire json.Marshal <$> take (S i) msgs))
                             true)) (serving []))
    /\ (forall (i : nat) (t t' : Z) (ci ci' : Client),
          heartbeatLoop json.Marshal noon
            [mkMemStats 1 2; mkMemStats 1 4] (serving []) !! i = Some (t, ci) ->
          heartbeatLoop json.Marshal noon
            [mkMemStats 1 2; mkMemStats 1 4] (serving []) !! S i
          = Some (t', ci') ->
          t' - t = 30 * Second).
Proof.
  apply (heartbeatLoop_cadence_and_fields json.Marshal noon
           [mkMemStats 1 2; mkMemStats 1 4] (serving []) (mkConn [] [] true)).
  - reflexivity.
  - reflexivity.
Defined.

(** The two heartbeats on the wire. *)
Example heartbeats_on_the_wire :
  (fun tc => (tc.1 - noon, outgoing <$> conn tc.2))
    <$> heartbeatLoop json.Marshal noon
          [mkMemStats 1 2; mkMemStats 1 4] (serving [])
  = let hb (mem : float) : Msg :=
      <["type" := VString "heartbeat"]>
      (<["daemon_id" := VString "d-1"]>
      (<["cpu_percent" := VFloat64 0%float]>
      (<["memory_percent" := VFloat64 mem]>
      (<["disk_percent" := VFloat64 0%float]>
      (<["active_tasks" := VInt 0]> ∅))))) in
    [ (30 * Second, Some (frame (payload (hb 50%float))));
      (60 * Second, Some (frame (payload (hb 50%float)) ++ frame (payload (hb 25%float)))) ].
Proof. vm_compute. reflexivity. Qed.

End HeartbeatExamples.

(** ** The heartbeat of a session *)

Section Serving.

Import primeclient.

Variable Marshal : Msg -> Res (list byte).
Variable Unmarshal : list byte -> Res Msg.
Variable reg : handlers.Registry.











(** The heartbeats change nothing but what is written on the
    connection. *)
Lemma unwritten_set_conn (cn : Conn) (c : Client) :
  unwritten (set_conn (Some cn) c)
  = set_conn (Some (mkConn (incoming cn) [] (writable cn))) c.
Proof. reflexivity. Qed.

Lemma sendMessage_unwritten (msg : Msg) (c : Client) :
  unwritten (sendMessage Marshal msg c).2 = unwritten c.
Proof.
  destruct (conn c) as [cn|] eqn:Hc.
  - rewrite (sendMessage_effect Marshal msg c cn Hc).
    rewrite unwritten_set_conn. unfold unwritten. rewrite Hc. reflexivity.
  - unfold sendMessage. rewrite Hc. reflexivity.
Qed.

Lemma readMessage_unwritten (c c' : Client) :
  unwritten c = unwritten c' ->
  (readMessage Unmarshal c).1 = (readMessage Unmarshal c').1
  /\ unwritten (readMessage Unmarshal c).2
     = unwritten (readMessage Unmarshal c').2.
Proof.
  intros H. unfold readMessage.
  destruct c as [a1 a2 a3 a4 a5 a6 a7 [cn|] a9 a10 a11],
           c' as [b1 b2 b3 b4 b5 b6 b7 [cn'|] b9 b10 b11];
    cbn in H; try discriminate; cbn [conn].
  - injection H as -> -> -> -> -> -> -> Hinc Hw -> -> ->.
    rewrite Hinc, Hw.
    destruct (ReadFull 4 _) as [[lengthBuf|] r1]; [|split; reflexivity].
    destruct (ReadFull _ r1) as [[data|] r2]; [|split; reflexivity].
    destruct (Unmarshal data); split; reflexivity.
  - split; [reflexivity|exact H].
Qed.

Lemma handleMessage_unwritten (msg : Msg) (c c' : Client) :
  unwritten c = unwritten c' ->
  match handleMessage Marshal reg msg c with
  | Returns c2 =>
      exists c2', handleMessage Marshal reg msg c' = Returns c2'
                  /\ unwritten c2 = unwritten c2'
  | Panics reason => handleMessage Marshal reg msg c' = Panics reason
  end.
Proof.
  intros H. unfold handleMessage.
  destruct (handlers.Handle reg _ msg) as [[res|]|]; try reflexivity.
  eexists. split; [reflexivity|].
  rewrite !sendMessage_unwritten. exact H.
Qed.

Lemma after_beats_unwritten (samples : list MemStats) (k : nat) (t0 : Z)
    (c : Client) :
  unwritten (after_beats (heartbeatLoop_from Marshal k t0 samples c) c)
  = unwritten c.
Proof.
  apply (after_beats_keeps Marshal (fun c' => unwritten c' = unwritten c));
    [|reflexivity].
  intros m c' Hc'. unfold sendHeartbeat. rewrite sendMessage_unwritten.
  exact Hc'.
Qed.

Lemma serve_simulates (pace : nat -> Z) (memory : nat -> MemStats) (ctx : nat) :
  forall (turn : nat) (now : Z) (c c' : Client),
    unwritten c = unwritten c' ->
    (serve Marshal Unmarshal reg pace memory ctx turn now c).2
    = match messageLoop Marshal Unmarshal reg ctx c' with
      | Returns (err, _) => Returns err
      | Panics reason => Panics reason
      end.
Proof.
  induction ctx as [|ctx IH]; intros turn now c c' H; [reflexivity|].
  cbn [serve messageLoop].
  assert (Hconn : conn c = None <-> conn c' = None).
  { destruct c as [a1 a2 a3 a4 a5 a6 a7 [cn|] a9 a10 a11],
             c' as [b1 b2 b3 b4 b5 b6 b7 [cn'|] b9 b10 b11];
      cbn in H |- *; try discriminate; intuition congruence. }
  destruct (conn c) as [cn|], (conn c') as [cn'|];
    try reflexivity; try (exfalso; intuition congruence).
  destruct (readMessage_unwritten c c' H) as [Hr H1].
  destruct (readMessage Unmarshal c) as [r c1],
           (readMessage Unmarshal c') as [r' c1'].
  cbn [fst snd] in Hr, H1. subst r'.
  set (until := now + blocked (pace turn) r).
  set (beats := heartbeatLoop_from Marshal (due now) 0
                  (memory <$> seq (due now) (due until - due now)) c1).
  assert (Hb : unwritten (after_beats beats c1) = unwritten c1')
    by (unfold beats; rewrite after_beats_unwritten; exact H1).
  assert (Hgo : forall c2 c2',
            unwritten c2 = unwritten c2' ->
            (let '(more, teardown, c3, how) :=
               serve Marshal Unmarshal reg pace memory ctx (S turn) until c2 in
             (beats ++ more, teardown, c3, how)).2
            = match messageLoop Marshal Unmarshal reg ctx c2' with
              | Returns (err, _) => Returns err
              | Panics reason => Panics reason
              end).
  { intros c2 c2' H2. rewrite <- (IH (S turn) until c2 c2' H2).
    destruct (serve Marshal Unmarshal reg pace memory ctx (S turn) until c2)
      as [[[more teardown] c3] how]. reflexivity. }
  destruct r as [msg|e].
  - pose proof (handleMessage_unwritten msg _ _ Hb) as Hh.
    destruct (handleMessage Marshal reg msg (after_beats beats c1)) as [c2|].
    + destruct Hh as (c2' & -> & H2). exact (Hgo c2 c2' H2).
    + rewrite Hh. reflexivity.
  - destruct e; try reflexivity. exact (Hgo _ _ Hb).
Qed.

(** The session ends as [messageLoop] alone does: the heartbeats change
    nothing but what is written on the connection. *)
Lemma serve_ends_as_messageLoop (pace : nat -> Z) (memory : nat -> MemStats)
    (ctx turn : nat) (now : Z) (c : Client) :
  (serve Marshal Unmarshal reg pace memory ctx turn now c).2
  = match messageLoop Marshal Unmarshal reg ctx c with
    | Returns (err, _) => Returns err
    | Panics reason => Panics reason
    end.
Proof. apply serve_simulates. reflexivity. Qed.

End Serving.

Section ServingExamples.

Import primeclient scenario.


(** During the two minutes of silence and the twenty seconds that
    follow, four heartbeats leave, at 30, 60, 90 and 120 seconds; the
    connection is closed at 140 seconds. *)
Example heartbeats_of_a_quiet_session :
  match serve json.Marshal json.Unmarshal registry
          (pace quiet) (memory quiet) (ctx quiet) 0 0 quiet_registered with
  | (beats, teardown, c2, how) => (beats.*1, teardown, how, written c2)
  end
  = ((fun n => n * Second) <$> [30; 60; 90; 120],
     140 * Second,
     Returns (Errorf "connection closed"),
     frame (payload (registration fresh))
     ++ frame (payload (heartbeat 25%float))
     ++ frame (payload (heartbeat 25%float))
     ++ frame (payload (heartbeat 25%float))
     ++ frame (payload (heartbeat 25%float))
     ++ frame (payload
          (<["type" := VString "result"]>
           (<["daemon_id" := VString "d-1"]>
            (<["command_id" := VString "c-1"]> pong))))).
Proof. vm_compute. reflexivity. Qed.

(** What [connectOnce] has written when it returns. *)
Example quiet_session_on_the_wire :
  match connectOnce json.Marshal json.Unmarshal registry quiet fresh with
  | Returns (err, _, Some closed) => Some (err, outgoing closed)
  | _ => None
  end
  = Some (Errorf "connection closed",
          frame (payload (registration fresh))
          ++ frame (payload (heartbeat 25%float))
          ++ frame (payload (heartbeat 25%float))
          ++ frame (payload (heartbeat 25%float))
          ++ frame (payload (heartbeat 25%float))
          ++ frame (payload
               (<["type" := VString "result"]>
                (<["daemon_id" := VString "d-1"]>
                 (<["command_id" := VString "c-1"]> pong))))).
Proof. vm_compute. reflexivity. Qed.

End ServingExamples.

(** ** The resource monitor *)

Section Monitor.

Import emitters.

(** C7, where the code breaks it.  [check] reads no processor
    statistics: whatever the load, the events of one tick are of the
    types [memory_high] and [disk_high] only, and both the events and
    the monitor's next state are the same for every load.  No [cpu_high]
    event is ever emitted, and [lastCPUAlert] is never set. *)
Theorem check_never_reports_cpu (p : Probe) (r : ResourceMonitor) :
  Forall (fun e => Type_ e = "memory_high" \/ Type_ e = "disk_high")
         (check p r).1
  /\ lastCPUAlert (check p r).2 = lastCPUAlert r
  /\ (forall busy : float,
        check (mkProbe (now p) busy (memStats p) (statfs p)) r = check p r).
Proof.
  split; [|split].
  - unfold check.
    destruct (_ && _); destruct (statfs p) as [st|];
      cbv zeta beta iota; try destruct (_ && _); cbn [fst app];
      repeat (apply List.Forall_cons;
              [first [left; reflexivity | right; reflexivity]|]);
      apply List.Forall_nil.
  - unfold check.
    destruct (_ && _); destruct (statfs p) as [st|];
      cbv zeta beta iota; try destruct (_ && _); reflexivity.
  - intros busy. reflexivity.
Qed.

Lemma Time_Sub_gt (t u gap : Z) :
  0 <= gap -> (gap <? Time_Sub t u) = true -> gap < t - u.
Proof.
  intros Hgap H. apply Z.ltb_lt in H. unfold Time_Sub in H.
  unfold maxInt64, minInt64 in H.
  destruct (Z.ltb_spec (2 ^ 63 - 1) (t - u)); [lia|].
  destruct (Z.ltb_spec (t - u) (- 2 ^ 63)); lia.
Qed.

Lemma check_inv (p : Probe) (r : ResourceMonitor) :
  0 <= alertCooldown r -> run_inv r (check p r).1 (check p r).2.
Proof.
  intros Hcd. unfold check, run_inv.
  destruct (PrimFloat.ltb (memThreshold r)
              (percent (Alloc (memStats p)) (Sys (memStats p)))
            && (alertCooldown r <? Time_Sub (now p) (lastMemAlert r))) eqn:Hm;
    cbv zeta beta iota;
    (destruct (statfs p) as [st|];
     [cbn [diskThreshold alertCooldown lastDiskAlert set_lastMemAlert];
      match goal with |- context [?a && (?g <? Time_Sub ?t ?u)] =>
        destruct (a && (g <? Time_Sub t u)) eqn:Hd end|]);
    cbn [fst snd app alertCooldown lastMemAlert lastDiskAlert
         set_lastMemAlert set_lastDiskAlert separated Type_ Timestamp];
    try (apply andb_true_iff in Hm; destruct Hm as [_ Hm];
         apply Time_Sub_gt in Hm; [|exact Hcd]);
    try (apply andb_true_iff in Hd; destruct Hd as [_ Hd];
         apply Time_Sub_gt in Hd; [|exact Hcd]);
    (split; [reflexivity|]); (split; [lia|]); (split; [lia|]);
    (split;
     [repeat (apply List.Forall_cons;
              [first [left; split; [reflexivity|cbn [Timestamp]; lia]
                     | right; split; [reflexivity|cbn [Timestamp]; lia]]|]);
      apply List.Forall_nil
     |repeat split;
      repeat first [apply List.Forall_nil
                   |apply List.Forall_cons; [cbn [Type_]; discriminate|]]]).
Qed.

Lemma separated_app (gap : Z) (l1 l2 : list Event) :
  separated gap l1 -> separated gap l2 ->
  (forall e1 e2, e1 ∈ l1 -> e2 ∈ l2 -> Type_ e2 = Type_ e1 ->
                 gap < Timestamp e2 - Timestamp e1) ->
  separated gap (l1 ++ l2).
Proof.
  induction l1 as [|e l1 IH]; intros H1 H2 Hx; [exact H2|].
  destruct H1 as [Hall Hsep]. cbn [app separated]. split.
  - apply Forall_app. split; [exact Hall|].
    apply Forall_forall. intros e2 He2. apply Hx; [left|exact He2].
  - apply IH; [exact Hsep|exact H2|].
    intros e1 e2 He1 He2. apply Hx; [right; exact He1|exact He2].
Qed.

Lemma run_inv_app (r r1 r2 : ResourceMonitor) (l1 l2 : list Event) :
  0 <= alertCooldown r ->
  run_inv r l1 r1 -> run_inv r1 l2 r2 -> run_inv r (l1 ++ l2) r2.
Proof.
  intros Hcd (Hc1 & Hm1 & Hd1 & Hall1 & Hsep1) (Hc2 & Hm2 & Hd2 & Hall2 & Hsep2).
  rewrite Hc1 in *. unfold run_inv.
  split; [congruence|]. split; [lia|]. split; [lia|]. split.
  - apply Forall_app. split.
    + eapply Forall_impl; [exact Hall1|]. cbv beta.
      intros e [[T B]|[T B]]; [left|right]; (split; [exact T|lia]).
    + eapply Forall_impl; [exact Hall2|]. cbv beta.
      intros e [[T B]|[T B]]; [left|right]; (split; [exact T|lia]).
  - apply separated_app; [exact Hsep1|exact Hsep2|].
    intros e1 e2 He1 He2 Hty.
    rewrite Forall_forall in Hall1, Hall2.
    specialize (Hall1 _ He1). specialize (Hall2 _ He2).
    destruct Hall1 as [[T1 B1]|[T1 B1]], Hall2 as [[T2 B2]|[T2 B2]];
      rewrite T1, T2 in Hty; try discriminate; lia.
Qed.

Lemma ticks_inv (probes : list Probe) (r : ResourceMonitor) :
  0 <= alertCooldown r -> run_inv r (ticks probes r).1 (ticks probes r).2.
Proof.
  revert r. induction probes as [|p rest IH]; intros r Hcd.
  - unfold run_inv. cbn. repeat split; auto; lia.
  - cbn [ticks]. pose proof (check_inv p r Hcd) as H1.
    destruct (check p r) as [evs r1]. cbn [fst snd] in H1.
    assert (Hcd1 : 0 <= alertCooldown r1).
    { destruct H1 as [-> _]. exact Hcd. }
    pose proof (IH r1 Hcd1) as H2.
    destruct (ticks rest r1) as [evs' r2]. cbn [fst snd] in *.
    exact (run_inv_app r r1 r2 evs evs' Hcd H1 H2).
Qed.

Lemma separated_lookup (gap : Z) (evs : list Event) (i j : nat)
    (e1 e2 : Event) :
  separated gap evs -> (i < j)%nat ->
  evs !! i = Some e1 -> evs !! j = Some e2 -> Type_ e1 = Type_ e2 ->
  gap < Timestamp e2 - Timestamp e1.
Proof.
  revert i j. induction evs as [|e evs IH]; intros i j Hsep Hij H1 H2 Hty.
  - discriminate.
  - destruct Hsep as [Hall Hsep]. destruct j as [|j]; [lia|].
    cbn [lookup list_lookup] in H2. destruct i as [|i].
    + cbn in H1. injection H1 as ->.
      rewrite Forall_forall in Hall.
      apply Hall; [|congruence].
      apply list_elem_of_lookup. eauto.
    + cbn [lookup list_lookup] in H1.
      apply (IH i j Hsep ltac:(lia) H1 H2 Hty).
Qed.

(** C8.  Over any run of ticks, whatever is observed at each of them,
    two events of the same type lie more than the cooldown apart: once
    an event of a kind is out, none of that kind follows until the
    cooldown has elapsed. *)
Theorem cooldown_separates_events (probes : list Probe) (r : ResourceMonitor)
    (i j : nat) (e1 e2 : Event) :
  0 <= alertCooldown r ->
  (i < j)%nat ->
  (Start probes r).1 !! i = Some e1 ->
  (Start probes r).1 !! j = Some e2 ->
  Type_ e1 = Type_ e2 ->
  alertCooldown r < Timestamp e2 - Timestamp e1.
Proof.
  intros Hcd Hij H1 H2 Hty. unfold Start in *.
  destruct (ticks_inv probes (set_running true r) Hcd)
    as (_ & _ & _ & _ & Hsep).
  exact (separated_lookup _ _ i j e1 e2 Hsep Hij H1 H2 Hty).
Qed.

End Monitor.

Section MonitorExamples.

Import emitters scenario.

(** The failing input of C7: processors 95 percent busy, above the 80
    percent of [cpuThreshold]; the tick emits nothing and changes
    nothing. *)
Example busy_machine_is_not_reported :
  check (busy_machine noon) (NewResourceMonitor "macbook")
  = ([], NewResourceMonitor "macbook").
Proof. vm_compute. reflexivity. Qed.

(** The two kinds that [check] does look at are reported: when the
    sampled share exceeds the threshold and the last alert of the kind
    lies more than the cooldown back, the tick emits the event with the
    instant of the tick and records that instant. *)
Lemma check_reports_memory (p : Probe) (r : ResourceMonitor) :
  PrimFloat.ltb (memThreshold r)
    (percent (Alloc (memStats p)) (Sys (memStats p))) = true ->
  alertCooldown r < Time_Sub (now p) (lastMemAlert r) ->
  exists e rest,
    (check p r).1 = e :: rest
    /\ Type_ e = "memory_high" /\ Timestamp e = now p
    /\ Source e = String.append "daemon:" (daemonName r)
    /\ lastMemAlert (check p r).2 = now p.
Proof.
  intros Hth Hcd. apply Z.ltb_lt in Hcd. unfold check. rewrite Hth, Hcd.
  cbn [andb]. cbv zeta beta iota.
  destruct (statfs p) as [st|]; [|eexists; eexists; repeat split].
  match goal with |- context [if ?b then _ else _] => destruct b end;
    eexists; eexists; repeat split.
Qed.

Lemma check_reports_disk (p : Probe) (r : ResourceMonitor) (st : Statfs_t) :
  statfs p = Some st ->
  PrimFloat.ltb (diskThreshold r)
    (percent (uint64 (uint64 (Blocks st * uint64 (Bsize st))
                      - uint64 (Bfree st * uint64 (Bsize st))))
             (uint64 (Blocks st * uint64 (Bsize st)))) = true ->
  alertCooldown r < Time_Sub (now p) (lastDiskAlert r) ->
  exists e front,
    (check p r).1 = front ++ [e]
    /\ Type_ e = "disk_high" /\ Timestamp e = now p
    /\ Source e = String.append "daemon:" (daemonName r)
    /\ lastDiskAlert (check p r).2 = now p.
Proof.
  intros Hst Hth Hcd. apply Z.ltb_lt in Hcd. unfold check. rewrite Hst.
  destruct (PrimFloat.ltb (memThreshold r) _ && _);
    cbv zeta beta iota;
    cbn [diskThreshold alertCooldown lastDiskAlert set_lastMemAlert];
    rewrite Hth, Hcd; cbn [andb]; eexists; eexists; repeat split.
Qed.

(** Memory full for twelve ticks, thirty seconds apart: the first tick
    alerts, the next ten fall within the five minutes, the twelfth
    alerts again. *)
Example full_memory_alerts :
  (Start (full_for 12) (NewResourceMonitor "macbook")).1
  = [memory_alert noon; memory_alert (noon + 330 * Second)].
Proof. vm_compute. reflexivity. Qed.

Lemma cooldown_separates_events_witness :
  alertCooldown (NewResourceMonitor "macbook")
  < Timestamp (memory_alert (noon + 330 * Second))
    - Timestamp (memory_alert noon).
Proof.
  apply (cooldown_separates_events (full_for 12) (NewResourceMonitor "macbook")
           0 1 (memory_alert noon) (memory_alert (noon + 330 * Second))).
  - vm_compute. discriminate.
  - lia.
  - vm_compute. reflexivity.
  - vm_compute. reflexivity.
  - reflexivity.
Defined.

Lemma check_reports_memory_witness :
  exists e rest,
    (check (full_memory noon) (NewResourceMonitor "macbook")).1 = e :: rest
    /\ Type_ e = "memory_high" /\ Timestamp e = now (full_memory noon)
    /\ Source e
       = String.append "daemon:" (daemonName (NewResourceMonitor "macbook"))
    /\ lastMemAlert (check (full_memory noon) (NewResourceMonitor "macbook")).2
       = now (full_memory noon).
Proof.
  apply (check_reports_memory (full_memory noon) (NewResourceMonitor "macbook")).
  - vm_compute. reflexivity.
  - vm_compute. reflexivity.
Defined.

Lemma check_reports_disk_witness :
  exists e front,
    (check (full_disk noon) (NewResourceMonitor "macbook")).1 = front ++ [e]
    /\ Type_ e = "disk_high" /\ Timestamp e = now (full_disk noon)
    /\ Source e
       = String.append "daemon:" (daemonName (NewResourceMonitor "macbook"))
    /\ lastDiskAlert (check (full_disk noon) (NewResourceMonitor "macbook")).2
       = now (full_disk noon).
Proof.
  apply (check_reports_disk (full_disk noon) (NewResourceMonitor "macbook")
           (mkStatfs 1000 50 4096)).
  - reflexivity.
  - vm_compute. reflexivity.
  - vm_compute. reflexivity.
Defined.

End MonitorExamples.

(** ** The configuration *)

Section Configuration.

Import config.

Lemma Split_sep_nonempty (sep : Ascii.ascii) (s : string) :
  Split_sep sep s <> [].
Proof.
  destruct s as [|ch s]; cbn; [discriminate|].
  destruct (Ascii.eqb ch sep); [discriminate|].
  destruct (Split_sep sep s); discriminate.
Qed.

Lemma append_nil_l (s : string) : String.append "" s = s.
Proof. reflexivity. Qed.

Lemma append_cons_l (ch : Ascii.ascii) (s t : string) :
  String.append (String ch s) t = String ch (String.append s t).
Proof. reflexivity. Qed.

(** Joining what [strings.Split] returns with the separator gives the
    string back. *)
Lemma Join_Split_sep (sep : Ascii.ascii) (s : string) :
  Join (Split_sep sep s) (String sep EmptyString) = s.
Proof.
  unfold Join. induction s as [|ch s IH]; [reflexivity|].
  cbn [Split_sep]. destruct (Ascii.eqb ch sep) eqn:E.
  - apply Ascii.eqb_eq in E. subst ch.
    pose proof (Split_sep_nonempty sep s) as Hne.
    destruct (Split_sep sep s) as [|h t]; [congruence|].
    cbn [String.concat] in *.
    rewrite append_nil_l, append_cons_l, append_nil_l. f_equal. exact IH.
  - pose proof (Split_sep_nonempty sep s) as Hne.
    destruct (Split_sep sep s) as [|h t]; [congruence|].
    cbn [String.concat] in *.
    destruct t; rewrite ?append_cons_l; f_equal; exact IH.
Qed.

Lemma Split_sep_free (sep : Ascii.ascii) (s : string) :
  Forall (fun part => ~ has_byte sep part) (Split_sep sep s).
Proof.
  induction s as [|ch s IH]; cbn [Split_sep].
  - constructor; [|constructor]. intros [].
  - destruct (Ascii.eqb ch sep) eqn:E.
    + constructor; [intros []|exact IH].
    + apply Ascii.eqb_neq in E.
      destruct (Split_sep sep s) as [|h t].
      * constructor; [|constructor]. intros [H|[]]. congruence.
      * inversion IH as [|? ? Hh Ht]; subst. constructor; [|exact Ht].
        intros [H|H]; [congruence|]. exact (Hh H).
Qed.

Lemma getenv_set (env : gmap string string) (key v : string) :
  env !! key = Some v -> v <> "" ->
  Getenv env key = v /\ negb (String.eqb (Getenv env key) "") = true.
Proof.
  intros H Hv. unfold Getenv. rewrite H. cbn. split; [reflexivity|].
  apply negb_true_iff, String.eqb_neq. exact Hv.
Qed.

(** A list variable that is set and not empty is cut at its commas:
    joining the parts with commas gives the value back, no part holds a
    comma, and there is at least one part (empty parts are kept). *)
Theorem getEnvSlice_round_trip (env : gmap string string) (key v : string)
    (defaultValue : list string) :
  env !! key = Some v -> v <> "" ->
  Join (getEnvSlice env key defaultValue) "," = v
  /\ Forall (fun part => ~ has_byte comma part)
       (getEnvSlice env key defaultValue)
  /\ getEnvSlice env key defaultValue <> [].
Proof.
  intros H Hv. unfold getEnvSlice.
  destruct (getenv_set env key v H Hv) as [-> ->].
  split; [apply (Join_Split_sep comma)|].
  split; [apply Split_sep_free|apply Split_sep_nonempty].
Qed.

Lemma getEnv_unset (env : gmap string string) (key d : string) :
  Getenv env key = "" -> getEnv env key d = d.
Proof. intros H. unfold getEnv. rewrite H. reflexivity. Qed.

(** In an environment where none of the nine variables holds a
    non-empty value, [Load] returns the defaults, whatever the path of
    the configuration file: the name is the host name, the ten default
    capabilities, [localhost:50051], no key, not a soul daemon. *)
Theorem Load_defaults (os_hostname : string) (env : gmap string string)
    (configPath : string) :
  Forall (fun key => Getenv env key = "")
    ["DAEMON_NAME"; "DAEMON_CAPABILITIES"; "PRIME_ADDRESS"; "PRIME_URL";
     "DAEMON_REGISTRATION_KEY"; "DAEMON_TLS_CERT"; "DAEMON_TLS_KEY";
     "DAEMON_IS_SOUL"; "ALFRED_ROOT"] ->
  Load os_hostname env configPath
  = Ok (mkConfig os_hostname os_hostname
          ["shell"; "files"; "docker"; "services"; "git"; "network";
           "process"; "package"; "cron"; "session"]
          "localhost:50051" "http://localhost:8000" "" "" "" false "" "").
Proof.
  intros H.
  repeat match type of H with
         | Forall _ (_ :: _) =>
             let H1 := fresh "E" in
             apply Forall_cons_1 in H; destruct H as [H1 H]
         end.
  unfold Load, getEnvSlice, getEnvBool.
  rewrite !getEnv_unset by assumption.
  rewrite E0, E6. reflexivity.
Qed.

Lemma ToLower_nonempty (s : string) : s <> "" -> ToLower s <> "".
Proof. destruct s; [congruence|discriminate]. Qed.

(** When [DAEMON_IS_SOUL] is [true], [1] or [yes] in any mix of
    upper and lower case, the configuration is that of a soul daemon
    and its capabilities are those of the environment (or the defaults)
    followed by [soul] and [self-modify]; with any other non-empty
    value it is not, and nothing is added. *)
Theorem Load_soul (os_hostname : string) (env : gmap string string)
    (configPath v : string) :
  env !! "DAEMON_IS_SOUL" = Some v -> v <> "" ->
  exists cfg,
    Load os_hostname env configPath = Ok cfg
    /\ (ToLower v = "true" \/ ToLower v = "1" \/ ToLower v = "yes" ->
        IsSoulDaemon cfg = true
        /\ Capabilities cfg
           = getEnvSlice env "DAEMON_CAPABILITIES" defaultCaps
             ++ ["soul"; "self-modify"])
    /\ (ToLower v <> "true" -> ToLower v <> "1" -> ToLower v <> "yes" ->
        IsSoulDaemon cfg = false
        /\ Capabilities cfg
           = getEnvSlice env "DAEMON_CAPABILITIES" defaultCaps).
Proof.
  intros H Hv. unfold Load. eexists. split; [reflexivity|].
  unfold getEnvBool.
  destruct (getenv_set env _ v H Hv) as [-> ->].
  split.
  - intros Ht.
    assert (E : String.eqb (ToLower v) "true" || String.eqb (ToLower v) "1"
                || String.eqb (ToLower v) "yes" = true).
    { destruct Ht as [->|[->| ->]]; reflexivity. }
    cbn [IsSoulDaemon]. rewrite E. cbn. auto.
  - intros H1 H2 H3.
    apply String.eqb_neq in H1, H2, H3.
    cbn [IsSoulDaemon]. rewrite H1, H2, H3. cbn. auto.
Qed.

End Configuration.

(** ** The executor: reading a file by offset and limit *)

Section ExecutorRead.

Import executor.

Variable Abs : string -> Res string.
Variable Open : string -> Res (list byte).
Variable maxbytes : Z.

Lemma int64_small (z : Z) : minInt64 <= z <= maxInt64 -> int64 z = z.
Proof.
  unfold int64, minInt64, maxInt64. intros H.
  rewrite Z.mod_small by lia. lia.
Qed.

(** Whatever [io.ReadFull] reports on a regular file, the call returns
    what was read. *)
Lemma ReadFull_let_through (data : list byte) (position : Z) (n : nat)
    (size : Z) :
  match os.ReadFull data position n with
  | (content, None)
  | (content, Some EOF)
  | (content, Some ErrUnexpectedEOF) =>
      Returns (Ok (content, size))
  | (_, Some err) =>
      Returns (Err (Wrapf "failed to read file: " err))
  end
  = Returns (Ok (take n (drop (Z.to_nat position) data), size)).
Proof.
  unfold os.ReadFull.
  destruct (length (take n (drop (Z.to_nat position) data)) <? n)%nat;
    [|reflexivity].
  destruct (take n (drop (Z.to_nat position) data)); reflexivity.
Qed.

(** Inside the file the size of the buffer is what is left of the
    file, or the limit when that is positive and smaller. *)
Lemma ReadFileWithOffsets_inside
    (path absPath : string) (data : list byte) (offset limit : Z) :
  Abs path = Ok absPath -> Open absPath = Ok data ->
  Z.of_nat (length data) <= maxAlloc ->
  0 <= offset <= Z.of_nat (length data) ->
  ReadFileWithOffsets Abs Open maxbytes path offset limit
  = Returns (Ok (if 0 <? limit
                 then take (Z.to_nat limit) (drop (Z.to_nat offset) data)
                 else drop (Z.to_nat offset) data,
                 Z.of_nat (length data))).
Proof.
  intros Ha Ho Hsize Hoff.
  assert (Hmax : maxAlloc = 2 ^ 48) by reflexivity.
  unfold ReadFileWithOffsets. rewrite Ha, Ho. cbn [os.Stat].
  rewrite int64_small by (unfold minInt64, maxInt64; lia).
  assert (Hpos : (if 0 <? offset
                  then os.Seek maxbytes absPath data offset
                  else Ok 0) = Ok offset).
  { unfold os.Seek. destruct (Z.ltb_spec 0 offset); [|f_equal; lia].
    destruct (Z.ltb_spec (Z.of_nat (length data)) offset); [lia|reflexivity]. }
  rewrite Hpos.
  assert (Hlen : length (drop (Z.to_nat offset) data)
                 = Z.to_nat (Z.of_nat (length data) - offset)).
  { rewrite length_drop. lia. }
  destruct (Z.ltb_spec 0 limit) as [Hl|Hl]; cbn [andb].
  - destruct (Z.ltb_spec limit (Z.of_nat (length data) - offset)) as [Hr|Hr].
    + destruct (Z.ltb_spec limit 0); [lia|].
      destruct (Z.ltb_spec maxAlloc limit); [lia|]. cbn [orb].
      apply ReadFull_let_through.
    + destruct (Z.ltb_spec (Z.of_nat (length data) - offset) 0); [lia|].
      destruct (Z.ltb_spec maxAlloc (Z.of_nat (length data) - offset));
        [lia|].
      cbn [orb]. rewrite ReadFull_let_through. do 3 f_equal.
      rewrite !take_ge by lia. reflexivity.
  - destruct (Z.ltb_spec (Z.of_nat (length data) - offset) 0); [lia|].
    destruct (Z.ltb_spec maxAlloc (Z.of_nat (length data) - offset));
      [lia|].
    cbn [orb]. rewrite ReadFull_let_through. do 3 f_equal. apply take_ge. lia.
Qed.

(** For an offset inside the file (or at its end) the call returns
    the bytes from the offset on, at most [limit] of them when the limit
    is positive, together with the size of the file; [ReadFile] returns
    the whole file. *)
Theorem ReadFileWithOffsets_window
    (path absPath : string) (data : list byte) (offset limit : Z) :
  Abs path = Ok absPath -> Open absPath = Ok data ->
  Z.of_nat (length data) <= maxAlloc ->
  0 <= offset <= Z.of_nat (length data) ->
  ReadFileWithOffsets Abs Open maxbytes path offset limit
  = Returns (Ok (if 0 <? limit
                 then take (Z.to_nat limit) (drop (Z.to_nat offset) data)
                 else drop (Z.to_nat offset) data,
                 Z.of_nat (length data)))
  /\ ReadFile Abs Open maxbytes path = Returns (Ok data).
Proof.
  intros Ha Ho Hsize Hoff.
  split; [apply (ReadFileWithOffsets_inside path absPath); assumption|].
  unfold ReadFile.
  rewrite (ReadFileWithOffsets_inside path absPath data 0 0) by (auto; lia).
  reflexivity.
Qed.

(** Reading [limit] bytes at an offset and then the rest from where
    that read stopped gives, one after the other, what a single read
    from the offset gives: a file can be fetched in pieces. *)
Theorem ReadFileWithOffsets_pieces
    (path absPath : string) (data : list byte) (offset limit : Z) :
  Abs path = Ok absPath -> Open absPath = Ok data ->
  Z.of_nat (length data) <= maxAlloc ->
  0 <= offset <= Z.of_nat (length data) -> 0 < limit ->
  exists first rest all,
    ReadFileWithOffsets Abs Open maxbytes path offset limit
      = Returns (Ok (first, Z.of_nat (length data)))
    /\ ReadFileWithOffsets Abs Open maxbytes path
         (offset + Z.of_nat (length first)) 0
       = Returns (Ok (rest, Z.of_nat (length data)))
    /\ ReadFileWithOffsets Abs Open maxbytes path offset 0
       = Returns (Ok (all, Z.of_nat (length data)))
    /\ first ++ rest = all
    /\ Z.of_nat (length first)
       = Z.min limit (Z.of_nat (length data) - offset).
Proof.
  intros Ha Ho Hsize Hoff Hlim.
  set (first := take (Z.to_nat limit) (drop (Z.to_nat offset) data)).
  assert (Hlen : Z.of_nat (length first)
                 = Z.min limit (Z.of_nat (length data) - offset)).
  { unfold first. rewrite length_take, length_drop. lia. }
  exists first, (drop (Z.to_nat (offset + Z.of_nat (length first))) data),
         (drop (Z.to_nat offset) data).
  pose proof (ReadFileWithOffsets_inside path absPath data offset limit
                Ha Ho Hsize Hoff) as H1.
  pose proof (ReadFileWithOffsets_inside path absPath data offset 0
                Ha Ho Hsize Hoff) as H3.
  assert (Hoff2 : 0 <= offset + Z.of_nat (length first)
                  <= Z.of_nat (length data)) by lia.
  pose proof (ReadFileWithOffsets_inside path absPath data _ 0
                Ha Ho Hsize Hoff2) as H2.
  rewrite H1, H2, H3.
  destruct (Z.ltb_spec 0 limit); [|lia]. cbn.
  repeat split; try exact Hlen.
  replace (Z.to_nat (offset + Z.of_nat (length first)))
    with (Z.to_nat offset + length first)%nat by lia.
  rewrite <- drop_drop.
  unfold first at 1.
  rewrite <- (take_drop (Z.to_nat limit) (drop (Z.to_nat offset) data)) at 3.
  f_equal.
  set (l := drop (Z.to_nat offset) data) in *.
  destruct (Nat.le_gt_cases (Z.to_nat limit) (length l)) as [Hle|Hgt].
  - f_equal. unfold first. rewrite length_take. lia.
  - rewrite (drop_ge l (Z.to_nat limit)) by lia.
    apply drop_ge. unfold first. rewrite length_take. lia.
Qed.

(** An offset beyond the end of the file: where the file system still
    accepts it, the seek succeeds and the size of the buffer is
    negative, so that the call panics in [make], whatever the limit;
    beyond the largest offset of the file system the seek fails and the
    call returns its error. *)
Theorem ReadFileWithOffsets_beyond_end
    (path absPath : string) (data : list byte) (offset limit : Z) :
  Abs path = Ok absPath -> Open absPath = Ok data ->
  Z.of_nat (length data) < offset <= maxInt64 ->
  ReadFileWithOffsets Abs Open maxbytes path offset limit
  = if maxbytes <? offset
    then Returns (Err (Wrapf "failed to seek: "
                         (os.PathError "seek" absPath "invalid argument")))
    else Panics "runtime error: makeslice: len out of range".
Proof.
  intros Ha Ho Hoff. unfold ReadFileWithOffsets. rewrite Ha, Ho.
  cbn [os.Stat]. unfold os.Seek.
  destruct (Z.ltb_spec 0 offset); [|lia].
  destruct (Z.ltb_spec (Z.of_nat (length data)) offset); [|lia].
  cbn [andb]. destruct (maxbytes <? offset); [reflexivity|].
  rewrite int64_small by (unfold minInt64, maxInt64 in *; lia).
  destruct (Z.ltb_spec 0 limit) as [Hl|Hl]; cbn [andb].
  - destruct (Z.ltb_spec limit (Z.of_nat (length data) - offset)); [lia|].
    destruct (Z.ltb_spec (Z.of_nat (length data) - offset) 0); [|lia].
    reflexivity.
  - destruct (Z.ltb_spec (Z.of_nat (length data) - offset) 0); [|lia].
    reflexivity.
Qed.

End ExecutorRead.

(** ** Walking the file tree *)

Lemma Node_induction (P : os.Node -> Prop) :
  (forall info, P (os.File info)) ->
  (forall info entries, Forall P entries -> P (os.Directory info entries)) ->
  forall n, P n.
Proof.
  intros HF HD. fix IH 1. intros [info|info entries].
  - apply HF.
  - apply HD. induction entries as [|child rest IHrest].
    + apply List.Forall_nil.
    + apply List.Forall_cons; [apply IH|exact IHrest].
Qed.

Section Walking.

Context {A : Type}.
Variable walkFn : string -> option os.Node -> A -> option filepath.WalkErr * A.

Lemma walk_Directory (path : string) (info : os.FileInfo)
    (entries : list os.Node) (acc : A) :
  filepath.walk walkFn path (os.Directory info entries) acc
  = match walkFn path (Some (os.Directory info entries)) acc with
    | (Some err1, acc1) => (Some err1, acc1)
    | (None, acc1) => filepath.walk_entries walkFn path entries acc1
    end.
Proof.
  cbn [filepath.walk].
  destruct (walkFn path (Some (os.Directory info entries)) acc)
    as [[err1|] acc1]; [reflexivity|].
  clear acc. revert acc1.
  induction entries as [|child rest IH]; intros acc; [reflexivity|].
  cbn [filepath.walk_entries].
  destruct (filepath.walk walkFn _ child acc) as [[[| |e]|] acc'];
    try reflexivity.
  - destruct (os.IsDir child); [apply IH|reflexivity].
  - apply IH.
Qed.

End Walking.

(** ** The executor: listing files *)

Section ExecutorList.

Import executor.

Variable Abs : string -> Res string.
Variable Lstat : string -> option os.Node.
Variable Match : string -> string -> bool.

Lemma walkFn_cases (absPath : string) (recursive : bool) (pattern p : string)
    (n : os.Node) (files : list FileInfo) :
  exists err files',
    walkFn Match absPath recursive pattern p (Some n) files = (err, files')
    /\ (err = None \/ (err = Some filepath.SkipDir /\ os.IsDir n = true))
    /\ (files' = files
        \/ (files' = files ++ [listed p n]
            /\ shown absPath (listed p n))).
Proof.
  unfold walkFn.
  destruct (String.prefix "." (os.Name (os.Info n))
            && negb (String.eqb p absPath)) eqn:Hhidden.
  { destruct (os.IsDir n) eqn:Hd; eauto 10. }
  destruct (negb (String.eqb pattern "")
            && negb (Match pattern (os.Name (os.Info n)))); [eauto 10|].
  assert (Hs : shown absPath (listed p n)).
  { apply andb_false_iff in Hhidden. destruct Hhidden as [H|H].
    - right. exact H.
    - left. apply negb_false_iff, String.eqb_eq in H. exact H. }
  destruct (negb recursive && os.IsDir n && negb (String.eqb p absPath))
    eqn:Hskip.
  - apply andb_true_iff in Hskip. destruct Hskip as [Hskip _].
    apply andb_true_iff in Hskip. destruct Hskip as [_ Hd].
    do 2 eexists. split; [reflexivity|]. split; [right|right]; auto.
  - do 2 eexists. split; [reflexivity|]. split; [left|right]; auto.
Qed.

Lemma walk_listing (absPath : string) (recursive : bool) (pattern : string)
    (n : os.Node) :
  forall (path : string) (files : list FileInfo),
    Forall (shown absPath) files ->
    exists err files',
      filepath.walk (walkFn Match absPath recursive pattern) path n files
      = (err, files')
      /\ (err = None \/ (err = Some filepath.SkipDir /\ os.IsDir n = true))
      /\ Forall (shown absPath) files'.
Proof.
  induction n as [info|info entries IH] using Node_induction;
    intros path files Hfiles.
  - cbn [filepath.walk].
    destruct (walkFn_cases absPath recursive pattern path (os.File info) files)
      as (err & files' & -> & Herr & [->|[-> Hs]]); do 2 eexists;
      (split; [reflexivity|]); split; auto.
    apply Forall_app; split; [exact Hfiles|]. apply List.Forall_cons; auto.
  - rewrite walk_Directory.
    destruct (walkFn_cases absPath recursive pattern path
                (os.Directory info entries) files)
      as (err & files1 & -> & Herr & Hf1).
    assert (Hfiles1 : Forall (shown absPath) files1).
    { destruct Hf1 as [->|[-> Hs]]; [exact Hfiles|].
      apply Forall_app; split; [exact Hfiles|]. apply List.Forall_cons; auto. }
    destruct Herr as [->|[-> Hd]].
    2:{ do 2 eexists. split; [reflexivity|]. split; auto. }
    clear Hf1 Hfiles files. revert files1 Hfiles1.
    induction IH as [|child rest Hchild _ IHrest]; intros files Hfiles.
    + do 2 eexists. split; [reflexivity|]. split; auto.
    + cbn [filepath.walk_entries].
      destruct (Hchild (filepath.Join path (os.Name (os.Info child))) files
                  Hfiles) as (err & files' & -> & Herr & Hfiles').
      destruct Herr as [->|[-> ->]]; apply IHrest; exact Hfiles'.
Qed.

(** Whatever the tree, the listing succeeds when the path can be
    made absolute, and every entry it holds is the root itself or has a
    name that does not begin with a dot. *)
Theorem ListFilesWithPattern_hides_dot_files
    (path absPath pattern : string) (recursive : bool) :
  Abs path = Ok absPath ->
  exists files,
    ListFilesWithPattern Abs Lstat Match path recursive pattern = Ok files
    /\ Forall (fun f => Path f = absPath \/ String.prefix "." (Name f) = false)
         files.
Proof.
  intros Ha. unfold ListFilesWithPattern, filepath.Walk. rewrite Ha.
  destruct (Lstat absPath) as [root|].
  - destruct (walk_listing absPath recursive pattern root absPath [])
      as (err & files & -> & Herr & Hfiles); [constructor|].
    exists files. destruct Herr as [->|[-> _]]; auto.
  - exists []. split; [reflexivity|constructor].
Qed.

Lemma walkFn_recursive (absPath pattern p : string) (n : os.Node)
    (files : list FileInfo) :
  pattern <> "" ->
  os.IsDir n = false \/ Match pattern (os.Name (os.Info n)) = false
  \/ p = absPath ->
  walkFn Match absPath false pattern p (Some n) files
  = walkFn Match absPath true pattern p (Some n) files.
Proof.
  intros Hpat H. unfold walkFn.
  apply String.eqb_neq in Hpat. rewrite Hpat. cbn [negb andb].
  destruct (String.prefix "." (os.Name (os.Info n))
            && negb (String.eqb p absPath)); [reflexivity|].
  destruct H as [H|[H|H]].
  - rewrite H. reflexivity.
  - rewrite H. reflexivity.
  - apply String.eqb_eq in H. rewrite H. rewrite andb_false_r.
    destruct (negb (Match pattern (os.Name (os.Info n)))); reflexivity.
Qed.

Lemma walk_entries_ext {A : Type}
    (f g : string -> option os.Node -> A -> option filepath.WalkErr * A)
    (path : string) (entries : list os.Node) :
  Forall (fun n => forall p acc,
            filepath.walk f p n acc = filepath.walk g p n acc) entries ->
  forall acc,
    filepath.walk_entries f path entries acc
    = filepath.walk_entries g path entries acc.
Proof.
  induction 1 as [|child rest Hchild _ IH]; intros acc; [reflexivity|].
  cbn [filepath.walk_entries]. rewrite Hchild.
  destruct (filepath.walk g _ child acc) as [[[| |e]|] acc'];
    rewrite ?IH; reflexivity.
Qed.

Lemma walk_recursive (absPath pattern : string) (n : os.Node) :
  pattern <> "" ->
  directories_unmatched Match pattern n = true ->
  forall (p : string) (files : list FileInfo),
    filepath.walk (walkFn Match absPath false pattern) p n files
    = filepath.walk (walkFn Match absPath true pattern) p n files.
Proof.
  intros Hpat.
  induction n as [info|info entries IH] using Node_induction;
    intros Hn p files.
  - cbn [filepath.walk]. apply walkFn_recursive; auto.
  - cbn [directories_unmatched] in Hn. apply andb_true_iff in Hn.
    destruct Hn as [Hm Hrest]. apply negb_true_iff in Hm.
    rewrite !walk_Directory.
    rewrite (walkFn_recursive absPath pattern p (os.Directory info entries))
      by auto.
    destruct (walkFn Match absPath true pattern p _ files)
      as [[err|] files1]; [reflexivity|].
    apply walk_entries_ext.
    rewrite forallb_forall in Hrest. rewrite List.Forall_forall in *.
    intros child Hin. apply IH; auto.
Qed.

(** With a pattern, a directory whose name the pattern does not
    match is walked also when [recursive] is false: if no directory
    below the root has a matching name, the listing that is not
    recursive is the recursive one. *)
Theorem ListFilesWithPattern_pattern_descends
    (path absPath pattern : string) (root : os.Node) :
  Abs path = Ok absPath -> Lstat absPath = Some root ->
  pattern <> "" ->
  forallb (directories_unmatched Match pattern) (os.Entries root) = true ->
  ListFilesWithPattern Abs Lstat Match path false pattern
  = ListFilesWithPattern Abs Lstat Match path true pattern.
Proof.
  intros Ha Hl Hpat Hrest.
  unfold ListFilesWithPattern, filepath.Walk. rewrite Ha, Hl.
  replace (filepath.walk (walkFn Match absPath false pattern) absPath root [])
    with (filepath.walk (walkFn Match absPath true pattern) absPath root []);
    [reflexivity|].
  destruct root as [info|info entries].
  - cbn [filepath.walk]. symmetry. apply walkFn_recursive; auto.
  - rewrite !walk_Directory.
    rewrite (walkFn_recursive absPath pattern absPath
               (os.Directory info entries)) by auto.
    destruct (walkFn Match absPath true pattern absPath _ [])
      as [[err|] files1]; [reflexivity|].
    symmetry. apply walk_entries_ext.
    cbn [os.Entries] in Hrest.
    rewrite forallb_forall in Hrest. rewrite List.Forall_forall.
    intros child Hin p acc. apply walk_recursive; auto.
Qed.

Lemma length_append (s t : string) :
  String.length (String.append s t) = (String.length s + String.length t)%nat.
Proof.
  induction s as [|ch s IH]; [reflexivity|].
  change (String.append (String ch s) t) with (String ch (String.append s t)).
  cbn [String.length]. rewrite IH. reflexivity.
Qed.

Lemma Join_neq (dir name : string) :
  name <> "" -> filepath.Join dir name <> dir.
Proof.
  intros Hname Heq. apply (f_equal String.length) in Heq.
  unfold filepath.Join in Heq.
  destruct (String.eqb dir "/") eqn:E.
  - apply String.eqb_eq in E. subst dir.
    rewrite length_append in Heq. destruct name; [congruence|].
    cbn in Heq. lia.
  - rewrite !length_append in Heq. cbn in Heq. lia.
Qed.

Lemma walk_entries_flat (absPath : string) (entries : list os.Node) :
  Forall (fun child => os.Name (os.Info child) <> "") entries ->
  forall files,
    filepath.walk_entries (walkFn Match absPath false "") absPath entries files
    = (None,
       files ++
       ((fun child =>
           listed (filepath.Join absPath (os.Name (os.Info child))) child)
        <$> List.filter
              (fun child => negb (String.prefix "." (os.Name (os.Info child))))
              entries)).
Proof.
  induction 1 as [|child rest Hname _ IH]; intros files.
  - cbn. rewrite app_nil_r. reflexivity.
  - cbn [filepath.walk_entries List.filter].
    set (p := filepath.Join absPath (os.Name (os.Info child))).
    assert (Hp : String.eqb p absPath = false).
    { apply String.eqb_neq, Join_neq, Hname. }
    assert (Hfn : walkFn Match absPath false "" p (Some child) files
                  = if String.prefix "." (os.Name (os.Info child))
                    then (if os.IsDir child then Some filepath.SkipDir
                          else None, files)
                    else (if os.IsDir child then Some filepath.SkipDir
                          else None, files ++ [listed p child])).
    { unfold walkFn. rewrite Hp. cbn [negb andb String.eqb].
      rewrite andb_true_r.
      destruct (String.prefix "." (os.Name (os.Info child)));
        destruct (os.IsDir child); reflexivity. }
    assert (Hwalk : filepath.walk (walkFn Match absPath false "") p child files
                    = walkFn Match absPath false "" p (Some child) files).
    { destruct child as [info|info sub]; [reflexivity|].
      rewrite walk_Directory, Hfn. cbn [os.IsDir].
      destruct (String.prefix "." _); reflexivity. }
    rewrite Hwalk, Hfn.
    destruct (String.prefix "." (os.Name (os.Info child))); cbn [negb];
      destruct (os.IsDir child); rewrite IH; try reflexivity;
      cbn [fmap list_fmap]; rewrite <- app_assoc; reflexivity.
Qed.

(** Without pattern and not recursive, the listing of a directory
    holds the directory itself and then its entries whose names do not
    begin with a dot, in their order, files and directories alike, and
    nothing from below. *)
Theorem ListFiles_flat (path absPath : string) (info : os.FileInfo)
    (entries : list os.Node) :
  Abs path = Ok absPath ->
  Lstat absPath = Some (os.Directory info entries) ->
  Forall (fun child => os.Name (os.Info child) <> "") entries ->
  ListFiles Abs Lstat Match path false
  = Ok (listed absPath (os.Directory info entries)
        :: ((fun child =>
               listed (filepath.Join absPath (os.Name (os.Info child))) child)
            <$> List.filter
                  (fun child =>
                     negb (String.prefix "." (os.Name (os.Info child))))
                  entries)).
Proof.
  intros Ha Hl Hnames.
  unfold ListFiles, ListFilesWithPattern, filepath.Walk. rewrite Ha, Hl.
  rewrite walk_Directory.
  assert (Hroot : walkFn Match absPath false "" absPath
                    (Some (os.Directory info entries)) []
                  = (None, [listed absPath (os.Directory info entries)])).
  { unfold walkFn. rewrite String.eqb_refl. cbn [negb andb String.eqb].
    rewrite !andb_false_r. reflexivity. }
  rewrite Hroot, (walk_entries_flat absPath entries Hnames). reflexivity.
Qed.

End ExecutorList.

(** ** The file watcher *)

Section Watcher.

Import file_watcher.

Variable Abs : string -> Res string.
Variable Match : string -> string -> bool.

Lemma omap_none {A B : Type} (g : A -> option B) (l : list A) :
  (forall x, x ∈ l -> g x = None) -> omap g l = [].
Proof.
  induction l as [|x l IH]; intros H; [reflexivity|].
  cbn. rewrite (H x) by left. apply IH. intros y Hy. apply H. right. exact Hy.
Qed.

Lemma omap_some {A B : Type} (g : A -> option B) (h : A -> B) (l : list A) :
  (forall x, x ∈ l -> g x = Some (h x)) -> omap g l = h <$> l.
Proof.
  induction l as [|x l IH]; intros H; [reflexivity|].
  cbn. rewrite (H x) by left. f_equal. apply IH. intros y Hy. apply H.
  right. exact Hy.
Qed.

(** The paths of the events drawn from the entries of a map are
    distinct and are keys of the map. *)
Lemma omap_paths {V : Type} (g : string * V -> option (string * string))
    (l : list (string * V)) :
  (forall p v y, g (p, v) = Some y -> y.2 = p) ->
  NoDup l.*1 ->
  NoDup (omap g l).*2 /\ (forall p, p ∈ (omap g l).*2 -> p ∈ l.*1).
Proof.
  intros Hg. induction l as [|[p v] l IH]; intros Hnd.
  - split; [constructor|]. intros p H. exact H.
  - cbn in Hnd. apply NoDup_cons in Hnd. destruct Hnd as [Hp Hnd].
    destruct (IH Hnd) as [IH1 IH2]. cbn [omap list_omap].
    destruct (g (p, v)) as [y|] eqn:E.
    + apply Hg in E. cbn. rewrite E. split.
      * apply NoDup_cons. split; [|exact IH1].
        intros Hin. apply Hp. change (p ∈ l.*1). apply IH2. exact Hin.
      * intros q Hq. apply elem_of_cons in Hq. destruct Hq as [->|Hq].
        -- left.
        -- right. apply IH2. exact Hq.
    + split; [exact IH1|]. intros q Hq. right. apply IH2. exact Hq.
Qed.

(** What a scan reports, in terms of the states before and after
    it: a path is reported as created when it is recorded now and was
    not before, as modified when its time of modification has grown, as
    deleted when it was recorded and is not any more; nothing else is
    reported, and no path twice. *)
Theorem scan_reports (Stat : string -> option os.Node) (f : FileWatcher) :
  let calls := (scan Match Stat f).1 in
  let before := fileStates f in
  let after := fileStates (scan Match Stat f).2 in
  (forall path, ("file_created", path) ∈ calls
                <-> is_Some (after !! path) /\ before !! path = None)
  /\ (forall path, ("file_modified", path) ∈ calls
                   <-> exists t0 t, before !! path = Some t0
                                    /\ after !! path = Some t /\ t0 < t)
  /\ (forall path, ("file_deleted", path) ∈ calls
                   <-> is_Some (before !! path) /\ after !! path = None)
  /\ (forall eventType path, (eventType, path) ∈ calls ->
        eventType = "file_created" \/ eventType = "file_modified"
        \/ eventType = "file_deleted")
  /\ NoDup calls.*2.
Proof.
  unfold scan. cbn [fst snd fileStates set_fileStates].
  set (new := foldl _ _ _).
  set (g1 := fun '(path, modTime) =>
               match fileStates f !! path with
               | Some oldTime =>
                   if oldTime <? modTime then Some ("file_modified", path)
                   else None
               | None => Some ("file_created", path)
               end).
  set (g2 := fun '(path, _) =>
               match new !! path with
               | Some _ => None
               | None => Some ("file_deleted", path)
               end).
  assert (H1 : forall ty path,
             (ty, path) ∈ omap g1 (map_to_list new)
             <-> exists t, new !! path = Some t
                 /\ match fileStates f !! path with
                    | Some t0 => t0 < t /\ ty = "file_modified"
                    | None => ty = "file_created"
                    end).
  { intros ty path. rewrite list_elem_of_omap. split.
    - intros ([p t] & Hin & Hg). apply elem_of_map_to_list in Hin.
      unfold g1 in Hg. destruct (fileStates f !! p) as [t0|] eqn:E.
      + destruct (Z.ltb_spec t0 t); [|discriminate].
        injection Hg as <- <-. exists t. rewrite E. auto.
      + injection Hg as <- <-. exists t. rewrite E. auto.
    - intros (t & Hnew & Hold). exists (path, t).
      split; [apply elem_of_map_to_list; exact Hnew|].
      unfold g1. destruct (fileStates f !! path) as [t0|].
      + destruct Hold as [Hlt ->].
        destruct (Z.ltb_spec t0 t); [reflexivity|lia].
      + subst ty. reflexivity. }
  assert (H2 : forall ty path,
             (ty, path) ∈ omap g2 (map_to_list (fileStates f))
             <-> is_Some (fileStates f !! path) /\ new !! path = None
                 /\ ty = "file_deleted").
  { intros ty path. rewrite list_elem_of_omap. split.
    - intros ([p t] & Hin & Hg). apply elem_of_map_to_list in Hin.
      unfold g2 in Hg. destruct (new !! p) eqn:E; [discriminate|].
      injection Hg as <- <-. eauto.
    - intros ([t Ht] & Hnew & ->). exists (path, t).
      split; [apply elem_of_map_to_list; exact Ht|].
      unfold g2. rewrite Hnew. reflexivity. }
  split; [|split; [|split; [|split]]].
  - intros path. split.
    + intros Hin. apply elem_of_app in Hin. destruct Hin as [Hin|Hin].
      * apply H1 in Hin. destruct Hin as (t & Hnew & Hold).
        rewrite Hnew. split; [eauto|].
        destruct (fileStates f !! path); [|reflexivity].
        destruct Hold as [_ ?]. discriminate.
      * apply H2 in Hin. destruct Hin as (_ & _ & ?). discriminate.
    + intros [[t Hnew] Hold]. apply elem_of_app. left. apply H1.
      exists t. rewrite Hold. auto.
  - intros path. split.
    + intros Hin. apply elem_of_app in Hin. destruct Hin as [Hin|Hin].
      * apply H1 in Hin. destruct Hin as (t & Hnew & Hold).
        destruct (fileStates f !! path) as [t0|]; [|discriminate].
        destruct Hold as [Hlt _]. eauto.
      * apply H2 in Hin. destruct Hin as (_ & _ & ?). discriminate.
    + intros (t0 & t & Hold & Hnew & Hlt). apply elem_of_app. left.
      apply H1. exists t. rewrite Hold. auto.
  - intros path. split.
    + intros Hin. apply elem_of_app in Hin. destruct Hin as [Hin|Hin].
      * apply H1 in Hin. destruct Hin as (t & Hnew & Hold).
        destruct (fileStates f !! path); [destruct Hold|]; discriminate.
      * apply H2 in Hin. tauto.
    + intros [Hold Hnew]. apply elem_of_app. right. apply H2. auto.
  - intros ty path Hin. apply elem_of_app in Hin. destruct Hin as [Hin|Hin].
    + apply H1 in Hin. destruct Hin as (t & Hnew & Hold).
      destruct (fileStates f !! path); [destruct Hold|]; auto.
    + apply H2 in Hin. tauto.
  - rewrite fmap_app. apply NoDup_app.
    destruct (omap_paths g1 (map_to_list new)) as [Hn1 Hk1].
    { intros p v y. unfold g1. destruct (fileStates f !! p) as [t0|].
      - destruct (t0 <? v); [|discriminate]. intros [= <-]. reflexivity.
      - intros [= <-]. reflexivity. }
    { apply NoDup_fst_map_to_list. }
    destruct (omap_paths g2 (map_to_list (fileStates f))) as [Hn2 Hk2].
    { intros p v y. unfold g2. destruct (new !! p); [discriminate|].
      intros [= <-]. reflexivity. }
    { apply NoDup_fst_map_to_list. }
    split; [exact Hn1|]. split; [|exact Hn2].
    intros path Hin1 Hin2.
    apply list_elem_of_fmap in Hin1. destruct Hin1 as ([ty1 p1] & -> & Hin1).
    apply list_elem_of_fmap in Hin2. destruct Hin2 as ([ty2 p2] & Hp & Hin2).
    cbn in Hp. subst p2.
    apply H1 in Hin1. apply H2 in Hin2.
    destruct Hin1 as (t & Hnew & _). destruct Hin2 as (_ & Hnone & _).
    congruence.
Qed.

(** A scan of a file system that has not changed since the scan
    before it reports nothing and records the same states. *)
Theorem scan_unchanged (Stat : string -> option os.Node) (f : FileWatcher) :
  scan Match Stat (scan Match Stat f).2 = ([], (scan Match Stat f).2).
Proof.
  unfold scan at 1. cbn [snd scan watches fileStates set_fileStates].
  set (new := foldl _ _ _).
  rewrite !omap_none.
  - reflexivity.
  - intros [p t] Hin. apply elem_of_map_to_list in Hin. rewrite Hin.
    reflexivity.
  - intros [p t] Hin. apply elem_of_map_to_list in Hin. rewrite Hin.
    rewrite Z.ltb_irrefl. reflexivity.
Qed.

(** [scanPath] only adds to the states. *)
Lemma walk_keeps (watch : FileWatch) (p : string) (n : os.Node) :
  forall (path : string) (states : gmap string Z),
    is_Some (states !! p) ->
    is_Some ((filepath.walk (visit Match watch) path n states).2 !! p).
Proof.
  assert (Hfn : forall path n states, is_Some (states !! p) ->
            exists states1,
              visit Match watch path (Some n) states = (None, states1)
              /\ is_Some (states1 !! p)).
  { intros path n0 states Hs. unfold visit.
    destruct (matches Match watch _); eexists;
      (split; [reflexivity|]); [|exact Hs].
    rewrite lookup_insert_is_Some. destruct (decide (path = p)); auto. }
  induction n as [info|info entries IH] using Node_induction;
    intros path states Hs.
  - cbn [filepath.walk].
    destruct (Hfn path (os.File info) states Hs) as (states1 & -> & Hs1).
    exact Hs1.
  - rewrite walk_Directory.
    destruct (Hfn path (os.Directory info entries) states Hs)
      as (states1 & -> & Hs1).
    clear Hs. revert states1 Hs1.
    induction IH as [|child rest Hchild _ IHrest]; intros states1 Hs1;
      [exact Hs1|].
    cbn [filepath.walk_entries].
    specialize (Hchild (filepath.Join path (os.Name (os.Info child)))
                  states1 Hs1).
    destruct (filepath.walk (visit Match watch) _ child states1)
      as [[[| |e]|] states2]; cbn [snd] in *; try exact Hchild.
    + destruct (os.IsDir child); [apply IHrest|]; exact Hchild.
    + apply IHrest. exact Hchild.
Qed.

Lemma scanPath_keeps (Stat : string -> option os.Node) (watch : FileWatch)
    (p : string) (states : gmap string Z) :
  is_Some (states !! p) -> is_Some (scanPath Match Stat watch states !! p).
Proof.
  intros Hs. unfold scanPath. destruct (Recursive watch).
  - unfold filepath.Walk. destruct (Stat (Path watch)) as [n|].
    + pose proof (walk_keeps watch p n (Path watch) states Hs) as H.
      destruct (filepath.walk _ (Path watch) n states) as [err states'].
      exact H.
    + exact Hs.
  - destruct (Stat (Path watch)) as [n|]; [|exact Hs].
    destruct (os.IsDir n).
    + revert states Hs. induction (os.Entries n) as [|entry rest IH];
        intros states Hs; [exact Hs|].
      cbn [foldl]. apply IH. destruct (matches Match watch _); [|exact Hs].
      rewrite lookup_insert_is_Some.
      destruct (decide (filepath.Join (Path watch) (os.Name (os.Info entry))
                        = p)); auto.
    + destruct (matches Match watch _); [|exact Hs].
      rewrite lookup_insert_is_Some. destruct (decide (Path watch = p)); auto.
Qed.

Lemma scans_record (Stat : string -> option os.Node) (watch : FileWatch)
    (p : string) (ws : list FileWatch) :
  (forall states, is_Some (scanPath Match Stat watch states !! p)) ->
  watch ∈ ws ->
  forall states,
    is_Some (foldl (fun states watch => scanPath Match Stat watch states)
               states ws !! p).
Proof.
  intros Hw. induction ws as [|w ws IH]; intros Hin states.
  - inversion Hin.
  - cbn [foldl]. apply elem_of_cons in Hin. destruct Hin as [<-|Hin].
    + clear IH. generalize (Hw states).
      generalize (scanPath Match Stat watch states). clear states.
      induction ws as [|w' ws IH]; intros states Hs; [exact Hs|].
      cbn [foldl]. apply IH. apply scanPath_keeps. exact Hs.
    + apply IH. exact Hin.
Qed.

(** The scan that [Start] makes for the baseline is a scan like the
    others: starting from a watcher that has recorded nothing, it
    reports one [file_created] for every path it records, and nothing
    else; a file that exists and is watched under its own path with a
    pattern that lets its name through is among them. *)
Theorem Start_reports_baseline
    (baseline : string -> option os.Node) (f : FileWatcher) :
  fileStates f = ∅ ->
  (Start Match baseline [] f).1
  = (fun path => ("file_created", path))
    <$> (map_to_list (fileStates (Start Match baseline [] f).2)).*1
  /\ (forall path absPath pattern info,
        Abs path = Ok absPath ->
        baseline absPath = Some (os.File info) ->
        pattern = "" \/ Match pattern (os.Name info) = true ->
        ("file_created", absPath)
        ∈ (Start Match baseline []
             (Watch Abs path false pattern f).2).1).
Proof.
  intros Hempty.
  assert (Hgen : forall f0, fileStates f0 = ∅ ->
            (Start Match baseline [] f0).1
            = (fun path => ("file_created", path))
              <$> (map_to_list (fileStates (Start Match baseline [] f0).2)).*1).
  { clear f Hempty. intros f Hempty.
    unfold Start. cbn [scans].
    destruct (scan Match baseline (set_running true f)) as [calls f1] eqn:E.
    cbn [fst snd]. rewrite app_nil_r.
    unfold scan in E. cbn [fileStates set_running watches] in E.
    rewrite Hempty, map_to_list_empty in E. cbn [omap list_omap] in E.
    rewrite app_nil_r in E. injection E as <- <-.
    cbn [fileStates set_fileStates].
    rewrite (omap_some _ (fun kv => ("file_created", kv.1))).
    - rewrite <- list_fmap_compose. reflexivity.
    - intros [p t] _. rewrite lookup_empty. reflexivity. }
  split; [apply Hgen; exact Hempty|].
  intros path absPath pattern info Ha Hstat Hpat.
  unfold Watch. rewrite Ha. cbn [snd].
  set (w := mkFileWatch absPath false pattern EventAll).
  rewrite Hgen by exact Hempty.
  apply list_elem_of_fmap. exists absPath. split; [reflexivity|].
  apply list_elem_of_fmap.
  unfold Start. cbn [scans].
  destruct (scan Match baseline _) as [calls f1] eqn:E. cbn [snd].
  unfold scan in E. injection E as _ <-. cbn [fileStates set_fileStates].
  cbn [watches set_running set_watches].
  match goal with |- context [map_to_list ?m] =>
    assert (Hsome : is_Some (m !! absPath)); [|set (new := m) in *] end.
  { apply (scans_record baseline w).
    - intros states. unfold scanPath. cbn [Recursive w Path].
      rewrite Hstat. cbn [os.IsDir os.Info].
      assert (Hm : matches Match w (os.Name info) = true).
      { unfold matches. cbn [Pattern w]. destruct Hpat as [-> | ->].
        - reflexivity.
        - apply orb_true_r. }
      rewrite Hm. rewrite lookup_insert_is_Some. auto.
    - apply list_elem_of_fmap. exists (absPath, w). split; [reflexivity|].
      apply elem_of_map_to_list. apply lookup_insert_eq. }
  destruct Hsome as [t Ht]. exists (absPath, t).
  split; [reflexivity|]. apply elem_of_map_to_list. exact Ht.
Qed.

(** Once the last watch is removed a scan finds nothing: it reports
    every path recorded before as deleted, whether or not the file is
    still there, and forgets them all. *)
Theorem Unwatch_reports_deleted
    (Stat : string -> option os.Node) (path absPath : string)
    (f : FileWatcher) :
  Abs path = Ok absPath ->
  (forall p, p <> absPath -> watches f !! p = None) ->
  (scan Match Stat (Unwatch Abs path f)).1
  = (fun p => ("file_deleted", p)) <$> (map_to_list (fileStates f)).*1
  /\ fileStates (scan Match Stat (Unwatch Abs path f)).2 = ∅.
Proof.
  intros Ha Honly. unfold Unwatch. rewrite Ha.
  assert (Hnone : delete absPath (watches f) = ∅).
  { apply map_eq. intros p. rewrite lookup_empty.
    destruct (decide (p = absPath)) as [->|Hne].
    - apply lookup_delete_eq.
    - rewrite lookup_delete_ne by congruence. apply Honly. exact Hne. }
  unfold scan. cbn [watches set_watches fileStates fst snd set_fileStates].
  rewrite Hnone, map_to_list_empty. cbn [fmap list_fmap foldl].
  rewrite map_to_list_empty. cbn [omap list_omap app].
  split; [|reflexivity].
  rewrite (omap_some _ (fun kv => ("file_deleted", kv.1))).
  - rewrite <- list_fmap_compose. reflexivity.
  - intros [p t] _. rewrite lookup_empty. reflexivity.
Qed.

End Watcher.

(** ** Read deadlines *)

Section Deadlines.

Import primeclient.

Variable Marshal : Msg -> Res (list byte).
Variable Unmarshal : list byte -> Res Msg.
Variable reg : handlers.Registry.

(** A reader that meets a deadline before it has what it needs fails
    with the timeout; the bytes it has taken are gone with it. *)
Lemma ReadAtLeast_timeout (rounds : nat) :
  forall (need : nat) (acc held : list byte) (cs : list (list byte))
         (rest : list NetEvent),
    (need <= rounds)%nat ->
    Forall (fun seg => seg <> []) cs ->
    (length (held ++ concat cs) < need)%nat ->
    ReadAtLeast rounds need acc
      (mkReader ((Data <$> cs) ++ Deadline :: rest) held)
    = (Err ErrTimeout, mkReader rest []).
Proof.
  induction rounds as [|rounds IH];
    intros need acc held cs rest Hr Hcs Hlen; [lia|].
  destruct need as [|need]; [lia|].
  cbn [ReadAtLeast].
  destruct (decide (held ++ concat cs = [])) as [Hnil|Hne].
  - apply app_eq_nil in Hnil. destruct Hnil as [-> Hc].
    assert (cs = []) as ->.
    { destruct cs as [|seg cs]; [reflexivity|].
      apply List.Forall_cons_iff in Hcs. destruct Hcs as [Hseg _].
      cbn in Hc. apply app_eq_nil in Hc. tauto. }
    cbn [fmap list_fmap app]. unfold Reader_Read. cbn [buf rd].
    destruct (defaultBufSize <=? S need)%nat; cbn [conn_Read];
      destruct acc; reflexivity.
  - destruct (Reader_Read_aligned (S need) held cs (Deadline :: rest))
      as (got & held' & cs' & -> & Hgot & Hle & Hcs' & Heq);
      [lia|exact Hcs|exact Hne|].
    apply IH; [|exact Hcs'|].
    + destruct got; [congruence|]. cbn [length]. lia.
    + apply (f_equal length) in Heq. rewrite !length_app in Heq.
      rewrite !length_app in *. lia.
Qed.

(** When the read deadline expires before a frame is complete,
    [readMessage] returns the timeout and the part of the frame that had
    arrived is gone: the connection is left at what follows the
    deadline, and [messageLoop], which goes on after a timeout, takes
    the next bytes for the start of a frame. *)
Theorem readMessage_timeout_mid_frame
    (c : Client) (cn : Conn) (segs : list (list byte)) (rest : list NetEvent)
    (data missing : list byte) :
  conn c = Some cn ->
  incoming cn = (Data <$> segs) ++ Deadline :: rest ->
  Forall (fun seg => seg <> []) segs ->
  concat segs ++ missing = frame data -> missing <> [] ->
  Z.of_nat (length data) < 2 ^ 32 ->
  readMessage Unmarshal c
  = (Err ErrTimeout, set_conn (Some (mkConn rest (outgoing cn) (writable cn))) c)
  /\ forall ctx,
       messageLoop Marshal Unmarshal reg (S ctx) c
       = messageLoop Marshal Unmarshal reg ctx
           (set_conn (Some (mkConn rest (outgoing cn) (writable cn))) c).
Proof.
  intros Hc Hin Hsegs Hcut Hmiss Hlen.
  assert (Hread : readMessage Unmarshal c
                  = (Err ErrTimeout,
                     set_conn (Some (mkConn rest (outgoing cn) (writable cn))) c)).
  { unfold readMessage. rewrite Hc, Hin. unfold NewReader, ReadFull.
    assert (Hm : (0 < length missing)%nat)
      by (destruct missing; [congruence|cbn; lia]).
    pose proof (f_equal length Hcut) as Hl.
    unfold frame in Hl. rewrite !length_app, length_PutUint32 in Hl.
    destruct (Nat.lt_ge_cases (length (concat segs)) 4) as [Hshort|Hlong].
    - rewrite (ReadAtLeast_timeout 4 4 [] [] segs rest); auto.
    - assert (Hsplit : [] ++ concat segs
                       = PutUint32 (uint32 (Z.of_nat (length data)))
                         ++ drop 4 (concat segs)).
      { cbn [app]. rewrite <- (take_drop 4 (concat segs)) at 1. f_equal.
        apply (f_equal (take 4)) in Hcut. unfold frame in Hcut.
        rewrite take_app_le in Hcut by lia.
        rewrite (take_app_length' _ _ 4) in Hcut by reflexivity.
        exact Hcut. }
      destruct (ReadAtLeast_aligned 4 4 [] [] segs (Deadline :: rest)
                  (PutUint32 (uint32 (Z.of_nat (length data))))
                  (drop 4 (concat segs)))
        as (held' & cs' & -> & Hcs' & Htail); auto.
      cbn [app]. rewrite Uint32_PutUint32
        by (unfold uint32; rewrite Z.mod_small; lia).
      unfold uint32. rewrite Z.mod_small by lia. rewrite Nat2Z.id.
      rewrite (ReadAtLeast_timeout (length data) (length data) []
                 held' cs' rest); auto.
      rewrite Htail, length_drop. lia. }
  split; [exact Hread|].
  intros ctx. cbn [messageLoop]. rewrite Hc, Hread. reflexivity.
Qed.

End Deadlines.

(** ** Registration, the end of a session, and the waits *)

Section Session.

Import primeclient.

Variable Marshal : Msg -> Res (list byte).
Variable Unmarshal : list byte -> Res Msg.
Variable reg : handlers.Registry.

(** On a live connection on which the acknowledgement arrives in
    segments of its own, [sendRegistration] writes the frame of the
    registration, reads that one frame, and succeeds exactly when the
    acknowledgement has the type [registration_ack] and [success] true.
    The identifier becomes the acknowledgement's [daemon_id] when the
    registration is accepted and that field is a string; in every other
    case it stays what it was. *)
Theorem sendRegistration_verdict
    (c : Client) (cn : Conn) (segs : list (list byte)) (rest : list NetEvent)
    (out data : list byte) (ack : Msg) :
  conn c = Some cn -> writable cn = true ->
  Marshal (registration c) = Ok out ->
  incoming cn = (Data <$> segs) ++ rest ->
  concat segs = frame data -> Forall (fun seg => seg <> []) segs ->
  Z.of_nat (length data) < 2 ^ 32 ->
  Unmarshal data = Ok ack ->
  let r := sendRegistration Marshal Unmarshal c in
  conn r.2 = Some (mkConn rest (outgoing cn ++ frame out) true)
  /\ (r.1 = Ok tt <-> accepted ack)
  /\ (accepted ack ->
      forall id, ack !! "daemon_id" = Some (VString id) -> daemonID r.2 = id)
  /\ (accepted ack ->
      (forall id, ack !! "daemon_id" <> Some (VString id)) ->
      daemonID r.2 = daemonID c)
  /\ (~ accepted ack -> daemonID r.2 = daemonID c).
Proof.
  intros Hc Hw Hm Hin Hcut Hsegs Hlen Hack.
  unfold sendRegistration. fold (registration c).
  rewrite (sendMessage_ok Marshal (registration c) c cn out Hc Hw Hm).
  set (c1 := set_conn _ c).
  assert (Hc1 : conn c1 = Some (mkConn (incoming cn) (outgoing cn ++ frame out) true))
    by reflexivity.
  rewrite (readMessage_aligned Unmarshal c1 _ segs rest data Hc1 Hin Hcut
             Hsegs Hlen).
  unfold decoded. rewrite Hack. cbn [incoming outgoing writable].
  set (c2 := set_conn _ c1).
  assert (Hc2 : conn c2 = Some (mkConn rest (outgoing cn ++ frame out) true))
    by reflexivity.
  assert (Hid2 : daemonID c2 = daemonID c) by reflexivity.
  unfold accepted.
  destruct (ack !! "type") as [[| |t| | | |]|] eqn:Et; cbn [fst snd];
    try (split; [exact Hc2|]; split;
         [split; [discriminate|intros [? _]; discriminate]|];
         split; [intros [? _]; discriminate|];
         split; [intros [? _]; discriminate|intros _; exact Hid2]).
  destruct (String.eqb t TypeRegistrationAck) eqn:Eeq.
  2:{ apply String.eqb_neq in Eeq. cbn [fst snd].
      split; [exact Hc2|]. split.
      { split; [discriminate|]. intros [[= ->] _].
        exact (False_ind _ (Eeq eq_refl)). }
      split; [intros [[= ->] _]; exact (False_ind _ (Eeq eq_refl))|].
      split; [intros [[= ->] _]; exact (False_ind _ (Eeq eq_refl))
             |intros _; exact Hid2]. }
  apply String.eqb_eq in Eeq. subst t.
  destruct (ack !! "success") as [[|b| | | | |]|] eqn:Es; cbn [asBool];
    try (cbn [fst snd]; split; [exact Hc2|]; split;
         [split; [discriminate|intros [_ ?]; discriminate]|];
         split; [intros [_ ?]; discriminate|];
         split; [intros [_ ?]; discriminate|intros _; exact Hid2]).
  destruct b.
  2:{ cbn [fst snd]. split; [exact Hc2|]. split.
      { split; [discriminate|]. intros [_ ?]. discriminate. }
      split; [intros [_ ?]; discriminate|].
      split; [intros [_ ?]; discriminate|intros _; exact Hid2]. }
  cbn [fst snd].
  split.
  { destruct (ack !! "daemon_id") as [[| |id| | | |]|]; exact Hc2. }
  split; [split; auto|].
  split.
  { intros _ id Hid. rewrite Hid. reflexivity. }
  split.
  { intros _ Hno.
    destruct (ack !! "daemon_id") as [[| |id| | | |]|] eqn:Ed;
      try exact Hid2.
    exfalso. exact (Hno id eq_refl). }
  intros Hn. exfalso. apply Hn. auto.
Qed.

(** [Close] closes the connection but leaves the field in place:
    the client still counts as connected, and a later send fails on the
    write, not with [not connected]; nothing is written. *)
Theorem Close_keeps_connection (c : Client) (cn : Conn) :
  conn c = Some cn ->
  (Close c).1 = Ok tt
  /\ IsConnected (Close c).2 = true
  /\ forall msg data,
       Marshal msg = Ok data ->
       sendMessage Marshal msg (Close c).2
       = (Err (Wrapf "write length: " ErrBrokenPipe), (Close c).2).
Proof.
  intros Hc. unfold Close. rewrite Hc. cbn [fst snd].
  split; [reflexivity|]. split; [reflexivity|].
  intros msg data Hm. unfold sendMessage. cbn [conn set_conn].
  rewrite Hm. unfold conn_Write. cbn [writable].
  f_equal.
Qed.

(** A frame that cannot be decoded ends the session: [messageLoop]
    returns the read error without calling a handler or writing
    anything; so does the end of the connection, with
    [connection closed]. *)
Theorem messageLoop_ends_session (c : Client) (cn : Conn) :
  conn c = Some cn ->
  (forall segs rest data err ctx,
     incoming cn = (Data <$> segs) ++ rest ->
     concat segs = frame data -> Forall (fun seg => seg <> []) segs ->
     Z.of_nat (length data) < 2 ^ 32 ->
     Unmarshal data = Err err ->
     messageLoop Marshal Unmarshal reg (S ctx) c
     = Returns (Wrapf "read error: " (Wrapf "unmarshal: " err),
                set_conn (Some (mkConn rest (outgoing cn) (writable cn))) c))
  /\ (forall ctx,
        incoming cn = [] ->
        messageLoop Marshal Unmarshal reg (S ctx) c
        = Returns (Errorf "connection closed", c)).
Proof.
  intros Hc. split.
  - intros segs rest data err ctx Hin Hcut Hsegs Hlen Hbad.
    cbn [messageLoop]. rewrite Hc.
    rewrite (readMessage_aligned Unmarshal c cn segs rest data Hc Hin Hcut
               Hsegs Hlen).
    unfold decoded. rewrite Hbad. reflexivity.
  - intros ctx Hin. cbn [messageLoop]. rewrite Hc.
    unfold readMessage. rewrite Hc, Hin. cbn.
    rewrite <- Hin. destruct cn; cbn.
    rewrite <- Hc. rewrite set_conn_same. reflexivity.
Qed.

Lemma Connect_bounded (attempts : list Attempt) :
  forall (c c' : Client) (waits : list Z),
    1 * Second <= reconnectDelay c <= 60 * Second ->
    maxReconnect c = 60 * Second ->
    Connect Marshal Unmarshal reg attempts c = Returns (waits, c') ->
    Forall (fun wait => 1 * Second <= wait <= 60 * Second) waits.
Proof.
  induction attempts as [|a attempts IH]; intros c c' waits Hd Hmax.
  - intros [= <- _]. constructor.
  - cbn [Connect].
    destruct (connectOnce Marshal Unmarshal reg a c) as [[[err c1] closed]|]
      eqn:Hco; [|discriminate].
    assert (H1 : 1 * Second <= reconnectDelay c1 <= 60 * Second
                 /\ maxReconnect c1 = 60 * Second).
    { destruct (dial a) as [cn|] eqn:Hdial.
      - destruct (connectOnce_resets Marshal Unmarshal reg a c c1 err closed)
          as [-> ->]; [rewrite Hdial; eauto|exact Hco|].
        split; [unfold Second; lia|exact Hmax].
      - rewrite (connectOnce_refused Marshal Unmarshal reg a c Hdial) in Hco.
        injection Hco as _ <- _. auto. }
    destruct H1 as [Hd1 Hmax1].
    set (c2 := if maxReconnect c1 <? int64 (reconnectDelay c1 * 2)
               then set_reconnectDelay (maxReconnect c1) c1
               else set_reconnectDelay (int64 (reconnectDelay c1 * 2)) c1).
    assert (H2 : 1 * Second <= reconnectDelay c2 <= 60 * Second
                 /\ maxReconnect c2 = 60 * Second).
    { unfold c2. rewrite Hmax1.
      assert (Hi : int64 (reconnectDelay c1 * 2) = reconnectDelay c1 * 2).
      { unfold int64, Second in *. rewrite Z.mod_small by lia. lia. }
      rewrite Hi.
      destruct (Z.ltb_spec (60 * Second) (reconnectDelay c1 * 2));
        cbn [reconnectDelay maxReconnect set_reconnectDelay];
        unfold Second in *; split; try lia; exact Hmax1. }
    destruct H2 as [Hd2 Hmax2].
    assert (Hrest : forall ws c3,
              Connect Marshal Unmarshal reg attempts c2 = Returns (ws, c3) ->
              Forall (fun wait => 1 * Second <= wait <= 60 * Second)
                (reconnectDelay c1 :: ws)).
    { intros ws c3 Hcon. apply List.Forall_cons; [exact Hd1|].
      exact (IH c2 c3 ws Hd2 Hmax2 Hcon). }
    fold c2.
    destruct (Connect Marshal Unmarshal reg attempts c2) as [[ws c3]|];
      destruct err; try discriminate;
      try (intros [= <- _]; apply (Hrest ws c3 eq_refl));
      intros [= <- _]; constructor.
Qed.

(** Whatever the attempts do, every wait of [Connect] lies between one
    second and a minute. *)
Theorem Connect_waits_bounded (attempts : list Attempt) (c : Client) :
  1 * Second <= reconnectDelay c <= 60 * Second ->
  maxReconnect c = 60 * Second ->
  match Connect Marshal Unmarshal reg attempts c with
  | Returns (waits, _) =>
      Forall (fun wait => 1 * Second <= wait <= 60 * Second) waits
  | Panics _ => True
  end.
Proof.
  intros Hd Hmax.
  destruct (Connect Marshal Unmarshal reg attempts c) as [[waits c']|] eqn:E;
    [|exact I].
  exact (Connect_bounded attempts c c' waits Hd Hmax E).
Qed.

(** The wait that follows an attempt whose dial succeeded is one second,
    whatever the delay was before and whatever came of the attempt: a
    registration that was rejected or could not be read, a session that
    ended at once or after hours. *)
Theorem Connect_waits_a_second_after_a_dial
    (a : Attempt) (attempts : list Attempt) (c : Client) :
  is_Some (dial a) ->
  match Connect Marshal Unmarshal reg (a :: attempts) c with
  | Returns (wait :: _, _) => wait = 1 * Second
  | _ => True
  end.
Proof.
  intros Hdial. cbn [Connect].
  destruct (connectOnce Marshal Unmarshal reg a c) as [[[err c1] closed]|]
    eqn:Hco; [|exact I].
  destruct (connectOnce_resets Marshal Unmarshal reg a c c1 err closed
              Hdial Hco) as [Hdelay _].
  match goal with |- context [Connect _ _ _ attempts ?c2] =>
    destruct (Connect Marshal Unmarshal reg attempts c2) as [[ws c3]|] end;
    destruct err; try exact I; exact Hdelay.
Qed.

End Session.

(** ** The registry *)

Section Registering.

Import handlers.

(** A handler that has been registered is the one [Handle] calls
    for its command type, also when another was registered for that type
    before; the other command types are handled as they were. *)
Theorem Register_then_Handle (r : Registry) (cmdType : string)
    (handler : Handler) :
  (forall params, Handle (Register cmdType handler r) cmdType params
                  = handler params)
  /\ HasHandler (Register cmdType handler r) cmdType = true
  /\ (forall other params, other <> cmdType ->
        Handle (Register cmdType handler r) other params
        = Handle r other params)
  /\ (forall other, other <> cmdType ->
        HasHandler (Register cmdType handler r) other = HasHandler r other).
Proof.
  unfold Handle, HasHandler, Register. cbn [handlers].
  rewrite lookup_insert_eq.
  repeat split; intros other; intros; rewrite lookup_insert_ne by congruence;
    reflexivity.
Qed.

Lemma ListHandlers_NoDup (r : Registry) : NoDup (ListHandlers r).
Proof. apply NoDup_fst_map_to_list. Qed.

Lemma elem_of_ListHandlers (r : Registry) (cmdType : string) :
  cmdType ∈ ListHandlers r <-> HasHandler r cmdType = true.
Proof.
  unfold ListHandlers, HasHandler. rewrite list_elem_of_fmap. split.
  - intros ([k h] & -> & Hin). apply elem_of_map_to_list in Hin.
    cbn. rewrite Hin. reflexivity.
  - destruct (handlers r !! cmdType) as [h|] eqn:E; [|discriminate].
    intros _. exists (cmdType, h). split; [reflexivity|].
    apply elem_of_map_to_list. exact E.
Qed.

(** [ListHandlers] names every command type once, and names exactly
    the types for which [HasHandler] holds, which are the types that
    [Handle] does not answer with [unknown command type]. *)
Theorem ListHandlers_HasHandler (r : Registry) :
  NoDup (ListHandlers r)
  /\ (forall cmdType, cmdType ∈ ListHandlers r <-> HasHandler r cmdType = true)
  /\ (forall cmdType params,
        HasHandler r cmdType = false ->
        Handle r cmdType params
        = Returns (Some (failure ("unknown command type: " ++ cmdType)))).
Proof.
  split; [apply ListHandlers_NoDup|]. split; [apply elem_of_ListHandlers|].
  unfold HasHandler, Handle.
  intros t params. destruct (handlers r !! t); [discriminate|].
  reflexivity.
Qed.

Lemma HasHandler_Register (r : Registry) (t cmdType : string) (h : Handler) :
  HasHandler (Register cmdType h r) t = true
  <-> t = cmdType \/ HasHandler r t = true.
Proof.
  unfold HasHandler, Register. cbn [handlers].
  destruct (decide (t = cmdType)) as [->|Hne].
  - rewrite lookup_insert_eq. tauto.
  - rewrite lookup_insert_ne by congruence. split; [auto|].
    intros [?|?]; [contradiction|assumption].
Qed.

(** After [RegisterBuiltins] the registry has a handler for each of
    the twenty-six built-in command types and for whatever had one
    before, and for nothing else; on a new registry [ListHandlers] is a
    permutation of the twenty-six. *)
Theorem RegisterBuiltins_types (w : World) (x : External) :
  (forall r cmdType,
     HasHandler (RegisterBuiltins w x r) cmdType = true
     <-> cmdType ∈ builtin_types \/ HasHandler r cmdType = true)
  /\ ListHandlers (RegisterBuiltins w x NewRegistry) ≡ₚ builtin_types.
Proof.
  assert (H : forall r cmdType,
             HasHandler (RegisterBuiltins w x r) cmdType = true
             <-> cmdType ∈ builtin_types \/ HasHandler r cmdType = true).
  { intros r t. unfold RegisterBuiltins, builtin_types.
    rewrite !HasHandler_Register. rewrite !elem_of_cons, elem_of_nil.
    tauto. }
  split; [exact H|].
  apply NoDup_Permutation.
  - apply ListHandlers_NoDup.
  - apply (bool_decide_unpack _). vm_compute. exact I.
  - intros t. rewrite elem_of_ListHandlers, H. split; [|auto].
    intros [?|Hn]; [assumption|]. discriminate.
Qed.

End Registering.

(** ** Reading and writing files through the handlers *)

Section FileHandlers.

Import handlers.

Lemma Split_is_Split_sep (s : string) : Split s = Split_sep LF s.
Proof.
  induction s as [|ch s IH]; [reflexivity|].
  cbn [Split Split_sep]. rewrite IH. reflexivity.
Qed.

Lemma Join_Split (s : string) : Join (Split s) newline = s.
Proof. rewrite Split_is_Split_sep. apply (Join_Split_sep LF). Qed.

(** With an offset that is not negative and, when a limit is given,
    a limit whose integer part is not negative either, [read_file]
    answers with the lines from the offset on, at most as many as the
    limit says, joined by line feeds, with the length of that text as
    its size and the number of its lines as [total_lines]; without a
    limit and from offset 0 it is the file as it is.  Lines past the end
    of the file are not an error. *)
Theorem handleReadFile_window
    (w : World) (params : Msg) (path content : string) :
  params !! "path" = Some (VString path) -> path <> "" ->
  files w !! path = Some content ->
  let offset := asFloat64 (params !! "offset") in
  let limit := asFloat64 (params !! "limit") in
  let rest := drop (Z.to_nat (int_of_float64 offset)) (Split content) in
  0 <= int_of_float64 offset ->
  (PrimFloat.ltb 0 limit = true ->
   0 <= int_of_float64 limit
   /\ int_of_float64 offset + int_of_float64 limit <= maxInt64) ->
  handleReadFile w params
  = Returns (Some (read_result
                     (Join (if PrimFloat.ltb 0 limit
                            then take (Z.to_nat (int_of_float64 limit)) rest
                            else rest) newline))).
Proof.
  intros Hpath Hne Hfile offset limit rest Hoff Hlim.
  unfold handleReadFile. rewrite Hpath. cbn [asString].
  apply String.eqb_neq in Hne. rewrite Hne.
  unfold ReadFile. rewrite Hfile.
  fold offset limit.
  set (start := int_of_float64 offset) in *.
  set (lines := Split content) in *.
  set (len := Z.of_nat (length lines)).
  fold (read_result content).
  destruct (PrimFloat.ltb 0 limit) eqn:El.
  - destruct (Hlim eq_refl) as [Hl Hsum].
    set (lim := int_of_float64 limit) in *.
    rewrite orb_true_r.
    assert (Hi : int64 (start + lim) = start + lim).
    { unfold int64, maxInt64 in *. rewrite Z.mod_small by lia. lia. }
    rewrite Hi.
    destruct (Z.ltb_spec start len) as [Hin|Hout].
    + unfold slice. fold len.
      destruct (Z.ltb_spec len (start + lim)) as [Hbig|Hsmall].
      * destruct (Z.ltb_spec start 0); [lia|].
        destruct (Z.ltb_spec len start); [lia|].
        destruct (Z.ltb_spec len len); [lia|]. cbn [orb].
        fold (read_result (Join (take (Z.to_nat (len - start))
                                   (drop (Z.to_nat start) lines)) newline)).
        do 4 f_equal. fold rest.
        rewrite !take_ge; [reflexivity| |];
          unfold rest; rewrite length_drop; unfold len; lia.
      * destruct (Z.ltb_spec start 0); [lia|].
        destruct (Z.ltb_spec (start + lim) start); [lia|].
        destruct (Z.ltb_spec len (start + lim)); [lia|]. cbn [orb].
        replace (start + lim - start) with lim by lia. reflexivity.
    + fold (read_result (Join [] newline)).
      do 4 f_equal. unfold rest.
      rewrite drop_ge by (fold len; lia). rewrite take_nil. reflexivity.
  - rewrite orb_false_r.
    destruct (Z.ltb_spec 0 start) as [Hpos|Hzero].
    + destruct (Z.ltb_spec start len) as [Hin|Hout].
      * unfold slice. fold len.
        destruct (Z.ltb_spec start 0); [lia|].
        destruct (Z.ltb_spec len start); [lia|].
        destruct (Z.ltb_spec len len); [lia|]. cbn [orb].
        fold (read_result (Join (take (Z.to_nat (len - start))
                                   (drop (Z.to_nat start) lines)) newline)).
        do 4 f_equal. fold rest. apply take_ge.
        unfold rest. rewrite length_drop. unfold len. lia.
      * fold (read_result (Join [] newline)).
        do 4 f_equal. unfold rest. rewrite drop_ge by (fold len; lia).
        reflexivity.
    + unfold rest. replace (Z.to_nat start) with 0%nat by lia.
      rewrite drop_0. unfold lines. rewrite Join_Split. reflexivity.
Qed.

(** For a file that can be read, [read_file] panics exactly when a
    positive limit comes with an offset before the last line that is
    negative, or that the sum of offset and limit, as an [int], falls
    short of; without a positive limit it never panics, whatever the
    offset. *)
Theorem handleReadFile_panics_iff
    (w : World) (params : Msg) (path content : string) :
  params !! "path" = Some (VString path) -> path <> "" ->
  files w !! path = Some content ->
  let start := int_of_float64 (asFloat64 (params !! "offset")) in
  let limit := asFloat64 (params !! "limit") in
  (exists reason, handleReadFile w params = Panics reason)
  <-> PrimFloat.ltb 0 limit = true
      /\ start < Z.of_nat (length (Split content))
      /\ (start < 0 \/ int64 (start + int_of_float64 limit) < start).
Proof.
  intros Hpath Hne Hfile start limit.
  unfold handleReadFile. rewrite Hpath. cbn [asString].
  apply String.eqb_neq in Hne. rewrite Hne.
  unfold ReadFile. rewrite Hfile.
  fold limit. fold start.
  set (len := Z.of_nat (length (Split content))).
  set (e := int64 (start + int_of_float64 limit)).
  destruct (PrimFloat.ltb 0 limit) eqn:El.
  - rewrite orb_true_r.
    destruct (Z.ltb_spec start len) as [Hin|Hout].
    + unfold slice. fold len.
      destruct (Z.ltb_spec len e) as [Hbig|Hsmall].
      * destruct (Z.ltb_spec start 0) as [Hneg|Hpos]; cbn [orb].
        -- split; [intros _; auto|intros _; eauto].
        -- destruct (Z.ltb_spec len start); [lia|].
           destruct (Z.ltb_spec len len); [lia|]. cbn [orb].
           split; [intros [? ?]; discriminate|].
           intros (_ & _ & [?|?]); lia.
      * destruct (Z.ltb_spec start 0) as [Hneg|Hpos]; cbn [orb].
        -- split; [intros _; auto|intros _; eauto].
        -- destruct (Z.ltb_spec e start) as [Hlt|Hge]; cbn [orb].
           ++ split; [intros _; auto|intros _; eauto].
           ++ destruct (Z.ltb_spec len e); [lia|].
              split; [intros [? ?]; discriminate|].
              intros (_ & _ & [?|?]); lia.
    + split; [intros [? ?]; discriminate|]. intros (_ & ? & _). lia.
  - rewrite orb_false_r. split; [|intros [? _]; discriminate].
    intros [reason H]. exfalso.
    destruct (Z.ltb_spec 0 start) as [Hpos|Hzero]; [|discriminate].
    destruct (Z.ltb_spec start len) as [Hin|Hout]; [|discriminate].
    unfold slice in H. fold len in H.
    destruct (Z.ltb_spec start 0); [lia|].
    destruct (Z.ltb_spec len start); [lia|].
    destruct (Z.ltb_spec len len); [lia|]. discriminate.
Qed.

Section Writing.

Variable FS : Type.
Variable File : Type.
Variable OpenFile : string -> Z -> Z -> FS -> Res File * FS.
Variable WriteString : File -> string -> FS -> option error * FS.
Variable Close : File -> FS -> FS.
Variable WriteFile : string -> string -> Z -> FS -> option error * FS.

(** In append mode [write_file] answers with success, the path and
    the length of the content whatever the file system does, also when
    the file could not be opened or written; without append the error
    of the write is the error of the answer. *)
Theorem handleWriteFile_append_hides_errors
    (params : Msg) (path : string) (fs : FS) :
  params !! "path" = Some (VString path) -> path <> "" ->
  (params !! "append" = Some (VBool true) ->
   (builtin.handleWriteFile FS File OpenFile WriteString Close WriteFile
      params fs).1
   = Returns (Some (<["success" := VBool true]>
                   (<["path" := VString path]>
                    (<["size" :=
                         VInt (Z.of_nat (String.length
                                           (asString (params !! "content"))))]>
                     ∅)))))
  /\ (asBool (params !! "append") = false ->
      forall mode err fs',
        WriteFile path (asString (params !! "content")) mode fs
        = (Some err, fs') ->
        mode = (if PrimFloat.ltb 0 (asFloat64 (params !! "mode"))
                then uint32 (int_of_float64 (asFloat64 (params !! "mode")))
                else 420) ->
        builtin.handleWriteFile FS File OpenFile WriteString Close WriteFile
          params fs
        = (Returns (Some (failure (Error err))), fs')).
Proof.
  intros Hpath Hne. apply String.eqb_neq in Hne.
  unfold builtin.handleWriteFile. rewrite Hpath. cbn [asString].
  rewrite Hne. split.
  - intros Happ. rewrite Happ. cbn [asBool].
    destruct (OpenFile path _ _ fs) as [[f|e] fs1].
    + destruct (WriteString f _ fs1) as [e fs2]. reflexivity.
    + reflexivity.
  - intros Happ mode err fs' Hw ->. rewrite Happ, Hw. reflexivity.
Qed.

End Writing.

End FileHandlers.

(** ** From an emitter to the controller *)

Section Routing.

Import primeclient manager.

Variable Marshal : Msg -> Res (list byte).

(** With the callback that [main] registers, an event handed to
    [Emit] goes out on the connection as one frame of type [event]
    carrying the event's source, type and payload, the identifier of the
    daemon and the time of the send (not the time of the event); when
    the client has no connection the event is dropped, as is every event
    emitted while no callback is registered. *)
Theorem Emit_reaches_controller (now : string) (event : emitters.Event)
    (c : Client) :
  Emit (NewManager (S := Client)) event c = c
  /\ (forall cn, conn c = Some cn ->
        Emit (OnEvent (route Marshal now) NewManager) event c
        = after_send Marshal (event_message (daemonID c) now event) cn c)
  /\ (conn c = None ->
      Emit (OnEvent (route Marshal now) NewManager) event c = c).
Proof.
  split; [reflexivity|]. split.
  - intros cn Hc. unfold Emit, OnEvent, NewManager, route. cbn.
    unfold SendEvent. fold (event_message (daemonID c) now event).
    apply sendMessage_effect. exact Hc.
  - intros Hc. unfold Emit, OnEvent, NewManager, route. cbn.
    unfold SendEvent. rewrite sendMessage_not_connected by exact Hc.
    reflexivity.
Qed.

End Routing.

(** ** The properties above, on the site *)

Section SiteExamples.

Import site.

Lemma getEnvSlice_round_trip_witness :
  Join (config.getEnvSlice environ "DAEMON_CAPABILITIES" config.defaultCaps) ","
  = "shell,,git"
  /\ Forall (fun part => ~ has_byte comma part)
       (config.getEnvSlice environ "DAEMON_CAPABILITIES" config.defaultCaps)
  /\ config.getEnvSlice environ "DAEMON_CAPABILITIES" config.defaultCaps <> [].
Proof.
  apply (getEnvSlice_round_trip environ "DAEMON_CAPABILITIES" "shell,,git").
  - reflexivity.
  - discriminate.
Defined.

(** The empty capability between the two commas is kept. *)
Example capabilities_of_the_site :
  config.getEnvSlice environ "DAEMON_CAPABILITIES" config.defaultCaps
  = ["shell"; ""; "git"].
Proof. reflexivity. Qed.

Lemma Load_defaults_witness :
  config.Load "macbook" ∅ "/etc/alfred.conf"
  = Ok (config.mkConfig "macbook" "macbook"
          ["shell"; "files"; "docker"; "services"; "git"; "network";
           "process"; "package"; "cron"; "session"]
          "localhost:50051" "http://localhost:8000" "" "" "" false "" "").
Proof.
  apply (Load_defaults "macbook" ∅ "/etc/alfred.conf").
  repeat (apply List.Forall_cons; [reflexivity|]). apply List.Forall_nil.
Defined.

Lemma Load_soul_witness :
  exists cfg,
    config.Load "macbook" environ "" = Ok cfg
    /\ (ToLower "Yes" = "true" \/ ToLower "Yes" = "1" \/ ToLower "Yes" = "yes" ->
        config.IsSoulDaemon cfg = true
        /\ config.Capabilities cfg
           = config.getEnvSlice environ "DAEMON_CAPABILITIES" config.defaultCaps
             ++ ["soul"; "self-modify"])
    /\ (ToLower "Yes" <> "true" -> ToLower "Yes" <> "1" ->
        ToLower "Yes" <> "yes" ->
        config.IsSoulDaemon cfg = false
        /\ config.Capabilities cfg
           = config.getEnvSlice environ "DAEMON_CAPABILITIES" config.defaultCaps).
Proof.
  apply (Load_soul "macbook" environ "" "Yes").
  - reflexivity.
  - discriminate.
Defined.

Example soul_of_the_site :
  match config.Load "macbook" environ "" with
  | Ok cfg => config.Capabilities cfg
  | Err _ => []
  end
  = ["shell"; ""; "git"; "soul"; "self-modify"].
Proof. reflexivity. Qed.

Lemma ReadFileWithOffsets_window_witness :
  executor.ReadFileWithOffsets Abs Open maxbytes "/srv/README" 6 3
  = Returns (Ok (if 0 <? 3
                 then take (Z.to_nat 3) (drop (Z.to_nat 6) hello)
                 else drop (Z.to_nat 6) hello,
                 Z.of_nat (length hello)))
  /\ executor.ReadFile Abs Open maxbytes "/srv/README" = Returns (Ok hello).
Proof.
  apply (ReadFileWithOffsets_window Abs Open maxbytes "/srv/README" "/srv/README").
  - reflexivity.
  - reflexivity.
  - vm_compute. discriminate.
  - vm_compute. split; discriminate.
Defined.

Example three_bytes_of_the_readme :
  executor.ReadFileWithOffsets Abs Open maxbytes "/srv/README" 6 3
  = Returns (Ok (String.list_byte_of_string "wor", 11)).
Proof. reflexivity. Qed.

Lemma ReadFileWithOffsets_pieces_witness :
  exists first rest all,
    executor.ReadFileWithOffsets Abs Open maxbytes "/srv/README" 0 4
      = Returns (Ok (first, Z.of_nat (length hello)))
    /\ executor.ReadFileWithOffsets Abs Open maxbytes "/srv/README"
         (0 + Z.of_nat (length first)) 0
       = Returns (Ok (rest, Z.of_nat (length hello)))
    /\ executor.ReadFileWithOffsets Abs Open maxbytes "/srv/README" 0 0
       = Returns (Ok (all, Z.of_nat (length hello)))
    /\ first ++ rest = all
    /\ Z.of_nat (length first) = Z.min 4 (Z.of_nat (length hello) - 0).
Proof.
  apply (ReadFileWithOffsets_pieces Abs Open maxbytes "/srv/README" "/srv/README").
  - reflexivity.
  - reflexivity.
  - vm_compute. discriminate.
  - vm_compute. split; discriminate.
  - lia.
Defined.

(** One byte beyond the end of the file the call panics; sixteen
    tebibytes into it the seek is refused. *)
Lemma ReadFileWithOffsets_beyond_end_witness :
  executor.ReadFileWithOffsets Abs Open maxbytes "/srv/README" 12 5
  = Panics "runtime error: makeslice: len out of range"
  /\ executor.ReadFileWithOffsets Abs Open maxbytes "/srv/README" (2 ^ 44) 5
     = Returns (Err (Wrapf "failed to seek: "
                       (Errorf "seek /srv/README: invalid argument"))).
Proof.
  split.
  - apply (ReadFileWithOffsets_beyond_end Abs Open maxbytes
             "/srv/README" "/srv/README" hello 12 5).
    + reflexivity.
    + reflexivity.
    + vm_compute. split; [reflexivity|discriminate].
  - apply (ReadFileWithOffsets_beyond_end Abs Open maxbytes
             "/srv/README" "/srv/README" hello (2 ^ 44) 5).
    + reflexivity.
    + reflexivity.
    + vm_compute. split; [reflexivity|discriminate].
Defined.

Lemma ListFilesWithPattern_hides_dot_files_witness :
  exists files,
    executor.ListFilesWithPattern Abs Lstat Match "/srv" true "" = Ok files
    /\ Forall (fun f => executor.Path f = "/srv"
                        \/ String.prefix "." (executor.Name f) = false) files.
Proof.
  apply (ListFilesWithPattern_hides_dot_files Abs Lstat Match "/srv" "/srv").
  reflexivity.
Defined.

(** The whole of [/srv]: the root, then what is below in order, without
    [.git] and what it holds. *)
Example listing_of_the_site :
  match executor.ListFilesWithPattern Abs Lstat Match "/srv" true "" with
  | Ok files => executor.Path <$> files
  | Err _ => []
  end
  = ["/srv"; "/srv/README"; "/srv/docs"; "/srv/docs/notes.go"; "/srv/main.go"].
Proof. reflexivity. Qed.

Lemma ListFilesWithPattern_pattern_descends_witness :
  executor.ListFilesWithPattern Abs Lstat Match "/srv" false "*.go"
  = executor.ListFilesWithPattern Abs Lstat Match "/srv" true "*.go".
Proof.
  apply (ListFilesWithPattern_pattern_descends Abs Lstat Match "/srv" "/srv"
           "*.go" srv).
  - reflexivity.
  - reflexivity.
  - discriminate.
  - reflexivity.
Defined.

(** Not recursive, and yet the file in [docs] is listed. *)
Example go_files_of_the_site :
  match executor.ListFilesWithPattern Abs Lstat Match "/srv" false "*.go" with
  | Ok files => executor.Path <$> files
  | Err _ => []
  end
  = ["/srv/docs/notes.go"; "/srv/main.go"].
Proof. reflexivity. Qed.

Lemma ListFiles_flat_witness :
  executor.ListFiles Abs Lstat Match "/srv" false
  = Ok (executor.listed "/srv" srv
        :: ((fun child =>
               executor.listed
                 (filepath.Join "/srv" (os.Name (os.Info child))) child)
            <$> List.filter
                  (fun child =>
                     negb (String.prefix "." (os.Name (os.Info child))))
                  (os.Entries srv))).
Proof.
  apply (ListFiles_flat Abs Lstat Match "/srv" "/srv" (entry "srv" 4096)
           (os.Entries srv)).
  - reflexivity.
  - reflexivity.
  - repeat (apply List.Forall_cons; [discriminate|]). apply List.Forall_nil.
Defined.

Lemma Start_reports_baseline_witness :
  (file_watcher.Start Match Lstat [] (file_watcher.NewFileWatcher "macbook")).1
  = (fun path => ("file_created", path))
    <$> (map_to_list
           (file_watcher.fileStates
              (file_watcher.Start Match Lstat []
                 (file_watcher.NewFileWatcher "macbook")).2)).*1
  /\ (forall path absPath pattern info,
        Abs path = Ok absPath ->
        Lstat absPath = Some (os.File info) ->
        pattern = "" \/ Match pattern (os.Name info) = true ->
        ("file_created", absPath)
        ∈ (file_watcher.Start Match Lstat []
             (file_watcher.Watch Abs path false pattern
                (file_watcher.NewFileWatcher "macbook")).2).1).
Proof.
  apply (Start_reports_baseline Abs Match Lstat
           (file_watcher.NewFileWatcher "macbook")).
  reflexivity.
Defined.

(** Watching the file that is there and starting: it is reported as
    created at once. *)
Example readme_is_reported_at_once :
  (file_watcher.Start Match Lstat []
     (file_watcher.Watch Abs "/srv/README" false ""
        (file_watcher.NewFileWatcher "macbook")).2).1
  = [("file_created", "/srv/README")].
Proof. vm_compute. reflexivity. Qed.

Lemma Unwatch_reports_deleted_witness :
  (file_watcher.scan Match Lstat
     (file_watcher.Unwatch Abs "/srv/README" watching)).1
  = (fun p => ("file_deleted", p))
    <$> (map_to_list (file_watcher.fileStates watching)).*1
  /\ file_watcher.fileStates
       (file_watcher.scan Match Lstat
          (file_watcher.Unwatch Abs "/srv/README" watching)).2 = ∅.
Proof.
  apply (Unwatch_reports_deleted Abs Match Lstat "/srv/README" "/srv/README"
           watching).
  - reflexivity.
  - intros p Hp. apply lookup_insert_None. split; [apply lookup_empty|].
    congruence.
Defined.

(** The file is there, and reported as deleted. *)
Example readme_is_reported_deleted :
  Lstat "/srv/README" = Some readme
  /\ (file_watcher.scan Match Lstat
        (file_watcher.Unwatch Abs "/srv/README" watching)).1
     = [("file_deleted", "/srv/README")].
Proof. split; [reflexivity|vm_compute; reflexivity]. Qed.


Import primeclient scenario.

Lemma readMessage_timeout_mid_frame_witness :
  readMessage json.Unmarshal (serving ping_cut)
  = (Err ErrTimeout,
     set_conn
       (Some (mkConn [Data (drop 3 (frame (payload (ping "c-1"))))] [] true))
       (serving ping_cut))
  /\ forall ctx,
       messageLoop json.Marshal json.Unmarshal registry (S ctx)
         (serving ping_cut)
       = messageLoop json.Marshal json.Unmarshal registry ctx
           (set_conn
              (Some (mkConn [Data (drop 3 (frame (payload (ping "c-1"))))]
                       [] true))
              (serving ping_cut)).
Proof.
  apply (readMessage_timeout_mid_frame json.Marshal json.Unmarshal registry
           (serving ping_cut) (mkConn ping_cut [] true)
           [take 3 (frame (payload (ping "c-1")))]
           [Data (drop 3 (frame (payload (ping "c-1"))))]
           (payload (ping "c-1"))
           (drop 3 (frame (payload (ping "c-1"))))).
  - reflexivity.
  - reflexivity.
  - apply List.Forall_cons; [discriminate|apply List.Forall_nil].
  - vm_compute. reflexivity.
  - discriminate.
  - vm_compute. reflexivity.
Defined.

(** After the deadline the next read takes the last byte of the length
    and the first three of the payload for a length: 578 million bytes
    to wait for. *)
Example length_after_the_deadline :
  Uint32 (take 4 (drop 3 (frame (payload (ping "c-1"))))) = 578495075.
Proof. vm_compute. reflexivity. Qed.

Lemma sendRegistration_verdict_witness :
  conn (sendRegistration json.Marshal json.Unmarshal registering).2
  = Some (mkConn [] ([] ++ frame (payload (registration registering))) true)
  /\ ((sendRegistration json.Marshal json.Unmarshal registering).1 = Ok tt
      <-> accepted ack)
  /\ (accepted ack ->
      forall id,
        ack !! "daemon_id" = Some (VString id) ->
        daemonID (sendRegistration json.Marshal json.Unmarshal registering).2
        = id)
  /\ (accepted ack ->
      (forall id, ack !! "daemon_id" <> Some (VString id)) ->
      daemonID (sendRegistration json.Marshal json.Unmarshal registering).2
      = daemonID registering)
  /\ (~ accepted ack ->
      daemonID (sendRegistration json.Marshal json.Unmarshal registering).2
      = daemonID registering).
Proof.
  apply (sendRegistration_verdict json.Marshal json.Unmarshal registering
           (mkConn [Data (frame (payload ack))] [] true)
           [frame (payload ack)] []
           (payload (registration registering)) (payload ack) ack).
  - reflexivity.
  - reflexivity.
  - vm_compute. reflexivity.
  - reflexivity.
  - cbn [concat]. apply app_nil_r.
  - apply List.Forall_cons; [discriminate|apply List.Forall_nil].
  - vm_compute. reflexivity.
  - vm_compute. reflexivity.
Defined.

(** The client is registered as [d-1]. *)
Example registered_as_d1 :
  (sendRegistration json.Marshal json.Unmarshal registering).1 = Ok tt
  /\ daemonID (sendRegistration json.Marshal json.Unmarshal registering).2
     = "d-1".
Proof. split; vm_compute; reflexivity. Qed.

Lemma Close_keeps_connection_witness :
  (Close (serving [])).1 = Ok tt
  /\ IsConnected (Close (serving [])).2 = true
  /\ forall msg data,
       json.Marshal msg = Ok data ->
       sendMessage json.Marshal msg (Close (serving [])).2
       = (Err (Wrapf "write length: " ErrBrokenPipe), (Close (serving [])).2).
Proof.
  apply (Close_keeps_connection json.Marshal (serving []) (mkConn [] [] true)).
  reflexivity.
Defined.

Lemma messageLoop_ends_session_witness :
  (forall segs rest data err ctx,
     incoming (mkConn [Data (frame site.garbage)] [] true)
     = (Data <$> segs) ++ rest ->
     concat segs = frame data -> Forall (fun seg => seg <> []) segs ->
     Z.of_nat (length data) < 2 ^ 32 ->
     json.Unmarshal data = Err err ->
     messageLoop json.Marshal json.Unmarshal registry (S ctx)
       (serving [Data (frame site.garbage)])
     = Returns (Wrapf "read error: " (Wrapf "unmarshal: " err),
                set_conn (Some (mkConn rest [] true))
                  (serving [Data (frame site.garbage)])))
  /\ (forall ctx,
        incoming (mkConn [Data (frame site.garbage)] [] true) = [] ->
        messageLoop json.Marshal json.Unmarshal registry (S ctx)
          (serving [Data (frame site.garbage)])
        = Returns (Errorf "connection closed",
                   serving [Data (frame site.garbage)])).
Proof.
  apply (messageLoop_ends_session json.Marshal json.Unmarshal registry
           (serving [Data (frame site.garbage)])
           (mkConn [Data (frame site.garbage)] [] true)).
  reflexivity.
Defined.

(** A frame that is not JSON, and the end of the connection. *)
Example garbage_ends_the_session :
  match messageLoop json.Marshal json.Unmarshal registry 4
          (serving [Data (frame site.garbage)]) with
  | Returns (err, c) => Some (Error err, outgoing <$> conn c)
  | Panics _ => None
  end
  = Some ("read error: unmarshal: json error", Some [])
  /\ match messageLoop json.Marshal json.Unmarshal registry 4 (serving []) with
     | Returns (err, c) => Some (Error err, outgoing <$> conn c)
     | Panics _ => None
     end
     = Some ("connection closed", Some []).
Proof. split; vm_compute; reflexivity. Qed.

Lemma Connect_waits_bounded_witness :
  match Connect json.Marshal json.Unmarshal registry
          [refused; session [nack]; refused; refused; session [ack]] fresh
  with
  | Returns (waits, _) =>
      Forall (fun wait => 1 * Second <= wait <= 60 * Second) waits
  | Panics _ => True
  end.
Proof.
  apply (Connect_waits_bounded json.Marshal json.Unmarshal registry
           [refused; session [nack]; refused; refused; session [ack]] fresh).
  - vm_compute. split; discriminate.
  - reflexivity.
Defined.

Lemma Connect_waits_a_second_after_a_dial_witness :
  match Connect json.Marshal json.Unmarshal registry
          [session [nack]; refused] (set_reconnectDelay (32 * Second) fresh)
  with
  | Returns (wait :: _, _) => wait = 1 * Second
  | _ => True
  end.
Proof.
  apply (Connect_waits_a_second_after_a_dial json.Marshal json.Unmarshal
           registry (session [nack]) [refused]
           (set_reconnectDelay (32 * Second) fresh)).
  eexists. reflexivity.
Defined.

(** After three failed dials the delay is eight seconds; the dial that
    succeeds brings it back to one although the registration is
    rejected. *)
Example waits_around_a_rejection :
  match Connect json.Marshal json.Unmarshal registry
          [refused; refused; refused; session [nack]; refused] fresh with
  | Returns (waits, _) => waits
  | Panics _ => []
  end
  = (fun n => n * Second) <$> [1; 2; 4; 1; 2].
Proof. vm_compute. reflexivity. Qed.

Lemma handleReadFile_window_witness :
  handlers.handleReadFile site.world second_line
  = Returns (Some (read_result
       (Join (if PrimFloat.ltb 0 (asFloat64 (second_line !! "limit"))
              then take (Z.to_nat (int_of_float64
                                     (asFloat64 (second_line !! "limit"))))
                     (drop (Z.to_nat (int_of_float64
                                        (asFloat64 (second_line !! "offset"))))
                        (Split "one
two
three"))
              else drop (Z.to_nat (int_of_float64
                                     (asFloat64 (second_line !! "offset"))))
                     (Split "one
two
three")) newline))).
Proof.
  apply (handleReadFile_window site.world second_line "/etc/motd").
  - reflexivity.
  - discriminate.
  - reflexivity.
  - vm_compute. discriminate.
  - intros _. vm_compute. split; discriminate.
Defined.

Example second_line_of_the_file :
  handlers.handleReadFile site.world second_line
  = Returns (Some (<["success" := VBool true]>
                  (<["content" := VString "two"]>
                   (<["size" := VInt 3]>
                    (<["total_lines" := VInt 1]> ∅))))).
Proof. vm_compute. reflexivity. Qed.

Lemma handleReadFile_panics_iff_witness :
  (exists reason, handlers.handleReadFile scenario.world read_back = Panics reason)
  <-> PrimFloat.ltb 0 (asFloat64 (read_back !! "limit")) = true
      /\ int_of_float64 (asFloat64 (read_back !! "offset"))
         < Z.of_nat (length (Split (String.append "macbook" newline)))
      /\ (int_of_float64 (asFloat64 (read_back !! "offset")) < 0
          \/ int64 (int_of_float64 (asFloat64 (read_back !! "offset"))
                    + int_of_float64 (asFloat64 (read_back !! "limit")))
             < int_of_float64 (asFloat64 (read_back !! "offset"))).
Proof.
  apply (handleReadFile_panics_iff scenario.world read_back "/etc/hostname").
  - reflexivity.
  - discriminate.
  - reflexivity.
Defined.

Lemma handleWriteFile_append_hides_errors_witness :
  (append_line !! "append" = Some (VBool true) ->
   (builtin.handleWriteFile unit unit sealed_OpenFile sealed_WriteString
      sealed_Close sealed_WriteFile append_line tt).1
   = Returns (Some (<["success" := VBool true]>
                   (<["path" := VString "/etc/motd"]>
                    (<["size" :=
                         VInt (Z.of_nat (String.length
                                 (asString (append_line !! "content"))))]>
                     ∅)))))
  /\ (asBool (append_line !! "append") = false ->
      forall mode err fs',
        sealed_WriteFile "/etc/motd" (asString (append_line !! "content"))
          mode tt = (Some err, fs') ->
        mode = (if PrimFloat.ltb 0 (asFloat64 (append_line !! "mode"))
                then uint32 (int_of_float64
                               (asFloat64 (append_line !! "mode")))
                else 420) ->
        builtin.handleWriteFile unit unit sealed_OpenFile sealed_WriteString
          sealed_Close sealed_WriteFile append_line tt
        = (Returns (Some (handlers.failure (Error err))), fs')).
Proof.
  apply (handleWriteFile_append_hides_errors unit unit sealed_OpenFile
           sealed_WriteString sealed_Close sealed_WriteFile append_line
           "/etc/motd" tt).
  - reflexivity.
  - discriminate.
Defined.

(** Nothing can be written, and the answer is a success. *)
Example append_to_a_sealed_file :
  (builtin.handleWriteFile unit unit sealed_OpenFile sealed_WriteString
     sealed_Close sealed_WriteFile append_line tt).1
  = Returns (Some (<["success" := VBool true]>
                  (<["path" := VString "/etc/motd"]>
                   (<["size" := VInt 4]> ∅)))).
Proof. vm_compute. reflexivity. Qed.

End SiteExamples.
